(** * Social listening agent: search / score / refine loop and outreach rules

    A shallow embedding of [agent.py], [scorer.py], [outreach.py] and of the
    two scrapers.

    - Posts are Python dicts with a fixed set of keys; they are a record
      whose scoring keys are optional (absent until [post.update] in
      [score_opportunities] writes them).  Integers are [Z].  A string is
      held by its UTF-8 encoding, and [len], slices and [strip] work on its
      code points.
    - Calls to the language-model services and to the scrapers are
      parameters of the model: each call is identified by the iteration,
      batch and attempt in which it happens, so an arbitrary function of
      these indices stands for an arbitrary behaviour of the collaborator.
      Creating a client ([OpenAI()], which needs a configured key) is not
      a call to a service and is not modelled: every function starts with
      a client in hand.
    - What [json.loads] returns is a JSON value of any shape.  The drafting
      service of [outreach] replies with such values.  The scorer and the
      loop of [main] are modelled twice.  In [dyn] the replies of the
      scoring service are JSON values of any shape, the five scoring keys
      of a post hold whatever was copied from them, and the merge of
      [score_opportunities] and the threshold test of [main], which are
      outside every [try], raise as they do in Python.  In [scorer] and
      [agent] a reply has the shape that [_parse_response] is annotated with
      (a list of objects; also JSON [null]) and its values have the types
      the prompt asks for; the section on replies of the annotated types
      shows that on such replies [dyn] does what [scorer] and [agent] do.
    - A listing of a subreddit is the sequence of submissions that the loop
      over it processes before the listing ends or raises, each with the
      value of the time filter for it.
    - Exceptions are explicit: a computation that may raise has type
      [outcome A].  Delays ([time.sleep]) are not modelled. *)

From Stdlib Require Import ZArith QArith Ascii String List Lia Permutation Sorted.
From stdpp Require Import base decidable option list gmap strings.

Import ListNotations.
Local Open Scope string_scope.
Local Open Scope Z_scope.

(** ** Exceptions *)

Inductive exn : Type :=
| JSONDecodeError
| KeyError
| TypeError
| AttributeError
| OtherException.

Inductive outcome (A : Type) : Type :=
| Raise (e : exn)
| Return (a : A).
Arguments Raise {A} e.
Arguments Return {A} a.

#[global] Instance outcome_ret : MRet outcome := fun A a => Return a.

#[global] Instance outcome_bind : MBind outcome := fun A B k c =>
  match c with
  | Raise e => Raise e
  | Return a => k a
  end.

(** [try: c except Exception: h] *)
Definition try_except {A : Type} (c : outcome A) (h : exn -> A) : A :=
  match c with
  | Raise e => h e
  | Return a => a
  end.

(** ** Python helpers *)

(** [range(lo, hi)] *)
Definition py_range (lo hi : Z) : list Z :=
  List.map (fun k => lo + Z.of_nat k) (seq 0 (Z.to_nat (hi - lo))).

(** [l[:n]] for a Python integer [n]: a negative bound counts from the end. *)
Definition slice_to {A : Type} (n : Z) (l : list A) : list A :=
  if 0 <=? n then firstn (Z.to_nat n) l
  else firstn (Z.to_nat (Z.of_nat (length l) + n)) l.

(** A Python [str] is a sequence of code points; the model holds its UTF-8
    encoding.  A code point is a byte that is not a continuation byte
    (binary 10xxxxxx) followed by continuation bytes. *)
Definition is_continuation (c : ascii) : bool :=
  let n := nat_of_ascii c in ((128 <=? n) && (n <? 192))%nat.

Definition starts_with_continuation (s : string) : bool :=
  match s with
  | String c _ => is_continuation c
  | EmptyString => false
  end.

(** The code points of a string, each as the string of its bytes: what
    [for c in s] iterates over. *)
Fixpoint chars (s : string) : list string :=
  match s with
  | EmptyString => []
  | String c r =>
      match chars r with
      | t :: ts =>
          if starts_with_continuation r then String c t :: ts
          else String c EmptyString :: t :: ts
      | [] => [String c EmptyString]
      end
  end.

(** The string made of a list of code points. *)
Definition join (l : list string) : string := fold_right String.append EmptyString l.

(** [len(s)] *)
Definition len (s : string) : nat := length (chars s).

(** [s[:n]] on a string, [n] a literal: the first [n] code points. *)
Definition str_prefix (n : nat) (s : string) : string := join (firstn n (chars s)).

(** [enumerate(l)] *)
Definition enumerate {A : Type} (l : list A) : list (Z * A) :=
  combine (List.map Z.of_nat (seq 0 (length l))) l.

(** The built-in [sorted(l, key=..., reverse=True)] and [l.sort(...)] on a
    list already decorated with its integer keys.  Python's sort is stable
    also with [reverse=True]: keys descend and elements with equal keys stay
    in the order of the input.  Here an element is inserted in front of the
    first element whose key is not larger. *)
Fixpoint insert_desc {A : Type} (x : Z * A) (l : list (Z * A)) : list (Z * A) :=
  match l with
  | [] => [x]
  | y :: r => if fst y <=? fst x then x :: y :: r else y :: insert_desc x r
  end.

Fixpoint sort_desc {A : Type} (l : list (Z * A)) : list (Z * A) :=
  match l with
  | [] => []
  | x :: r => insert_desc x (sort_desc r)
  end.

(** ** Posts *)

Record post : Type := mkPost {
  source : string;
  url : string;
  title : string;
  snippet : string;
  subreddit : string;
  score : Z;
  num_comments : Z;
  author : string;
  (* keys written by the scorer; [None] is "key absent" *)
  topic_label : option string;
  intent_score : option Z;
  recommended_action : option string;
  suggested_response : option string;
  why_this_matters : option string
}.

(** The five keys of [post.update({...})]. *)
Record scoring : Type := mkScoring {
  s_topic_label : string;
  s_intent_score : Z;
  s_recommended_action : string;
  s_suggested_response : string;
  s_why_this_matters : string
}.

(** [post.update(d)] for a dict [d] with exactly the five scoring keys. *)
Definition update (p : post) (d : scoring) : post :=
  {| source := source p; url := url p; title := title p; snippet := snippet p;
     subreddit := subreddit p; score := score p; num_comments := num_comments p;
     author := author p;
     topic_label := Some (s_topic_label d);
     intent_score := Some (s_intent_score d);
     recommended_action := Some (s_recommended_action d);
     suggested_response := Some (s_suggested_response d);
     why_this_matters := Some (s_why_this_matters d) |}.

(** [p.get(key, dflt)] *)
Definition get {A : Type} (field : option A) (dflt : A) : A :=
  match field with
  | Some v => v
  | None => dflt
  end.

(** [needle in haystack] on strings *)
Definition contains (needle haystack : string) : bool :=
  match index 0 needle haystack with
  | Some _ => true
  | None => false
  end.

(** The code points for which [str.isspace] holds, which [str.strip]
    removes: U+0009 to U+000D, U+001C to U+0020, U+0085, U+00A0, U+1680,
    U+2000 to U+200A, U+2028, U+2029, U+202F, U+205F and U+3000, each by the
    bytes of its encoding. *)
Definition code_point (bytes : list nat) : string :=
  string_of_list_ascii (List.map ascii_of_nat bytes).

Definition whitespace : list string :=
  List.map code_point
    [[9]; [10]; [11]; [12]; [13]; [28]; [29]; [30]; [31]; [32];
     [194; 133]; [194; 160]; [225; 154; 128];
     [226; 128; 128]; [226; 128; 129]; [226; 128; 130]; [226; 128; 131];
     [226; 128; 132]; [226; 128; 133]; [226; 128; 134]; [226; 128; 135];
     [226; 128; 136]; [226; 128; 137]; [226; 128; 138];
     [226; 128; 168]; [226; 128; 169]; [226; 128; 175]; [226; 129; 159];
     [227; 128; 128]]%nat.

Definition is_space (c : string) : bool := existsb (String.eqb c) whitespace.

(** [s.lstrip()], [s.rstrip()] and [s.strip()], on the code points *)
Fixpoint lstrip_chars (l : list string) : list string :=
  match l with
  | [] => []
  | c :: r => if is_space c then lstrip_chars r else l
  end.

Definition rstrip_chars (l : list string) : list string := rev (lstrip_chars (rev l)).

Definition lstrip (s : string) : string := join (lstrip_chars (chars s)).

Definition rstrip (s : string) : string := join (rstrip_chars (chars s)).

Definition strip (s : string) : string := join (rstrip_chars (lstrip_chars (chars s))).

(** The line feed, and [s.split(newline)]: the pieces between line feeds,
    always at least one. *)
Definition newline : ascii := ascii_of_nat 10.

Fixpoint split_lines (s : string) : list string :=
  match s with
  | EmptyString => [EmptyString]
  | String c r =>
      if Ascii.eqb c newline then EmptyString :: split_lines r
      else match split_lines r with
           | l :: ls => String c l :: ls
           | [] => [String c EmptyString]
           end
  end.

(** [newline.join(lines)] *)
Definition join_lines (lines : list string) : string :=
  String.concat (String newline EmptyString) lines.

(** [s.startswith(p)] *)
Definition startswith (s p : string) : bool := String.prefix p s.

(** The three backticks that open or close a markdown fence. *)
Definition fence : string := "```".

(** The text handed to [json.loads]: the reply is stripped and, when it
    starts with a fence, loses every line that starts with a fence once
    stripped.  [_parse_response], [generate_refined_keywords] and
    [draft_outreach] all prepare the reply in this way. *)
Definition strip_fences (text : string) : string :=
  let text := strip text in
  if startswith text fence
  then
    let lines := split_lines text in
    let lines := List.filter (fun l => negb (startswith (strip l) fence)) lines in
    join_lines lines
  else text.

(** ** JSON values

    What [json.loads] returns: [None], a bool, an int, a float (a rational,
    an infinity or NaN), a string, a list, or a dict given by its items in
    order. *)

Inductive pyfloat : Type :=
| Finite (q : Q)
| PosInf
| NegInf
| NaN.

Unset Elimination Schemes.

Inductive json : Type :=
| VNone
| VBool (b : bool)
| VInt (z : Z)
| VFloat (f : pyfloat)
| VStr (s : string)
| VList (elements : list json)
| VDict (items : list (string * json)).

Set Elimination Schemes.

(** [d.get(key)] on the items of a dict *)
Fixpoint dict_get (items : list (string * json)) (key : string) : option json :=
  match items with
  | [] => None
  | (k, v) :: rest => if (k =? key)%string then Some v else dict_get rest key
  end.

(** The number that a value is in a comparison and as the key of a dict:
    [True] and [False] are the integers 1 and 0. *)
Definition as_number (v : json) : option pyfloat :=
  match v with
  | VBool b => Some (Finite (inject_Z (if b then 1 else 0)))
  | VInt z => Some (Finite (inject_Z z))
  | VFloat f => Some f
  | _ => None
  end.

(** [f >= n] and [f == n] for a number [f] and an int [n] *)
Definition float_ge (f : pyfloat) (n : Z) : bool :=
  match f with
  | Finite q => Qle_bool (inject_Z n) q
  | PosInf => true
  | NegInf | NaN => false
  end.

Definition float_eq (f : pyfloat) (n : Z) : bool :=
  match f with
  | Finite q => Qeq_bool q (inject_Z n)
  | _ => false
  end.

(** [a <= b] on numbers; false as soon as one of them is NaN *)
Definition float_le (a b : pyfloat) : bool :=
  match a, b with
  | NaN, _ | _, NaN => false
  | NegInf, _ | _, PosInf => true
  | Finite p, Finite q => Qle_bool p q
  | _, _ => false
  end.

(** [v >= n] for an int [n]: a [TypeError] unless [v] is a number *)
Definition ge_int (v : json) (n : Z) : outcome bool :=
  match as_number v with
  | Some f => Return (float_ge f n)
  | None => Raise TypeError
  end.

(** [bool(v)] *)
Definition truthy (v : json) : bool :=
  match v with
  | VNone => false
  | VBool b => b
  | VInt z => negb (z =? 0)
  | VFloat f => negb (float_eq f 0)
  | VStr s => negb (s =? "")%string
  | VList [] => false
  | VList (_ :: _) => true
  | VDict [] => false
  | VDict (_ :: _) => true
  end.

(** [for x in v]: the elements of a list, the keys of a dict, the
    characters of a string; other values are not iterable. *)
Definition iterate (v : json) : outcome (list json) :=
  match v with
  | VList elements => Return elements
  | VDict items => Return (List.map (fun kv => VStr (fst kv)) items)
  | VStr s => Return (List.map VStr (chars s))
  | _ => Raise TypeError
  end.

(** [key in v] for a string [key]: a key of a dict, an element of a list, a
    substring of a string. *)
Definition py_in (key : string) (v : json) : outcome bool :=
  match v with
  | VDict items => Return (match dict_get items key with Some _ => true | None => false end)
  | VList elements =>
      Return (existsb (fun e => match e with
                                | VStr s => (s =? key)%string
                                | _ => false
                                end) elements)
  | VStr s => Return (contains key s)
  | _ => Raise TypeError
  end.

(** [v[key]] for a string [key], where the value is then used as the key of
    a dict: only a dict can be subscripted by a string, and a list or a dict
    is not hashable. *)
Definition subscript_as_key (v : json) (key : string) : outcome json :=
  match v with
  | VDict items =>
      match dict_get items key with
      | Some (VList _) | Some (VDict _) => Raise TypeError
      | Some k => Return k
      | None => Raise KeyError
      end
  | _ => Raise TypeError
  end.

(** [info.get(key, dflt)]: only a dict has the method. *)
Definition py_get (info : json) (key : string) (dflt : json) : outcome json :=
  match info with
  | VDict items => Return (default dflt (dict_get items key))
  | _ => Raise AttributeError
  end.

(** ** scrapers: how a post is created

    The timestamp [created_utc] (a float) is left out of the record. *)

Module scrapers.

(** The attributes of a praw submission read by [_submission_to_dict];
    [selftext] may be [None]. *)
Record submission : Type := mkSubmission {
  sub_permalink : string;
  sub_title : string;
  sub_selftext : option string;
  sub_subreddit : string;
  sub_score : Z;
  sub_num_comments : Z;
  sub_author : string
}.

Definition _submission_to_dict (sub : submission) : post :=
  {| source := "reddit";
     url := "https://reddit.com" ++ sub_permalink sub;
     title := sub_title sub;
     snippet := str_prefix 500 (get (sub_selftext sub) "");
     subreddit := sub_subreddit sub;
     score := sub_score sub;
     num_comments := sub_num_comments sub;
     author := sub_author sub;
     topic_label := None; intent_score := None; recommended_action := None;
     suggested_response := None; why_this_matters := None |}.

(** A result of [_search]. *)
Record search_item : Type := mkSearchItem {
  it_url : string;
  it_title : string;
  it_snippet : string
}.

Definition _classify_source (url : string) : string :=
  if contains "twitter.com" url || contains "x.com" url then "twitter"
  else if contains "quora.com" url then "quora"
  else if contains "reddit.com" url then "reddit"
  else "web".

(** The dict appended to [results] in [scrape_web]. *)
Definition web_post (item : search_item) : post :=
  {| source := _classify_source (it_url item);
     url := it_url item;
     title := it_title item;
     snippet := str_prefix 500 (it_snippet item);
     subreddit := "";
     score := 0;
     num_comments := 0;
     author := "";
     topic_label := None; intent_score := None; recommended_action := None;
     suggested_response := None; why_this_matters := None |}.

(** *** web_scraper.py *)

(** One result of [ddgs.text]: [r["href"]], [r["title"]] and the optional
    [r["body"]]. *)
Record hit : Type := mkHit {
  h_href : string;
  h_title : string;
  h_body : option string
}.

(** [_search(query, ddgs)]: [text attempt query] is what [ddgs.text]
    returns or raises in that attempt. *)
Fixpoint search_attempts (text : Z -> string -> outcome (list hit)) (query : string)
         (tries : list Z) : list search_item :=
  match tries with
  | [] => []
  | attempt :: rest =>
      match text attempt query with
      | Return results =>
          List.map (fun r => {| it_url := h_href r;
                                it_title := h_title r;
                                it_snippet := get (h_body r) "" |}) results
      | Raise _ => search_attempts text query rest
      end
  end.

Definition _search (text : Z -> string -> outcome (list hit)) (query : string)
  : list search_item :=
  search_attempts text query (py_range 0 2).

(** The state of a scraper: [seen_urls] and [results]. *)
Definition collected : Type := gset string * list post.

(** [if url not in seen_urls: seen_urls.add(url); results.append(post)] *)
Definition collect (acc : collected) (p : post) : collected :=
  if decide (url p ∈ fst acc) then acc
  else ({[url p]} ∪ fst acc, (snd acc ++ [p])%list).

(** [queries_per_keyword]: what follows the keyword in each template. *)
Definition queries_per_keyword : list string :=
  [" site:twitter.com OR site:x.com"; " site:quora.com"; " forum OR discussion"].

(** [query_template.format(kw=kw)] *)
Definition format (query_template kw : string) : string := kw ++ query_template.

Section with_ddgs.

(** [ddgs k t attempt query]: the search made for the keyword at position
    [k], with the template at position [t]. *)
Variable ddgs : nat -> nat -> Z -> string -> outcome (list hit).

(** The body of [for query_template in queries_per_keyword]. *)
Definition scrape_query (k : nat) (kw : string) (acc : collected)
           (tq : nat * string) : collected :=
  let query := format (snd tq) kw in
  let raw := _search (ddgs k (fst tq)) query in
  fold_left (fun acc item => collect acc (web_post item)) raw acc.

Definition scrape_keyword (acc : collected) (kk : nat * string) : collected :=
  fold_left (scrape_query (fst kk) (snd kk))
            (combine (seq 0 (length queries_per_keyword)) queries_per_keyword) acc.

Definition scrape_web (keywords : list string) : list post :=
  snd (fold_left scrape_keyword (combine (seq 0 (length keywords)) keywords) (∅, [])).

End with_ddgs.

(** *** reddit_scraper.py *)

Definition required : list string :=
  ["REDDIT_CLIENT_ID"; "REDDIT_CLIENT_SECRET"; "REDDIT_USERNAME"; "REDDIT_PASSWORD"].

(** [_has_reddit_credentials()], with [os.environ] as a map. *)
Definition _has_reddit_credentials (environ : gmap string string) : bool :=
  forallb (fun k => match environ !! k with
                    | Some v => negb (v =? "")%string && negb (startswith v "your_")
                    | None => false
                    end) required.

(** A listing of a subreddit as the loop over it sees it: the submissions
    it processes before the listing ends or raises, each with the value of
    [_is_within_days] for it. *)
Definition listing : Type := list (submission * bool).

Record subreddit : Type := mkSubreddit {
  sr_search : nat -> string -> listing;
  sr_hot : listing;
  sr_new : listing
}.

(** The body of the three loops over a listing. *)
Definition collect_listing (acc : collected) (l : listing) : collected :=
  fold_left (fun acc (sw : submission * bool) =>
               if snd sw then collect acc (_submission_to_dict (fst sw)) else acc)
            l acc.

Section with_reddit.

Variable environ : gmap string string.

(** [reddit.subreddit(sub_name)] for the subreddit at a position of the
    list. *)
Variable reddit_subreddit : nat -> string -> outcome subreddit.

Definition scrape_subreddit (keywords : list string) (acc : collected)
           (ns : nat * string) : collected :=
  match reddit_subreddit (fst ns) (snd ns) with
  | Raise _ => acc
  | Return sr =>
      let acc :=
        fold_left (fun acc (kk : nat * string) =>
                     collect_listing acc (sr_search sr (fst kk) (snd kk)))
                  (combine (seq 0 (length keywords)) keywords) acc in
      let acc := collect_listing acc (sr_hot sr) in
      collect_listing acc (sr_new sr)
  end.

Definition scrape_reddit (keywords subreddits : list string) : list post :=
  if negb (_has_reddit_credentials environ) then []
  else snd (fold_left (scrape_subreddit keywords)
                      (combine (seq 0 (length subreddits)) subreddits) (∅, [])).

End with_reddit.

End scrapers.

(** ** outreach.py *)

Module outreach.

Definition DM_MIN_SCORE : Z := 80.
Definition COMMENT_MIN_SCORE : Z := 70.
Definition CONTENT_NOTE_MIN_SCORE : Z := 60.

Definition classify_outreach_action (p : post) : option string :=
  let score := get (intent_score p) 0 in
  let action := get (recommended_action p) "" in
  if (score >=? DM_MIN_SCORE) && (action =? "DM")%string then Some "dm"
  else if (score >=? COMMENT_MIN_SCORE) && (action =? "comment")%string then Some "comment"
  else if (score >=? CONTENT_NOTE_MIN_SCORE) && (action =? "content")%string then Some "content_idea"
  else None.

(** The rule table of the specification, as a relation between the two
    inputs and the tier. *)
Inductive classify_spec (score : Z) (action : string) : option string -> Prop :=
| tier_dm : 80 <= score -> action = "DM" -> classify_spec score action (Some "dm")
| tier_comment : 70 <= score -> action = "comment" ->
    classify_spec score action (Some "comment")
| tier_content : 60 <= score -> action = "content" ->
    classify_spec score action (Some "content_idea")
| tier_none :
    ~ (80 <= score /\ action = "DM") ->
    ~ (70 <= score /\ action = "comment") ->
    ~ (60 <= score /\ action = "content") ->
    classify_spec score action None.

Definition _detect_platform (p : post) : string :=
  if (source p =? "reddit")%string || contains "reddit.com" (url p) then "reddit"
  else if (source p =? "twitter")%string || contains "twitter.com" (url p)
          || contains "x.com" (url p) then "twitter"
  else if (source p =? "quora")%string || contains "quora.com" (url p) then "quora"
  else "web".

(** A row of the outreach drafts.  The message and the reason are what the
    reply of the drafting service holds under these keys, of any type. *)
Record draft : Type := mkDraft {
  platform : string;
  d_url : string;
  post_title : string;
  action_type : string;
  draft_message : json;
  d_intent_score : Z;
  reason_for_outreach : json
}.

(** The value of [user_msg] before [json.dumps]. *)
Record draft_request : Type := mkDraftRequest {
  dr_action_type : string;
  dr_platform : string;
  dr_post_title : string;
  dr_post_snippet : string;
  dr_topic : string;
  dr_intent_score : Z;
  dr_why_this_matters : string
}.

(** The draft of a content idea. *)
Definition content_idea_draft (p : post) (platform : string) : draft :=
  {| platform := platform;
     d_url := url p;
     post_title := title p;
     action_type := "content_idea";
     draft_message := VStr "";
     d_intent_score := get (intent_score p) 0;
     reason_for_outreach := VStr ("Content idea: " ++ get (why_this_matters p) "") |}.

(** The first loop of [draft_outreach]: [drafts] and [posts_to_draft]. *)
Definition triage (acc : list draft * list (post * string * string)) (p : post)
  : list draft * list (post * string * string) :=
  let action_type := classify_outreach_action p in
  let platform := _detect_platform p in
  match action_type with
  | None => acc
  | Some a =>
      if (a =? "content_idea")%string
      then ((fst acc ++ [content_idea_draft p platform])%list, snd acc)
      else (fst acc, (snd acc ++ [(p, a, platform)])%list)
  end.

Definition draft_user_msg (p : post) (action_type platform : string) : draft_request :=
  {| dr_action_type := action_type;
     dr_platform := platform;
     dr_post_title := title p;
     dr_post_snippet := str_prefix 300 (snippet p);
     dr_topic := get (topic_label p) "";
     dr_intent_score := get (intent_score p) 0;
     dr_why_this_matters := get (why_this_matters p) "" |}.

(** [parsed.get(key, "") if parsed else failure] *)
Definition reply_get (parsed : json) (key failure : string) : outcome json :=
  if truthy parsed then py_get parsed key (VStr "") else Return (VStr failure).

Section with_drafter.

(** [write n attempt user_msg] is the value of [json.loads(raw)] for the
    request made in that attempt for the [n]-th post of [posts_to_draft],
    any JSON value; every failure is an exception. *)
Variable write : nat -> Z -> draft_request -> outcome json.

(** [for attempt in range(3): try: ... break except ...], started with
    [parsed = None]. *)
Fixpoint draft_attempts (n : nat) (user_msg : draft_request) (tries : list Z) : json :=
  match tries with
  | [] => VNone
  | attempt :: rest =>
      match write n attempt user_msg with
      | Return parsed => parsed
      | Raise _ => draft_attempts n user_msg rest
      end
  end.

(** The body of the second loop: the draft appended for one entry of
    [posts_to_draft].  The two [parsed.get] are outside the [try]. *)
Definition written_draft (n : nat) (entry : post * string * string) : outcome draft :=
  let p := fst (fst entry) in
  let action_type := snd (fst entry) in
  let platform := snd entry in
  let user_msg := draft_user_msg p action_type platform in
  let parsed := draft_attempts n user_msg (py_range 0 3) in
  message ← reply_get parsed "draft_message" "[Draft generation failed]";
  reason ← reply_get parsed "reason_for_outreach" "Draft generation failed";
  mret {| platform := platform;
          d_url := url p;
          post_title := title p;
          action_type := action_type;
          draft_message := message;
          d_intent_score := get (intent_score p) 0;
          reason_for_outreach := reason |}.

(** The second loop. *)
Fixpoint draft_each (entries : list (nat * (post * string * string))) (drafts : list draft)
  : outcome (list draft) :=
  match entries with
  | [] => Return drafts
  | ne :: rest =>
      d ← written_draft (fst ne) (snd ne);
      draft_each rest (drafts ++ [d])%list
  end.

Definition draft_outreach (posts : list post) : outcome (list draft) :=
  let first := fold_left triage posts ([], []) in
  let drafts := fst first in
  let posts_to_draft := snd first in
  draft_each (combine (seq 0 (length posts_to_draft)) posts_to_draft) drafts.

End with_drafter.

End outreach.

(** ** scorer.py

    The scorer on replies of the annotated types; [dyn] below is the scorer
    on replies of any shape. *)

Module scorer.

(** One element of the JSON array sent to the scoring service. *)
Record request_item : Type := mkRequestItem {
  rq_id : Z;
  rq_source : string;
  rq_title : string;
  rq_snippet : string
}.

Definition _build_user_message (batch : list post) : list request_item :=
  List.map (fun ip : Z * post =>
              {| rq_id := fst ip;
                 rq_source := source (snd ip);
                 rq_title := title (snd ip);
                 rq_snippet := str_prefix 300 (snippet (snd ip)) |})
           (enumerate batch).

(** A value usable as the key of a Python dict: the ["id"] of an item of the
    reply is an integer or a string. *)
Inductive py_key : Type :=
| KInt (z : Z)
| KStr (s : string).

#[global] Instance py_key_eq_dec : EqDecision py_key.
Proof. solve_decision. Defined.

#[global] Instance py_key_countable : Countable py_key :=
  inj_countable'
    (fun k => match k with KInt z => inl z | KStr s => inr s end)
    (fun x => match x with inl z => KInt z | inr s => KStr s end)
    (fun k => match k with KInt _ => eq_refl | KStr _ => eq_refl end).

(** One object of the array returned by the scoring service
    ([_parse_response] is annotated [-> list[dict]]); every key may be
    absent, and a key that is present holds a value of the type the prompt
    asks for. *)
Record item : Type := mkItem {
  i_id : option py_key;
  i_topic_label : option string;
  i_intent_score : option Z;
  i_recommended_action : option string;
  i_suggested_response : option string;
  i_why_this_matters : option string
}.

(** The empty dict [{}]. *)
Definition empty_item : item := mkItem None None None None None None.

(** The dict written on a failed batch. *)
Definition failed : scoring :=
  {| s_topic_label := "general_education";
     s_intent_score := 0;
     s_recommended_action := "content";
     s_suggested_response := "";
     s_why_this_matters := "Scoring failed" |}.

(** [has_ids = all("id" in item for item in result)] *)
Definition has_ids (result : list item) : bool :=
  forallb (fun it => match i_id it with Some _ => true | None => false end) result.

(** [{item["id"]: item for item in result}]: a later item replaces an
    earlier one under the same key. *)
Definition by_id (result : list item) : gmap py_key item :=
  fold_left (fun m it => match i_id it with
                         | Some k => <[k := it]> m
                         | None => m
                         end) result ∅.

(** [{i: item for i, item in enumerate(result)}] *)
Definition by_position (result : list item) : gmap py_key item :=
  fold_left (fun m (ii : Z * item) => <[KInt (fst ii) := snd ii]> m)
            (enumerate result) ∅.

Definition score_map (result : list item) : gmap py_key item :=
  if has_ids result then by_id result else by_position result.

(** Body of [for i, post in enumerate(batch)]. *)
Definition merge (m : gmap py_key item) (i : Z) (p : post) : post :=
  let info := default empty_item (m !! KInt i) in
  update p {| s_topic_label := get (i_topic_label info) "general_education";
              s_intent_score := get (i_intent_score info) 0;
              s_recommended_action := get (i_recommended_action info) "content";
              s_suggested_response := get (i_suggested_response info) "";
              s_why_this_matters := get (i_why_this_matters info) "" |}.

(** [range(0, n, step)] for a positive step. *)
Definition range_step (n step : Z) : list Z :=
  List.map (fun k => step * Z.of_nat k) (seq 0 (Z.to_nat ((n + step - 1) / step))).

(** [posts[start : start + batch_size]] for [0 <= start]. *)
Definition slice_batch (start batch_size : Z) (posts : list post) : list post :=
  firstn (Z.to_nat batch_size) (skipn (Z.to_nat start) posts).

Section with_client.

(** [complete batch_num attempt user_msg] is the value of
    [_parse_response(response.choices[0].message.content)] for the request
    made in that attempt: it raises [JSONDecodeError] on malformed text and
    another exception on a transport error; the parsed value is [None]
    (JSON [null]) or a list of objects. *)
Variable complete : Z -> Z -> list request_item -> outcome (option (list item)).

(** [for attempt in range(3): try: ... break except ...: sleep], started
    with [result = None]. *)
Fixpoint attempts (batch_num : Z) (user_msg : list request_item)
         (tries : list Z) : option (list item) :=
  match tries with
  | [] => None
  | attempt :: rest =>
      match complete batch_num attempt user_msg with
      | Return result => result
      | Raise JSONDecodeError => attempts batch_num user_msg rest
      | Raise _ => attempts batch_num user_msg rest
      end
  end.

(** The body of the loop over batches once [batch] and [batch_num] are
    computed: the posts it appends to [scored]. *)
Definition score_batch (batch_num : Z) (batch : list post) : list post :=
  let user_msg := _build_user_message batch in
  match attempts batch_num user_msg (py_range 0 3) with
  | None => List.map (fun p => update p failed) batch
  | Some result =>
      let m := score_map result in
      List.map (fun ip : Z * post => merge m (fst ip) (snd ip)) (enumerate batch)
  end.

Definition score_opportunities (posts : list post) : outcome (list post) :=
  match posts with
  | [] => Return []
  | _ =>
      let batch_size := 5 in
      Return (fold_left
                (fun scored start =>
                   let batch := slice_batch start batch_size posts in
                   let batch_num := start / batch_size + 1 in
                   (scored ++ score_batch batch_num batch)%list)
                (range_step (Z.of_nat (length posts)) batch_size) [])
  end.

End with_client.

(** *** Keyword refinement *)

Record summary : Type := mkSummary {
  sm_title : string;
  sm_topic : string;
  sm_score : Z
}.

Record refine_msg : Type := mkRefineMsg {
  rm_original_keywords : list string;
  rm_high_scoring_posts : list summary
}.

(** An element met when iterating over the parsed reply: a string, or a
    value without a [lower] method. *)
Inductive json_elem : Type :=
| JStr (s : string)
| JOther.

(** The value of [user_msg] before [json.dumps]. *)
Definition refine_request (original_keywords : list string)
           (high_scoring_posts : list post) : refine_msg :=
  let post_summaries :=
    List.map (fun p => {| sm_title := str_prefix 100 (title p);
                          sm_topic := get (topic_label p) "";
                          sm_score := get (intent_score p) 0 |})
             (firstn 10 high_scoring_posts) in
  {| rm_original_keywords := original_keywords;
     rm_high_scoring_posts := post_summaries |}.

Section with_refiner.

(** [str.lower] *)
Variable lower : string -> string.

(** [refine user_msg] is the sequence obtained by iterating over
    [json.loads(raw)]; every failure of the call, of the parsing or of the
    iteration is an exception. *)
Variable refine : refine_msg -> outcome (list json_elem).

(** [[k for k in new_keywords if k.lower() not in original_lower]] *)
Fixpoint keep_new (original_lower : gset string) (new_keywords : list json_elem)
  : outcome (list string) :=
  match new_keywords with
  | [] => Return []
  | JOther :: _ => Raise AttributeError
  | JStr k :: rest =>
      kept ← keep_new original_lower rest;
      mret (if decide (lower k ∈ original_lower) then kept else k :: kept)
  end.

Definition generate_refined_keywords (original_keywords : list string)
           (high_scoring_posts : list post) : list string :=
  let user_msg := refine_request original_keywords high_scoring_posts in
  try_except
    (new_keywords ← refine user_msg;
     let original_lower : gset string := list_to_set (List.map lower original_keywords) in
     keep_new original_lower new_keywords)
    (fun _ => []).

End with_refiner.

(** [str.lower] restricted to the ASCII letters. *)
Definition ascii_lower_char (c : ascii) : ascii :=
  let n := nat_of_ascii c in
  if ((65 <=? n) && (n <=? 90))%nat then ascii_of_nat (n + 32) else c.

Fixpoint ascii_lower (s : string) : string :=
  match s with
  | EmptyString => EmptyString
  | String c r => String (ascii_lower_char c) (ascii_lower r)
  end.

(** [_parse_response(text)], with [json.loads] as a parameter. *)
Definition _parse_response {A : Type} (json_loads : string -> outcome A) (text : string)
  : outcome A :=
  json_loads (strip_fences text).

End scorer.

(** ** agent.py

    The loop of [main] on replies of the annotated types; [dyn] below is the
    loop on replies of any shape, where the scoring pass and the threshold
    test may raise. *)

Module agent.

Record config : Type := mkConfig {
  keywords : list string;
  subreddits : list string;
  sources : list string;
  min_intent_score : Z;
  max_results : Z;
  max_refinement_iterations : option Z;
  openai_model : string
}.

(** The collaborators of one run.  The first argument of each is the number
    of the iteration in which the call is made. *)
Record world : Type := mkWorld {
  scrape_reddit : Z -> list string -> list string -> outcome (list post);
  scrape_web : Z -> list string -> outcome (list post);
  scoring_service :
    Z -> Z -> Z -> list scorer.request_item -> outcome (option (list scorer.item));
  refinement_service : Z -> scorer.refine_msg -> outcome (list scorer.json_elem)
}.

(** What the loop prints and which collaborator it calls, in order. *)
Inductive event : Type :=
| SearchIteration (iteration : Z)
| Scoring (iteration : Z) (posts : nat)
| Refining (iteration : Z)
| NoNewPosts (iteration : Z)
| ReachedTarget (iteration : Z)
| NoNewKeywords (iteration : Z)
| CompletedAll.

Record state : Type := mkState {
  all_seen_urls : gset string;
  all_qualified : list post;
  total_raw : Z;
  current_keywords : list string;
  trace : list event
}.

Definition say (e : event) (st : state) : state :=
  mkState (all_seen_urls st) (all_qualified st) (total_raw st)
          (current_keywords st) (trace st ++ [e]).

(** [sorted(posts, key=lambda p: p["intent_score"], reverse=True)]: the keys
    are computed first, and a post without the key raises [KeyError]. *)
Definition intent_score_key (p : post) : outcome Z :=
  match intent_score p with
  | Some s => Return s
  | None => Raise KeyError
  end.

Definition sorted_by_intent_score (posts : list post) : outcome (list post) :=
  keys ← mapM intent_score_key posts;
  mret (List.map snd (sort_desc (combine keys posts))).

Section with_world.

Variable lower : string -> string.
Variable w : world.
Variable cfg : config.

Definition max_iterations : Z := get (max_refinement_iterations cfg) 3.

(** [iteration_posts.extend(scrape(...))] inside [try ... except Exception]. *)
Definition extend_with (iteration_posts : list post) (scraped : outcome (list post))
  : list post :=
  try_except (found ← scraped; mret (iteration_posts ++ found)%list)
             (fun _ => iteration_posts).

Definition scrape (iteration : Z) (current : list string) : list post :=
  let iteration_posts := [] in
  let iteration_posts :=
    if bool_decide ("reddit" ∈ sources cfg)
    then extend_with iteration_posts (scrape_reddit w iteration current (subreddits cfg))
    else iteration_posts in
  let iteration_posts :=
    if bool_decide ("web" ∈ sources cfg)
    then extend_with iteration_posts (scrape_web w iteration current)
    else iteration_posts in
  iteration_posts.

(** [new_posts = [p for p in iteration_posts if p["url"] not in all_seen_urls]] *)
Definition new_posts_of (seen : gset string) (iteration_posts : list post) : list post :=
  List.filter (fun p => bool_decide (url p ∉ seen)) iteration_posts.

(** [for p in new_posts: all_seen_urls.add(p["url"])] *)
Definition add_urls (seen : gset string) (new_posts : list post) : gset string :=
  fold_left (fun s p => {[url p]} ∪ s) new_posts seen.

(** The body of the [for] loop; the Boolean tells whether it ended in
    [break]. *)
Definition iteration_body (iteration : Z) (st0 : state) : outcome (state * bool) :=
  let st := say (SearchIteration iteration) st0 in
  let iteration_posts := scrape iteration (current_keywords st) in
  let total := total_raw st + Z.of_nat (length iteration_posts) in
  let new_posts := new_posts_of (all_seen_urls st) iteration_posts in
  let seen := add_urls (all_seen_urls st) new_posts in
  let st := mkState seen (all_qualified st) total (current_keywords st) (trace st) in
  match new_posts with
  | [] => mret (say (NoNewPosts iteration) st, true)
  | _ =>
      let st := say (Scoring iteration (length new_posts)) st in
      scored ← scorer.score_opportunities (scoring_service w iteration) new_posts;
      let new_qualified :=
        List.filter (fun p => get (intent_score p) 0 >=? min_intent_score cfg) scored in
      let st := mkState (all_seen_urls st) (all_qualified st ++ new_qualified)
                        (total_raw st) (current_keywords st) (trace st) in
      if Z.of_nat (length (all_qualified st)) >=? max_results cfg
      then mret (say (ReachedTarget iteration) st, true)
      else if iteration <? max_iterations
      then
        let st := say (Refining iteration) st in
        high_scorers ← sorted_by_intent_score (all_qualified st);
        let new_keywords :=
          scorer.generate_refined_keywords lower (refinement_service w iteration)
                                           (keywords cfg) high_scorers in
        match new_keywords with
        | _ :: _ =>
            mret (mkState (all_seen_urls st) (all_qualified st) (total_raw st)
                          new_keywords (trace st), false)
        | [] => mret (say (NoNewKeywords iteration) st, true)
        end
      else mret (st, false)
  end.

(** [for iteration in range(1, max_iterations + 1): ... else: ...] *)
Fixpoint for_loop (iterations : list Z) (st : state) : outcome state :=
  match iterations with
  | [] => mret (say CompletedAll st)
  | iteration :: rest =>
      '(st', stop) ← iteration_body iteration st;
      if stop : bool then mret st' else for_loop rest st'
  end.

Definition initial : state :=
  mkState ∅ [] 0 (keywords cfg) [].

Definition refinement_loop : outcome state :=
  for_loop (py_range 1 (max_iterations + 1)) initial.

(** What [main] holds after [SORT & TRIM]. *)
Record run : Type := mkRun {
  r_all_qualified : list post;
  r_top : list post;
  r_total_raw : Z;
  r_after_dedup : nat;
  r_trace : list event
}.

Definition sort_and_trim (st : state) : outcome run :=
  sorted ← sorted_by_intent_score (all_qualified st);
  mret {| r_all_qualified := sorted;
          r_top := slice_to (max_results cfg) sorted;
          r_total_raw := total_raw st;
          r_after_dedup := size (all_seen_urls st);
          r_trace := trace st |}.

Definition main : outcome run :=
  st ← refinement_loop;
  sort_and_trim st.

End with_world.

(** The row written by [save_csv] for one post. *)
Record csv_row : Type := mkCsvRow {
  c_source_platform : string;
  c_url : string;
  c_title_snippet : string;
  c_topic_label : string;
  c_intent_score : Z;
  c_recommended_action : string;
  c_suggested_response : string;
  c_why_this_matters : string
}.

Definition save_csv_row (p : post) : csv_row :=
  let title_snippet := strip (title p ++ " " ++ str_prefix 100 (snippet p)) in
  {| c_source_platform := source p;
     c_url := url p;
     c_title_snippet := title_snippet;
     c_topic_label := get (topic_label p) "";
     c_intent_score := get (intent_score p) 0;
     c_recommended_action := get (recommended_action p) "";
     c_suggested_response := get (suggested_response p) "";
     c_why_this_matters := get (why_this_matters p) "" |}.

End agent.

(** ** The scorer and the loop on replies of any shape

    [scorer] and [agent] above take the parsed replies of the scoring
    service as [_parse_response] is annotated.  [json.loads] may return any
    JSON value, and the code checks neither the shape of the reply nor the
    types of the values it copies: the merge of [score_opportunities] and
    the threshold test of [main] are outside every [try].  The module [dyn]
    is the same code on replies that are arbitrary JSON values; a scored
    post then holds arbitrary JSON values under the five scoring keys. *)

Module dyn.

(** A post whose scoring keys hold JSON values: the keys given by the
    scraper, and each of the five scoring keys, absent or with whatever
    value was written. *)
Record jpost : Type := mkJPost {
  j_source : string;
  j_url : string;
  j_title : string;
  j_snippet : string;
  j_subreddit : string;
  j_score : Z;
  j_num_comments : Z;
  j_author : string;
  j_topic_label : option json;
  j_intent_score : option json;
  j_recommended_action : option json;
  j_suggested_response : option json;
  j_why_this_matters : option json
}.

(** The dict passed to [post.update]. *)
Record scores : Type := mkScores {
  v_topic_label : json;
  v_intent_score : json;
  v_recommended_action : json;
  v_suggested_response : json;
  v_why_this_matters : json
}.

(** [post.update(d)]: the five keys are written, over what the post may
    have held under them. *)
Definition update (p : post) (d : scores) : jpost :=
  {| j_source := source p; j_url := url p; j_title := title p; j_snippet := snippet p;
     j_subreddit := subreddit p; j_score := score p; j_num_comments := num_comments p;
     j_author := author p;
     j_topic_label := Some (v_topic_label d);
     j_intent_score := Some (v_intent_score d);
     j_recommended_action := Some (v_recommended_action d);
     j_suggested_response := Some (v_suggested_response d);
     j_why_this_matters := Some (v_why_this_matters d) |}.

(** The dict written on a failed batch. *)
Definition failed : scores :=
  {| v_topic_label := VStr "general_education";
     v_intent_score := VInt 0;
     v_recommended_action := VStr "content";
     v_suggested_response := VStr "";
     v_why_this_matters := VStr "Scoring failed" |}.

(** [all("id" in item for item in result)]: the test stops at the first
    item for which it is false. *)
Fixpoint all_have_id (elements : list json) : outcome bool :=
  match elements with
  | [] => Return true
  | item :: rest =>
      b ← py_in "id" item;
      if b : bool then all_have_id rest else Return false
  end.

(** [score_map]: built from the ids, with the pairs in the order of the
    reply, or from the positions. *)
Inductive score_map : Type :=
| ById (entries : list (json * json))
| ByPosition (elements : list json).

Definition build_score_map (result : json) : outcome score_map :=
  elements ← iterate result;
  has_ids ← all_have_id elements;
  if has_ids : bool
  then
    entries ← mapM (fun item => k ← subscript_as_key item "id"; mret (k, item)) elements;
    mret (ById entries)
  else mret (ByPosition elements).

(** A key of the dict equals the int [i]: as keys, [1], [1.0] and [True]
    are the same. *)
Definition key_is (i : Z) (k : json) : bool :=
  match as_number k with
  | Some f => float_eq f i
  | None => false
  end.

(** [score_map.get(i, {})]: under equal keys the last pair wins. *)
Definition score_map_get (m : score_map) (i : Z) : json :=
  match m with
  | ById entries =>
      match last (List.filter (fun e => key_is i (fst e)) entries) with
      | Some e => snd e
      | None => VDict []
      end
  | ByPosition elements =>
      if 0 <=? i then default (VDict []) (elements !! Z.to_nat i) else VDict []
  end.

(** Body of [for i, post in enumerate(batch)]. *)
Definition merge (m : score_map) (i : Z) (p : post) : outcome jpost :=
  let info := score_map_get m i in
  topic_label ← py_get info "topic_label" (VStr "general_education");
  intent_score ← py_get info "intent_score" (VInt 0);
  recommended_action ← py_get info "recommended_action" (VStr "content");
  suggested_response ← py_get info "suggested_response" (VStr "");
  why_this_matters ← py_get info "why_this_matters" (VStr "");
  mret (update p {| v_topic_label := topic_label;
                    v_intent_score := intent_score;
                    v_recommended_action := recommended_action;
                    v_suggested_response := suggested_response;
                    v_why_this_matters := why_this_matters |}).

Section with_client.

(** [complete batch_num attempt user_msg] is the value of
    [_parse_response(response.choices[0].message.content)] for the request
    made in that attempt, any JSON value; it raises [JSONDecodeError] on
    malformed text and another exception on a transport error. *)
Variable complete : Z -> Z -> list scorer.request_item -> outcome json.

(** [for attempt in range(3): try: ... break except ...: sleep], started
    with [result = None]. *)
Fixpoint attempts (batch_num : Z) (user_msg : list scorer.request_item)
         (tries : list Z) : json :=
  match tries with
  | [] => VNone
  | attempt :: rest =>
      match complete batch_num attempt user_msg with
      | Return result => result
      | Raise JSONDecodeError => attempts batch_num user_msg rest
      | Raise _ => attempts batch_num user_msg rest
      end
  end.

(** The body of the loop over batches once [batch] and [batch_num] are
    computed: the posts it appends to [scored], unless the merge raises. *)
Definition score_batch (batch_num : Z) (batch : list post) : outcome (list jpost) :=
  let user_msg := scorer._build_user_message batch in
  match attempts batch_num user_msg (py_range 0 3) with
  | VNone => Return (List.map (fun p => update p failed) batch)
  | result =>
      m ← build_score_map result;
      mapM (fun ip : Z * post => merge m (fst ip) (snd ip)) (enumerate batch)
  end.

(** The loop over the batches. *)
Fixpoint score_batches (posts : list post) (starts : list Z) (scored : list jpost)
  : outcome (list jpost) :=
  match starts with
  | [] => Return scored
  | start :: rest =>
      let batch_size := 5 in
      let batch := scorer.slice_batch start batch_size posts in
      let batch_num := start / batch_size + 1 in
      new ← score_batch batch_num batch;
      score_batches posts rest (scored ++ new)%list
  end.

Definition score_opportunities (posts : list post) : outcome (list jpost) :=
  match posts with
  | [] => Return []
  | _ =>
      let batch_size := 5 in
      score_batches posts (scorer.range_step (Z.of_nat (length posts)) batch_size) []
  end.

End with_client.

(** *** Keyword refinement *)

Record summary : Type := mkSummary {
  sm_title : string;
  sm_topic : json;
  sm_score : json
}.

Record refine_msg : Type := mkRefineMsg {
  rm_original_keywords : list string;
  rm_high_scoring_posts : list summary
}.

Definition refine_request (original_keywords : list string)
           (high_scoring_posts : list jpost) : refine_msg :=
  let post_summaries :=
    List.map (fun p => {| sm_title := str_prefix 100 (j_title p);
                          sm_topic := get (j_topic_label p) (VStr "");
                          sm_score := get (j_intent_score p) (VInt 0) |})
             (firstn 10 high_scoring_posts) in
  {| rm_original_keywords := original_keywords;
     rm_high_scoring_posts := post_summaries |}.

Definition generate_refined_keywords (lower : string -> string)
           (refine : refine_msg -> outcome (list scorer.json_elem))
           (original_keywords : list string) (high_scoring_posts : list jpost)
  : list string :=
  let user_msg := refine_request original_keywords high_scoring_posts in
  try_except
    (new_keywords ← refine user_msg;
     let original_lower : gset string := list_to_set (List.map lower original_keywords) in
     scorer.keep_new lower original_lower new_keywords)
    (fun _ => []).

(** *** The loop of [main] *)

Record world : Type := mkWorld {
  scrape_reddit : Z -> list string -> list string -> outcome (list post);
  scrape_web : Z -> list string -> outcome (list post);
  scoring_service : Z -> Z -> Z -> list scorer.request_item -> outcome json;
  refinement_service : Z -> refine_msg -> outcome (list scorer.json_elem)
}.

Record state : Type := mkState {
  all_seen_urls : gset string;
  all_qualified : list jpost;
  total_raw : Z;
  current_keywords : list string
}.

(** [[p for p in scored if p.get("intent_score", 0) >= min_score]]: the
    comparison raises [TypeError] on a score that is not a number. *)
Fixpoint qualified (min_score : Z) (scored : list jpost) : outcome (list jpost) :=
  match scored with
  | [] => Return []
  | p :: rest =>
      b ← ge_int (get (j_intent_score p) (VInt 0)) min_score;
      kept ← qualified min_score rest;
      mret (if b : bool then p :: kept else kept)
  end.

(** The key of the sort, [p["intent_score"]]: a post without the key raises
    [KeyError].  In [main] the sorted posts have passed the threshold test,
    so their keys are numbers other than NaN; for any other key the model
    raises, where Python would compare the values. *)
Definition sort_key (p : jpost) : outcome pyfloat :=
  match j_intent_score p with
  | None => Raise KeyError
  | Some v =>
      match as_number v with
      | Some NaN => Raise OtherException
      | Some f => Return f
      | None => Raise TypeError
      end
  end.

(** A stable sort with descending keys, as [insert_desc] and [sort_desc]
    for keys that are numbers. *)
Fixpoint insert_by_key {A : Type} (x : pyfloat * A) (l : list (pyfloat * A))
  : list (pyfloat * A) :=
  match l with
  | [] => [x]
  | y :: r => if float_le (fst y) (fst x) then x :: y :: r else y :: insert_by_key x r
  end.

Fixpoint sort_by_key {A : Type} (l : list (pyfloat * A)) : list (pyfloat * A) :=
  match l with
  | [] => []
  | x :: r => insert_by_key x (sort_by_key r)
  end.

Definition sorted_by_intent_score (posts : list jpost) : outcome (list jpost) :=
  keys ← mapM sort_key posts;
  mret (List.map snd (sort_by_key (combine keys posts))).

Section with_world.

Variable lower : string -> string.
Variable w : world.
Variable cfg : agent.config.

Definition max_iterations : Z := get (agent.max_refinement_iterations cfg) 3.

Definition scrape (iteration : Z) (current : list string) : list post :=
  let iteration_posts := [] in
  let iteration_posts :=
    if bool_decide ("reddit" ∈ agent.sources cfg)
    then agent.extend_with iteration_posts
                           (scrape_reddit w iteration current (agent.subreddits cfg))
    else iteration_posts in
  let iteration_posts :=
    if bool_decide ("web" ∈ agent.sources cfg)
    then agent.extend_with iteration_posts (scrape_web w iteration current)
    else iteration_posts in
  iteration_posts.

(** The body of the [for] loop: what it prints and calls, and either the
    exception that leaves it or the new state with the Boolean that tells
    whether it ended in [break]. *)
Definition iteration_body (iteration : Z) (st : state)
  : list agent.event * outcome (state * bool) :=
  let log := [agent.SearchIteration iteration] in
  let iteration_posts := scrape iteration (current_keywords st) in
  let total := total_raw st + Z.of_nat (length iteration_posts) in
  let new_posts := agent.new_posts_of (all_seen_urls st) iteration_posts in
  let seen := agent.add_urls (all_seen_urls st) new_posts in
  let st := mkState seen (all_qualified st) total (current_keywords st) in
  match new_posts with
  | [] => ((log ++ [agent.NoNewPosts iteration])%list, Return (st, true))
  | _ =>
      let log := (log ++ [agent.Scoring iteration (length new_posts)])%list in
      match score_opportunities (scoring_service w iteration) new_posts with
      | Raise e => (log, Raise e)
      | Return scored =>
          match qualified (agent.min_intent_score cfg) scored with
          | Raise e => (log, Raise e)
          | Return new_qualified =>
              let st := mkState (all_seen_urls st) (all_qualified st ++ new_qualified)
                                (total_raw st) (current_keywords st) in
              if Z.of_nat (length (all_qualified st)) >=? agent.max_results cfg
              then ((log ++ [agent.ReachedTarget iteration])%list, Return (st, true))
              else if iteration <? max_iterations
              then
                let log := (log ++ [agent.Refining iteration])%list in
                match sorted_by_intent_score (all_qualified st) with
                | Raise e => (log, Raise e)
                | Return high_scorers =>
                    let new_keywords :=
                      generate_refined_keywords lower (refinement_service w iteration)
                                                (agent.keywords cfg) high_scorers in
                    match new_keywords with
                    | _ :: _ =>
                        (log, Return (mkState (all_seen_urls st) (all_qualified st)
                                              (total_raw st) new_keywords, false))
                    | [] => ((log ++ [agent.NoNewKeywords iteration])%list, Return (st, true))
                    end
                end
              else (log, Return (st, false))
          end
      end
  end.

(** [for iteration in range(1, max_iterations + 1): ... else: ...] *)
Fixpoint for_loop (iterations : list Z) (st : state) : list agent.event * outcome state :=
  match iterations with
  | [] => ([agent.CompletedAll], Return st)
  | iteration :: rest =>
      match iteration_body iteration st with
      | (log, Raise e) => (log, Raise e)
      | (log, Return (st', true)) => (log, Return st')
      | (log, Return (st', false)) =>
          let continued := for_loop rest st' in
          ((log ++ fst continued)%list, snd continued)
      end
  end.

Definition initial : state := mkState ∅ [] 0 (agent.keywords cfg).

Definition refinement_loop : list agent.event * outcome state :=
  for_loop (py_range 1 (max_iterations + 1)) initial.

(** What [main] holds after [SORT & TRIM]. *)
Record run : Type := mkRun {
  r_all_qualified : list jpost;
  r_top : list jpost;
  r_total_raw : Z;
  r_after_dedup : nat
}.

Definition sort_and_trim (st : state) : outcome run :=
  sorted ← sorted_by_intent_score (all_qualified st);
  mret {| r_all_qualified := sorted;
          r_top := slice_to (agent.max_results cfg) sorted;
          r_total_raw := total_raw st;
          r_after_dedup := size (all_seen_urls st) |}.

Definition main : list agent.event * outcome run :=
  (fst refinement_loop, st ← snd refinement_loop; sort_and_trim st).

End with_world.

End dyn.

(** ** Vocabulary of the statements *)

(** None of the five scoring keys is present. *)
Definition unscored (p : post) : Prop :=
  topic_label p = None /\ intent_score p = None /\ recommended_action p = None /\
  suggested_response p = None /\ why_this_matters p = None.

(** All five scoring keys are present. *)
Definition has_scoring_fields (p : post) : Prop :=
  is_Some (topic_label p) /\ is_Some (intent_score p) /\
  is_Some (recommended_action p) /\ is_Some (suggested_response p) /\
  is_Some (why_this_matters p).

(** The dict written for a post that has a correlated item [info]. *)
Definition scoring_of (info : scorer.item) : scoring :=
  {| s_topic_label := get (scorer.i_topic_label info) "general_education";
     s_intent_score := get (scorer.i_intent_score info) 0;
     s_recommended_action := get (scorer.i_recommended_action info) "content";
     s_suggested_response := get (scorer.i_suggested_response info) "";
     s_why_this_matters := get (scorer.i_why_this_matters info) "" |}.

(** The dict written for a post of an answered batch that has no correlated
    item. *)
Definition uncorrelated : scoring :=
  {| s_topic_label := "general_education";
     s_intent_score := 0;
     s_recommended_action := "content";
     s_suggested_response := "";
     s_why_this_matters := "" |}.

(** The [j]-th batch of five. *)
Definition batch_of {A : Type} (l : list A) (j : nat) : list A :=
  firstn 5 (skipn (5 * j) l).

(** What a loop over the first [k] batches of [l] appends when its body
    appends [F j batch] for batch number [j]. *)
Definition batched {A B : Type} (F : nat -> list A -> list B) (k : nat) (l : list A)
  : list B :=
  concat (List.map (fun j => F j (batch_of l j)) (seq 0 k)).

(** The parsed reply kept for batch number [j] (counted from 0) of [posts],
    after the three attempts. *)
Definition reply_for (complete : Z -> Z -> list scorer.request_item ->
                                 outcome (option (list scorer.item)))
           (posts : list post) (j : nat) : option (list scorer.item) :=
  scorer.attempts complete (Z.of_nat j + 1)
                  (scorer._build_user_message (batch_of posts j)) (py_range 0 3).

(** The item of the reply that belongs to the post at position [r] of its
    batch: the last item whose id is [r] when every item carries an id, the
    item at position [r] otherwise. *)
Definition correlated (result : list scorer.item) (r : nat) : option scorer.item :=
  if scorer.has_ids result
  then last (List.filter
               (fun it => bool_decide (scorer.i_id it = Some (scorer.KInt (Z.of_nat r))))
               result)
  else result !! r.

(** The dict written on the post at position [r] of an answered batch. *)
Definition written (result : list scorer.item) (r : nat) : scoring :=
  match correlated result r with
  | Some info => scoring_of info
  | None => uncorrelated
  end.

(** The post found at position [i] of the scored list when [p] is at
    position [i] of [posts]. *)
Definition scored_post (complete : Z -> Z -> list scorer.request_item ->
                                   outcome (option (list scorer.item)))
           (posts : list post) (i : nat) (p : post) : post :=
  match reply_for complete posts (i / 5) with
  | None => update p scorer.failed
  | Some result => update p (written result (i mod 5))
  end.

(** The sort key of a scored post. *)
Definition score_of (p : post) : Z := get (intent_score p) 0.

(** A post paired with its sort key. *)
Definition decorate (p : post) : Z * post := (score_of p, p).

(** Scores never increase along the list. *)
Definition descending (l : list post) : Prop :=
  StronglySorted (fun p q => score_of q <= score_of p) l.

(** The posts of [l] whose score is [s], in the order of [l]. *)
Definition with_score (s : Z) (l : list post) : list post :=
  List.filter (fun p => score_of p =? s) l.

(** [not l] *)
Definition is_nil {A : Type} (l : list A) : bool :=
  match l with
  | [] => true
  | _ :: _ => false
  end.

(** How an iteration ends.  The four conditions are looked at in this
    order: no new posts, target reached, last allowed iteration, no new
    keywords. *)
Inductive verdict : Type :=
| StopNoNewPosts
| StopReachedTarget
| LastIteration
| StopNoNewKeywords
| Refined.

Definition termination_check
           (no_new_posts reached_target last_iteration no_candidates : bool) : verdict :=
  if no_new_posts then StopNoNewPosts
  else if reached_target then StopReachedTarget
  else if last_iteration then LastIteration
  else if no_candidates then StopNoNewKeywords
  else Refined.

(** What an iteration that ends with verdict [v] prints and calls, when it
    found [n] new posts. *)
Definition events_of (iteration : Z) (n : nat) (v : verdict) : list agent.event :=
  match v with
  | StopNoNewPosts =>
      [agent.SearchIteration iteration; agent.NoNewPosts iteration]
  | StopReachedTarget =>
      [agent.SearchIteration iteration; agent.Scoring iteration n;
       agent.ReachedTarget iteration]
  | LastIteration =>
      [agent.SearchIteration iteration; agent.Scoring iteration n]
  | StopNoNewKeywords =>
      [agent.SearchIteration iteration; agent.Scoring iteration n;
       agent.Refining iteration; agent.NoNewKeywords iteration]
  | Refined =>
      [agent.SearchIteration iteration; agent.Scoring iteration n;
       agent.Refining iteration]
  end.

(** The verdicts that leave the loop by [break]. *)
Definition breaks (v : verdict) : bool :=
  match v with
  | StopNoNewPosts | StopReachedTarget | StopNoNewKeywords => true
  | LastIteration | Refined => false
  end.

Definition is_search (e : agent.event) : bool :=
  match e with agent.SearchIteration _ => true | _ => false end.

Definition is_scoring (e : agent.event) : bool :=
  match e with agent.Scoring _ _ => true | _ => false end.


(** The iteration in which a [break] is announced. *)
Definition stop_of (e : agent.event) : list Z :=
  match e with
  | agent.NoNewPosts i | agent.ReachedTarget i | agent.NoNewKeywords i => [i]
  | _ => []
  end.

(** Number of iterations started, of scoring passes, and the iterations that
    ended in [break], read off the trace of a run. *)
Definition iterations (tr : list agent.event) : nat := length (List.filter is_search tr).
Definition scoring_passes (tr : list agent.event) : nat := length (List.filter is_scoring tr).
Definition stops (tr : list agent.event) : list Z := flat_map stop_of tr.


(** A decorated post carries its own score as key. *)
Definition keyed (a : Z * post) : Prop := fst a = score_of (snd a).

(** Every accumulated post has a score. *)
Definition all_scored (l : list post) : Prop :=
  Forall (fun p => is_Some (intent_score p)) l.

(** The ledger operation as the specification words it: the posts are
    taken in sequence, and each one is checked against the ledger and
    recorded before the next one is looked at. *)
Fixpoint filter_new_in_sequence (seen : gset string) (posts : list post)
  : list post * gset string :=
  match posts with
  | [] => ([], seen)
  | p :: rest =>
      if decide (url p ∈ seen) then filter_new_in_sequence seen rest
      else
        let admitted := filter_new_in_sequence ({[url p]} ∪ seen) rest in
        (p :: fst admitted, snd admitted)
  end.

(** Two strings are equal up to case. *)
Definition same_ignoring_case (lower : string -> string) (a b : string) : Prop :=
  lower a = lower b.

(** Only whitespace. *)
Definition blank (s : string) : bool := forallb is_space (chars s).

(** Continuation bytes only. *)
Fixpoint all_continuation (s : string) : bool :=
  match s with
  | EmptyString => true
  | String c r => is_continuation c && all_continuation r
  end.

(** The bytes of one code point: a byte followed by continuation bytes; a
    [lead] one does not start with a continuation byte. *)
Definition is_char (lead : bool) (t : string) : bool :=
  match t with
  | EmptyString => false
  | String c r => (negb lead || negb (is_continuation c)) && all_continuation r
  end.

(** A list of code points as [chars] produces them. *)
Definition chars_ok (l : list string) : Prop :=
  match l with
  | [] => True
  | t :: ts => is_char false t = true /\ Forall (fun t => is_char true t = true) ts
  end.

(** The line feed occurs in the string. *)
Fixpoint has_newline (s : string) : bool :=
  match s with
  | EmptyString => false
  | String c r => Ascii.eqb c newline || has_newline r
  end.

(** A line that the fence filter drops. *)
Definition is_fence_line (l : string) : bool := startswith (strip l) fence.

(** The posts noted as content ideas, and the posts for which a message is
    requested from the drafting service, with their action and platform. *)
Definition is_content_idea (p : post) : bool :=
  match outreach.classify_outreach_action p with
  | Some a => (a =? "content_idea")%string
  | None => false
  end.

Definition needs_message (p : post) : bool :=
  match outreach.classify_outreach_action p with
  | Some a => negb (a =? "content_idea")%string
  | None => false
  end.

Definition message_entry (p : post) : post * string * string :=
  (p, get (outreach.classify_outreach_action p) "", outreach._detect_platform p).

Definition idea_drafts (posts : list post) : list outreach.draft :=
  List.map (fun p => outreach.content_idea_draft p (outreach._detect_platform p))
           (List.filter is_content_idea posts).

(** The drafts written by the service, unless one of them raises. *)
Definition message_drafts (write : nat -> Z -> outreach.draft_request -> outcome json)
           (posts : list post) : outcome (list outreach.draft) :=
  let entries := List.map message_entry (List.filter needs_message posts) in
  mapM (fun ne : nat * (post * string * string) =>
          outreach.written_draft write (fst ne) (snd ne))
       (combine (seq 0 (length entries)) entries).

(** The draft of a post that needs a message, with the two values obtained
    for it. *)
Definition message_draft (p : post) (message reason : json) : outreach.draft :=
  {| outreach.platform := outreach._detect_platform p;
     outreach.d_url := url p;
     outreach.post_title := title p;
     outreach.action_type := get (outreach.classify_outreach_action p) "";
     outreach.draft_message := message;
     outreach.d_intent_score := get (intent_score p) 0;
     outreach.reason_for_outreach := reason |}.

(** The reply kept for the [n]-th post that needs a message, after the
    three attempts. *)
Definition kept_draft_reply (write : nat -> Z -> outreach.draft_request -> outcome json)
           (n : nat) (p : post) : json :=
  outreach.draft_attempts
    write n
    (outreach.draft_user_msg p (get (outreach.classify_outreach_action p) "")
                             (outreach._detect_platform p))
    (py_range 0 3).

(** A JSON object. *)
Definition is_object (v : json) : bool :=
  match v with
  | VDict _ => true
  | _ => false
  end.

(** The state of a scraper is consistent: the results have pairwise
    different URLs, [seen_urls] holds exactly their URLs, and every result
    satisfies [Q]. *)
Definition consistent (Q : post -> Prop) (acc : scrapers.collected) : Prop :=
  NoDup (List.map url (snd acc)) /\
  (forall u, u ∈ fst acc <-> In u (List.map url (snd acc))) /\
  Forall Q (snd acc).

(** The results of the search made for the keyword at position [k] with the
    template at position [t]. *)
Definition search_results (ddgs : nat -> nat -> Z -> string -> outcome (list scrapers.hit))
           (keywords : list string) (k t : nat) : list scrapers.search_item :=
  match keywords !! k, scrapers.queries_per_keyword !! t with
  | Some kw, Some query_template =>
      scrapers._search (ddgs k t) (scrapers.format query_template kw)
  | _, _ => []
  end.

(** A post built by the web scraper from a result of one of its searches. *)
Definition found_by (ddgs : nat -> nat -> Z -> string -> outcome (list scrapers.hit))
           (keywords : list string) (p : post) : Prop :=
  exists k t item, In item (search_results ddgs keywords k t) /\ p = scrapers.web_post item.

(** The listings read from one subreddit, in the order of the code: one
    search per keyword, then hot, then new. *)
Definition listings_of (keywords : list string) (sr : scrapers.subreddit)
  : list scrapers.listing :=
  (List.map (fun kk : nat * string => scrapers.sr_search sr (fst kk) (snd kk))
            (combine (seq 0 (length keywords)) keywords)
   ++ [scrapers.sr_hot sr; scrapers.sr_new sr])%list.

(** A post built by the Reddit scraper from a submission that is within the
    last days, read from a listing of a subreddit that could be opened. *)
Definition found_on (reddit_subreddit : nat -> string -> outcome scrapers.subreddit)
           (keywords subreddits : list string) (p : post) : Prop :=
  exists n name sr l sub,
    subreddits !! n = Some name /\ reddit_subreddit n name = Return sr /\
    In l (listings_of keywords sr) /\ In (sub, true) l /\
    p = scrapers._submission_to_dict sub.

(** Sample searches: every query returns the same two results, after a
    first attempt that fails. *)
Definition sample_ddgs : nat -> nat -> Z -> string -> outcome (list scrapers.hit) :=
  fun _ _ attempt _ =>
    if attempt =? 0 then Raise OtherException
    else Return [scrapers.mkHit "https://www.quora.com/q1" "Q1" (Some "body");
                 scrapers.mkHit "https://x.com/u/1" "T1" None].

(** A sample subreddit whose hot listing repeats a post of its search. *)
Definition sample_submission : scrapers.submission :=
  scrapers.mkSubmission "/r/GRE/comments/abc/need_help/" "Need GRE help"
                        (Some "How do I start?") "GRE" 12 4 "student1".

Definition sample_subreddit : scrapers.subreddit :=
  scrapers.mkSubreddit (fun _ _ => [(sample_submission, true)])
                       [(sample_submission, true)] [].

Definition sample_environ : gmap string string :=
  <["REDDIT_CLIENT_ID" := "id"]>
    (<["REDDIT_CLIENT_SECRET" := "secret"]>
       (<["REDDIT_USERNAME" := "user"]> (<["REDDIT_PASSWORD" := "your_password"]> ∅))).

(** What the loop keeps true of its state: every accumulated post has the
    five scoring keys, reaches the threshold and has its URL in the ledger;
    the ledger and the accumulated list are no larger than the count of
    scraped posts. *)
Definition sound_state (cfg : agent.config) (st : agent.state) : Prop :=
  Forall (fun p => has_scoring_fields p /\ agent.min_intent_score cfg <= score_of p /\
                   url p ∈ agent.all_seen_urls st) (agent.all_qualified st) /\
  Z.of_nat (size (agent.all_seen_urls st)) <= agent.total_raw st /\
  Z.of_nat (length (agent.all_qualified st)) <= agent.total_raw st.

(** The world in which a scraper that raises returns the empty list
    instead. *)
Definition forgiving (w : agent.world) : agent.world :=
  agent.mkWorld
    (fun iteration kws subs =>
       match agent.scrape_reddit w iteration kws subs with
       | Raise _ => Return []
       | found => found
       end)
    (fun iteration kws =>
       match agent.scrape_web w iteration kws with
       | Raise _ => Return []
       | found => found
       end)
    (agent.scoring_service w)
    (agent.refinement_service w).



(** A scraper call that contributes nothing: it returns the empty list or
    raises. *)
Definition silent (found : outcome (list post)) : Prop :=
  found = Return [] \/ exists e, found = Raise e.

(** *** Replies of any shape *)

(** [v is None] *)
Definition is_none (v : json) : bool :=
  match v with
  | VNone => true
  | _ => false
  end.

(** The reply kept for batch number [j] (counted from 0) of [posts], after
    the three attempts; [None] when none was kept. *)
Definition kept_reply (complete : Z -> Z -> list scorer.request_item -> outcome json)
           (posts : list post) (j : nat) : json :=
  dyn.attempts complete (Z.of_nat j + 1)
               (scorer._build_user_message (batch_of posts j)) (py_range 0 3).

(** A value that can be the key of a dict. *)
Definition hashable (v : json) : bool :=
  match v with
  | VList _ | VDict _ => false
  | _ => true
  end.

(** An object whose id, if it has one, can be the key of a dict. *)
Definition usable_item (item : json) : bool :=
  match item with
  | VDict items =>
      match dict_get items "id" with
      | Some k => hashable k
      | None => true
      end
  | _ => false
  end.

(** A reply as the merge expects it: [None], or a list of such objects. *)
Definition usable (v : json) : bool :=
  match v with
  | VNone => true
  | VList elements => forallb usable_item elements
  | _ => false
  end.

(** An object with an id, and its id. *)
Definition has_id (item : json) : bool :=
  match item with
  | VDict items =>
      match dict_get items "id" with
      | Some _ => true
      | None => false
      end
  | _ => false
  end.

Definition id_of (item : json) : json :=
  match item with
  | VDict items => default VNone (dict_get items "id")
  | _ => VNone
  end.

(** The element of the reply that belongs to the post at position [r] of
    its batch: the last one whose id equals [r] when every element is an
    object with an id, the element at position [r] otherwise. *)
Definition correlated_element (elements : list json) (r : nat) : option json :=
  if forallb has_id elements
  then last (List.filter (fun it => dyn.key_is (Z.of_nat r) (id_of it)) elements)
  else elements !! r.

(** The dict written from the items of an object: every key with its
    default. *)
Definition scores_of (items : list (string * json)) : dyn.scores :=
  {| dyn.v_topic_label := default (VStr "general_education") (dict_get items "topic_label");
     dyn.v_intent_score := default (VInt 0) (dict_get items "intent_score");
     dyn.v_recommended_action := default (VStr "content") (dict_get items "recommended_action");
     dyn.v_suggested_response := default (VStr "") (dict_get items "suggested_response");
     dyn.v_why_this_matters := default (VStr "") (dict_get items "why_this_matters") |}.

(** What iterating over a value meets; nothing when it cannot be iterated
    over. *)
Definition elements_of (v : json) : list json :=
  match iterate v with
  | Return elements => elements
  | Raise _ => []
  end.

(** The dict written on the post at position [r] of a batch whose kept
    reply is [v], when the merge does not raise. *)
Definition written_scores (v : json) (r : nat) : dyn.scores :=
  if is_none v then dyn.failed
  else match correlated_element (elements_of v) r with
       | Some (VDict items) => scores_of items
       | _ => scores_of []
       end.

(** What batch number [j] appends to [scored], when the merge does not
    raise. *)
Definition batch_value (complete : Z -> Z -> list scorer.request_item -> outcome json)
           (j : nat) (b : list post) : list dyn.jpost :=
  match dyn.score_batch complete (Z.of_nat j + 1) b with
  | Return l => l
  | Raise _ => List.map (fun p => dyn.update p dyn.failed) b
  end.

(** The value of [intent_score] in an object of the reply is a number. *)
Definition numeric_score (item : json) : bool :=
  match item with
  | VDict items =>
      match dict_get items "intent_score" with
      | Some s => match as_number s with Some _ => true | None => false end
      | None => true
      end
  | _ => true
  end.

(** A reply as the prompt asks for it, as far as the loop depends on it:
    [None], or a list of objects with hashable ids and numeric scores. *)
Definition well_formed (v : json) : bool :=
  usable v && forallb numeric_score (elements_of v).

(** The scoring service of a world gives well-formed replies only. *)
Definition well_formed_replies (w : dyn.world) : Prop :=
  forall iteration batch_num attempt user_msg v,
    dyn.scoring_service w iteration batch_num attempt user_msg = Return v ->
    well_formed v = true.

(** All five scoring keys are present. *)
Definition carries_scores (p : dyn.jpost) : Prop :=
  is_Some (dyn.j_topic_label p) /\ is_Some (dyn.j_intent_score p) /\
  is_Some (dyn.j_recommended_action p) /\ is_Some (dyn.j_suggested_response p) /\
  is_Some (dyn.j_why_this_matters p).

(** The post has a score, a number that reaches the threshold. *)
Definition reaches (min_score : Z) (p : dyn.jpost) : Prop :=
  exists v f, dyn.j_intent_score p = Some v /\ as_number v = Some f /\
              float_ge f min_score = true.

(** The post passes the threshold test. *)
Definition passes (min_score : Z) (p : dyn.jpost) : bool :=
  match ge_int (get (dyn.j_intent_score p) (VInt 0)) min_score with
  | Return b => b
  | Raise _ => false
  end.

(** The post has a score, which is a number. *)
Definition numeric (p : dyn.jpost) : Prop :=
  exists v, dyn.j_intent_score p = Some v /\ is_Some (as_number v).

(** The scrapers of a world are [scrape_reddit] and [scrape_web]: what a
    call returns is what these return for some behaviour of praw and of the
    search engine. *)
Definition scrapers_as_modelled (w : dyn.world) : Prop :=
  (forall iteration keywords subreddits found,
      dyn.scrape_reddit w iteration keywords subreddits = Return found ->
      exists environ reddit_subreddit,
        found = scrapers.scrape_reddit environ reddit_subreddit keywords subreddits) /\
  (forall iteration keywords found,
      dyn.scrape_web w iteration keywords = Return found ->
      exists ddgs, found = scrapers.scrape_web ddgs keywords).

(** The posts handed to [score_opportunities] in an iteration started in
    state [st]. *)
Definition posts_to_score (w : dyn.world) (cfg : agent.config) (iteration : Z)
           (st : dyn.state) : list post :=
  agent.new_posts_of (dyn.all_seen_urls st)
                     (dyn.scrape w cfg iteration (dyn.current_keywords st)).

(** *** Replies of the annotated types as JSON values *)

Definition json_of_key (k : scorer.py_key) : json :=
  match k with
  | scorer.KInt z => VInt z
  | scorer.KStr s => VStr s
  end.

(** The item of a dict for a key that may be absent. *)
Definition member {A : Type} (key : string) (to_json : A -> json) (field : option A)
  : list (string * json) :=
  match field with
  | Some x => [(key, to_json x)]
  | None => []
  end.

Definition json_of_item (it : scorer.item) : json :=
  VDict (member "id" json_of_key (scorer.i_id it) ++
         member "topic_label" VStr (scorer.i_topic_label it) ++
         member "intent_score" VInt (scorer.i_intent_score it) ++
         member "recommended_action" VStr (scorer.i_recommended_action it) ++
         member "suggested_response" VStr (scorer.i_suggested_response it) ++
         member "why_this_matters" VStr (scorer.i_why_this_matters it))%list.

Definition json_of_reply (r : option (list scorer.item)) : json :=
  match r with
  | None => VNone
  | Some result => VList (List.map json_of_item result)
  end.

(** A scoring service with replies of the annotated types, seen as one with
    JSON replies. *)
Definition as_json (complete : Z -> Z -> list scorer.request_item ->
                               outcome (option (list scorer.item)))
  : Z -> Z -> list scorer.request_item -> outcome json :=
  fun batch_num attempt user_msg =>
    r ← complete batch_num attempt user_msg; mret (json_of_reply r).

Definition json_of_scoring (d : scoring) : dyn.scores :=
  {| dyn.v_topic_label := VStr (s_topic_label d);
     dyn.v_intent_score := VInt (s_intent_score d);
     dyn.v_recommended_action := VStr (s_recommended_action d);
     dyn.v_suggested_response := VStr (s_suggested_response d);
     dyn.v_why_this_matters := VStr (s_why_this_matters d) |}.

(** A post with typed values, seen as one with JSON values. *)
Definition to_jpost (p : post) : dyn.jpost :=
  {| dyn.j_source := source p; dyn.j_url := url p; dyn.j_title := title p;
     dyn.j_snippet := snippet p; dyn.j_subreddit := subreddit p; dyn.j_score := score p;
     dyn.j_num_comments := num_comments p; dyn.j_author := author p;
     dyn.j_topic_label := VStr <$> topic_label p;
     dyn.j_intent_score := VInt <$> intent_score p;
     dyn.j_recommended_action := VStr <$> recommended_action p;
     dyn.j_suggested_response := VStr <$> suggested_response p;
     dyn.j_why_this_matters := VStr <$> why_this_matters p |}.

(** The request to the refiner, read with the annotated types. *)
Definition typed_refine_msg (msg : dyn.refine_msg) : scorer.refine_msg :=
  {| scorer.rm_original_keywords := dyn.rm_original_keywords msg;
     scorer.rm_high_scoring_posts :=
       List.map (fun sm => {| scorer.sm_title := dyn.sm_title sm;
                              scorer.sm_topic := match dyn.sm_topic sm with
                                                 | VStr t => t
                                                 | _ => ""
                                                 end;
                              scorer.sm_score := match dyn.sm_score sm with
                                                 | VInt z => z
                                                 | _ => 0
                                                 end |})
                (dyn.rm_high_scoring_posts msg) |}.

(** A world with replies of the annotated types, seen as one with JSON
    replies, and its states. *)
Definition as_dyn_world (w : agent.world) : dyn.world :=
  dyn.mkWorld (agent.scrape_reddit w) (agent.scrape_web w)
              (fun iteration => as_json (agent.scoring_service w iteration))
              (fun iteration msg => agent.refinement_service w iteration (typed_refine_msg msg)).

Definition as_dyn_run (r : agent.run) : dyn.run :=
  dyn.mkRun (List.map to_jpost (agent.r_all_qualified r)) (List.map to_jpost (agent.r_top r))
            (agent.r_total_raw r) (agent.r_after_dedup r).

Definition as_dyn_state (st : agent.state) : dyn.state :=
  dyn.mkState (agent.all_seen_urls st) (List.map to_jpost (agent.all_qualified st))
              (agent.total_raw st) (agent.current_keywords st).

(** ** Sample data *)

Definition gre_post : post :=
  scrapers._submission_to_dict
    (scrapers.mkSubmission "/r/GRE/comments/abc/need_help/" "Need GRE help"
                           (Some "How do I start?") "GRE" 12 4 "student1").

Definition toefl_post : post :=
  scrapers.web_post
    (scrapers.mkSearchItem "https://www.quora.com/How-to-prepare-for-TOEFL"
                           "How to prepare for TOEFL" "Any tips?").

(** The same thread as [gre_post], found by the web search. *)
Definition gre_post_from_web : post :=
  scrapers.web_post
    (scrapers.mkSearchItem "https://reddit.com/r/GRE/comments/abc/need_help/"
                           "Need GRE help : r/GRE" "How do I start?").

Definition answer (id : option scorer.py_key) (s : Z) : scorer.item :=
  scorer.mkItem id (Some "GRE") (Some s) (Some "DM") (Some "Happy to help")
                (Some "Asks for help").

(** A scoring service that is down. *)
Definition service_down : Z -> Z -> list scorer.request_item ->
                          outcome (option (list scorer.item)) :=
  fun _ _ _ => Raise OtherException.


(** A scoring service that answers every post of the batch with the score
    [s], after one malformed reply. *)
Definition service_constant (s : Z) : Z -> Z -> list scorer.request_item ->
                                      outcome (option (list scorer.item)) :=
  fun _ attempt msg =>
    if attempt =? 0 then Raise JSONDecodeError
    else Return (Some (List.map (fun rq => answer (Some (scorer.KInt (scorer.rq_id rq))) s) msg)).

(** Both scrapers find the same thread in the first iteration. *)
Definition duplicate_world : agent.world :=
  agent.mkWorld (fun _ _ _ => Return [gre_post])
                (fun _ _ => Return [gre_post_from_web])
                (fun _ => service_constant 90)
                (fun _ _ => Raise OtherException).

Definition duplicate_config : agent.config :=
  agent.mkConfig ["GRE prep"] ["GRE"] ["reddit"; "web"] 60 5 (Some 1) "gpt-4o-mini".

(** The scrapers find two posts once and nothing new afterwards. *)
Definition quiet_world : agent.world :=
  agent.mkWorld (fun iteration _ _ => if iteration =? 1 then Return [gre_post] else Return [])
                (fun _ _ => Return [toefl_post])
                (fun _ => service_constant 90)
                (fun _ _ => Return [scorer.JStr "GRE tutoring"]).

Definition quiet_config : agent.config :=
  agent.mkConfig ["GRE prep"] ["GRE"] ["reddit"; "web"] 60 5 (Some 3) "gpt-4o-mini".

(** A scored post that calls for a direct message, and a drafting service
    that is down. *)
Definition dm_post : post :=
  update gre_post (mkScoring "GRE" 90 "DM" "Happy to help" "Asks for help").

(** A scored post noted as a content idea. *)
Definition content_post : post :=
  update toefl_post (mkScoring "TOEFL" 65 "content" "" "Many ask this").

Definition drafter_down : nat -> Z -> outreach.draft_request -> outcome json :=
  fun _ _ _ => Raise OtherException.

(** A world without any post, and a world whose web scraper is the modelled
    [scrape_web] over the sample searches. *)
Definition empty_world : agent.world :=
  agent.mkWorld (fun _ _ _ => Raise OtherException) (fun _ _ => Return [])
                (fun _ => service_down) (fun _ _ => Raise OtherException).


Definition web_config : agent.config :=
  agent.mkConfig ["GRE prep"] [] ["web"] 60 5 (Some 2) "gpt-4o-mini".


(** An object of a reply, with the id and the score given. *)
Definition answer_object (id score : json) : json :=
  VDict [("id", id); ("topic_label", VStr "GRE"); ("intent_score", score);
         ("recommended_action", VStr "DM"); ("suggested_response", VStr "Happy to help");
         ("why_this_matters", VStr "Asks for help")].

(** A scoring service that answers every post of the batch with the value
    [score], after one malformed reply. *)
Definition service_answering (score : json)
  : Z -> Z -> list scorer.request_item -> outcome json :=
  fun _ attempt msg =>
    if attempt =? 0 then Raise JSONDecodeError
    else Return (VList (List.map (fun rq => answer_object (VInt (scorer.rq_id rq)) score) msg)).




(** The world of [quiet_world] with replies as JSON values, and the same
    world with a service that gives every score as a string. *)
Definition world_answering (score : json) : dyn.world :=
  dyn.mkWorld (fun iteration _ _ => if iteration =? 1 then Return [gre_post] else Return [])
              (fun _ _ => Return [toefl_post])
              (fun _ => service_answering score)
              (fun _ _ => Return [scorer.JStr "GRE tutoring"]).

(** A world whose scrapers are the modelled ones. *)
Definition scraping_world : dyn.world :=
  dyn.mkWorld (fun _ kws subs =>
                 Return (scrapers.scrape_reddit sample_environ
                                                (fun _ _ => Return sample_subreddit) kws subs))
              (fun _ kws => Return (scrapers.scrape_web sample_ddgs kws))
              (fun _ => service_answering (VInt 90))
              (fun _ _ => Return [scorer.JStr "GRE tutoring"]).

(** ** The outreach classifier *)

Section classifier.

Import outreach.

Lemma classify_outreach_action_rules (p : post) :
  classify_spec (get (intent_score p) 0) (get (recommended_action p) "")
                (classify_outreach_action p).
Proof.
  unfold classify_outreach_action, DM_MIN_SCORE, COMMENT_MIN_SCORE,
    CONTENT_NOTE_MIN_SCORE.
  set (sc := get (intent_score p) 0). set (a := get (recommended_action p) "").
  destruct (String.eqb_spec a "DM") as [Hdm | Hdm];
    destruct (String.eqb_spec a "comment") as [Hco | Hco];
    destruct (String.eqb_spec a "content") as [Hct | Hct];
    destruct (Z.geb_spec sc 80); destruct (Z.geb_spec sc 70);
    destruct (Z.geb_spec sc 60); simpl;
    try (exfalso; congruence); try lia;
    first [ apply tier_dm; [lia | assumption]
          | apply tier_comment; [lia | assumption]
          | apply tier_content; [lia | assumption]
          | apply tier_none; intros [? ?]; first [lia | congruence] ].
Qed.

Lemma classify_spec_functional (sc : Z) (a : string) (t t' : option string) :
  classify_spec sc a t -> classify_spec sc a t' -> t = t'.
Proof.
  intros H H'.
  destruct H; destruct H'; subst; try reflexivity; try discriminate;
    exfalso; auto.
Qed.

(** C7: the classifier depends on the post only through [intent_score] and
    [recommended_action], and it computes the rule table: score at least 80
    with action DM is [dm], at least 70 with comment is [comment], at least
    60 with content is [content_idea], anything else is [None]. *)
Theorem classify_outreach_action_table :
  (forall p, classify_spec (get (intent_score p) 0) (get (recommended_action p) "")
                           (classify_outreach_action p)) /\
  (forall p sc a t,
      intent_score p = Some sc -> recommended_action p = Some a ->
      classify_spec sc a t -> classify_outreach_action p = t) /\
  (forall p q,
      get (intent_score p) 0 = get (intent_score q) 0 ->
      get (recommended_action p) "" = get (recommended_action q) "" ->
      classify_outreach_action p = classify_outreach_action q) /\
  (forall p t r y, classify_outreach_action (update p (mkScoring t 85 "DM" r y)) = Some "dm") /\
  (forall p t r y, classify_outreach_action (update p (mkScoring t 65 "comment" r y)) = None) /\
  (forall p t r y,
      classify_outreach_action (update p (mkScoring t 60 "content" r y)) = Some "content_idea") /\
  (forall p t r y, classify_outreach_action (update p (mkScoring t 59 "content" r y)) = None).
Proof.
  split; [exact classify_outreach_action_rules |].
  split.
  { intros p sc a t Hs Ha Ht.
    pose proof (classify_outreach_action_rules p) as Hp.
    rewrite Hs, Ha in Hp. simpl in Hp.
    exact (classify_spec_functional _ _ _ _ Hp Ht). }
  split.
  { intros p q Hs Ha. unfold classify_outreach_action. rewrite Hs, Ha. reflexivity. }
  repeat split; intros; reflexivity.
Qed.

Lemma classify_outreach_action_table_witness :
  classify_outreach_action
    (mkPost "reddit" "https://reddit.com/r/GRE/1" "Need GRE help" "" "GRE" 3 1 "u"
            (Some "GRE") (Some 92) (Some "DM") (Some "") (Some "")) = Some "dm".
Proof.
  apply (proj1 (proj2 classify_outreach_action_table)) with (sc := 92) (a := "DM");
    [reflexivity | reflexivity | apply tier_dm; [lia | reflexivity]].
Defined.

(** C10: the action is compared with the exact strings "DM", "comment" and
    "content"; with any other string, such as "dm" or "Comment", the result
    is [None] whatever the score. *)
Theorem classify_outreach_action_case_sensitive :
  (forall p,
      get (recommended_action p) "" <> "DM" ->
      get (recommended_action p) "" <> "comment" ->
      get (recommended_action p) "" <> "content" ->
      classify_outreach_action p = None) /\
  (forall p t s r y, classify_outreach_action (update p (mkScoring t s "dm" r y)) = None) /\
  (forall p t s r y, classify_outreach_action (update p (mkScoring t s "Comment" r y)) = None) /\
  (forall p t s r y, classify_outreach_action (update p (mkScoring t s "CONTENT" r y)) = None).
Proof.
  assert (Hgen : forall p,
      get (recommended_action p) "" <> "DM" ->
      get (recommended_action p) "" <> "comment" ->
      get (recommended_action p) "" <> "content" ->
      classify_outreach_action p = None).
  { intros p Hdm Hco Hct. unfold classify_outreach_action.
    apply String.eqb_neq in Hdm, Hco, Hct.
    rewrite Hdm, Hco, Hct, !andb_false_r. reflexivity. }
  split; [exact Hgen |].
  repeat split; intros; apply Hgen; simpl; discriminate.
Qed.

Lemma classify_outreach_action_case_sensitive_witness :
  classify_outreach_action
    (mkPost "reddit" "https://reddit.com/r/GRE/1" "Need GRE help" "" "GRE" 3 1 "u"
            (Some "GRE") (Some 100) (Some "dm") (Some "") (Some "")) = None.
Proof.
  apply (proj1 classify_outreach_action_case_sensitive); simpl; discriminate.
Defined.

End classifier.

(** ** Computations that may raise *)

Section outcome_facts.

Context {A B : Type}.

Lemma mapM_cons (f : A -> outcome B) (x : A) (l : list A) :
  mapM f (x :: l) = (y ← f x; k ← mapM f l; mret (y :: k)).
Proof. reflexivity. Qed.

(** A traversal that returns has returned on every element. *)
Lemma mapM_return (f : A -> outcome B) (l : list A) (ys : list B) :
  mapM f l = Return ys ->
  length ys = length l /\
  forall i x, l !! i = Some x -> exists y, ys !! i = Some y /\ f x = Return y.
Proof.
  revert ys. induction l as [| x l IH]; intros ys H.
  - inversion H. split; [reflexivity | intros i x Hx; discriminate].
  - rewrite mapM_cons in H. destruct (f x) as [e | y] eqn:Hy; [discriminate |].
    cbn [mbind outcome_bind] in H.
    destruct (mapM f l) as [e | k] eqn:Hk; [discriminate |].
    inversion H; subst ys. destruct (IH k eq_refl) as [Hlen Hget].
    split; [cbn; now rewrite Hlen |].
    intros [| i] x' Hx'; cbn in Hx' |- *.
    + inversion Hx'; subst. now exists y.
    + now apply Hget.
Qed.

(** A traversal returns when its function returns on every element. *)
Lemma mapM_total (f : A -> outcome B) (g : A -> B) (l : list A) :
  (forall x, In x l -> f x = Return (g x)) -> mapM f l = Return (List.map g l).
Proof.
  induction l as [| x l IH]; intros H; [reflexivity |].
  rewrite mapM_cons, (H x (or_introl eq_refl)), IH by (intros; apply H; now right).
  reflexivity.
Qed.

(** A traversal raises what its function raised on some element. *)
Lemma mapM_raise (f : A -> outcome B) (l : list A) (e : exn) :
  mapM f l = Raise e -> exists i x, l !! i = Some x /\ f x = Raise e.
Proof.
  induction l as [| x l IH]; intros H; [discriminate |].
  rewrite mapM_cons in H. destruct (f x) as [e' | y] eqn:Hy.
  - inversion H; subst. now exists 0%nat, x.
  - cbn [mbind outcome_bind] in H.
    destruct (mapM f l) as [e' | k] eqn:Hk; [| discriminate].
    inversion H; subst. destruct (IH eq_refl) as (i & x' & Hx' & He).
    now exists (S i), x'.
Qed.

Lemma mapM_raises (f : A -> outcome B) (l : list A) (x : A) (e : exn) :
  In x l -> f x = Raise e -> exists e', mapM f l = Raise e'.
Proof.
  induction l as [| x' l IH]; intros Hin He; [destruct Hin |].
  rewrite mapM_cons. destruct Hin as [-> | Hin].
  - rewrite He. now exists e.
  - destruct (f x') as [e' | y]; [now exists e' |].
    destruct (IH Hin He) as [e' ->]. now exists e'.
Qed.

End outcome_facts.

(** ** Lists cut into batches *)

Section batches.

Local Open Scope nat_scope.

Context {A B : Type}.

Lemma fold_left_append (f : Z -> list B) (l : list Z) (init : list B) :
  fold_left (fun acc s => (acc ++ f s)%list) l init = (init ++ concat (List.map f l))%list.
Proof.
  revert init. induction l as [| s l IH]; intros init; simpl.
  - now rewrite app_nil_r.
  - rewrite IH. now rewrite <- app_assoc.
Qed.

Lemma batch_of_tail (l : list A) (j : nat) :
  batch_of (skipn 5 l) j = batch_of l (S j).
Proof.
  unfold batch_of. rewrite skipn_skipn. f_equal. f_equal. lia.
Qed.

Lemma batch_of_lookup (l : list A) (i : nat) :
  batch_of l (i / 5) !! (i mod 5) = l !! i.
Proof.
  unfold batch_of.
  pose proof (Nat.mod_upper_bound i 5 ltac:(lia)) as Hlt.
  rewrite lookup_take_lt by assumption.
  rewrite lookup_drop. f_equal.
  pose proof (Nat.div_mod_eq i 5). lia.
Qed.

Lemma batched_step (G : nat -> list A -> list B) (k : nat) (l : list A) :
  batched G (S k) l =
  (G 0 (firstn 5 l) ++ batched (fun j => G (S j)) k (skipn 5 l))%list.
Proof.
  unfold batched. cbn [seq List.map concat].
  f_equal. rewrite <- seq_shift, List.map_map. f_equal.
  apply List.map_ext. intros j. now rewrite batch_of_tail.
Qed.

Lemma batched_spec (G : nat -> list A -> list B) (k : nat) (l : list A) :
  (forall j b, length (G j b) = length b) ->
  length l <= 5 * k ->
  length (batched G k l) = length l /\
  (forall i, i < length l ->
             batched G k l !! i = G (i / 5) (batch_of l (i / 5)) !! (i mod 5)).
Proof.
  revert G l. induction k as [| k IH]; intros G l HG Hlen.
  - destruct l; simpl in Hlen; [| lia]. split; [reflexivity | simpl; lia].
  - rewrite batched_step.
    destruct (IH (fun j => G (S j)) (skipn 5 l)) as [IHlen IHget].
    { intros; apply HG. }
    { rewrite length_skipn. lia. }
    split.
    + rewrite length_app, HG, IHlen, length_firstn, length_skipn. lia.
    + intros i Hi. destruct (Nat.lt_ge_cases i 5) as [Hlt | Hge].
      * rewrite lookup_app_l by (rewrite HG, length_firstn; lia).
        rewrite Nat.div_small, Nat.mod_small by assumption.
        reflexivity.
      * rewrite lookup_app_r by (rewrite HG, length_firstn; lia).
        rewrite HG, length_firstn, Nat.min_l by lia.
        rewrite IHget by (rewrite length_skipn; lia).
        replace i with ((i - 5) + 1 * 5) at 4 5 6 by lia.
        rewrite Nat.div_add, Nat.Div0.mod_add by lia.
        rewrite batch_of_tail. now rewrite Nat.add_1_r.
Qed.

End batches.

(** ** The intent scorer *)

Section scorer_facts.

Import scorer.

Lemma map_lookup {A B : Type} (f : A -> B) (l : list A) (i : nat) :
  List.map f l !! i = f <$> (l !! i).
Proof. exact (list_lookup_fmap f l i). Qed.

Lemma enumerate_from_lookup {A : Type} (l : list A) (s r : nat) (x : A) :
  l !! r = Some x ->
  combine (List.map Z.of_nat (seq s (length l))) l !! r = Some (Z.of_nat (s + r), x).
Proof.
  revert s r. induction l as [| y l IH]; intros s r H; [discriminate |].
  destruct r as [| r]; simpl in *.
  - inversion H. now rewrite Nat.add_0_r.
  - rewrite (IH (S s) r H). do 3 f_equal. lia.
Qed.

Lemma enumerate_lookup {A : Type} (l : list A) (r : nat) (x : A) :
  l !! r = Some x -> enumerate l !! r = Some (Z.of_nat r, x).
Proof. intros H. exact (enumerate_from_lookup l 0 r x H). Qed.

Lemma enumerate_length {A : Type} (l : list A) : length (enumerate l) = length l.
Proof.
  unfold enumerate. rewrite length_combine, length_map, length_seq. lia.
Qed.

(** *** The dict built from the reply *)

Lemma by_id_from (result : list item) (m : gmap py_key item) (k : py_key) :
  fold_left (fun m it => match i_id it with
                         | Some k => <[k := it]> m
                         | None => m
                         end) result m !! k =
  match last (List.filter (fun it => bool_decide (i_id it = Some k)) result) with
  | Some it => Some it
  | None => m !! k
  end.
Proof.
  revert m. induction result as [| it result IH]; intros m; [reflexivity |].
  cbn [fold_left List.filter]. rewrite IH.
  destruct (bool_decide_reflect (i_id it = Some k)) as [Hk | Hk].
  - rewrite last_cons.
    destruct (last (List.filter _ result)); [reflexivity |].
    rewrite Hk. now rewrite lookup_insert_eq.
  - destruct (last (List.filter _ result)); [reflexivity |].
    destruct (i_id it) as [k' |]; [| reflexivity].
    rewrite lookup_insert_ne; [reflexivity | congruence].
Qed.

Lemma by_id_lookup (result : list item) (k : py_key) :
  by_id result !! k =
  last (List.filter (fun it => bool_decide (i_id it = Some k)) result).
Proof.
  unfold by_id. rewrite by_id_from, lookup_empty.
  now destruct (last _).
Qed.

Lemma by_position_from (result : list item) (s : nat) (m : gmap py_key item) (r : nat) :
  fold_left (fun m (ii : Z * item) => <[KInt (fst ii) := snd ii]> m)
            (combine (List.map Z.of_nat (seq s (length result))) result) m
    !! KInt (Z.of_nat r) =
  if decide (s <= r)%nat
  then match result !! (r - s)%nat with
       | Some it => Some it
       | None => m !! KInt (Z.of_nat r)
       end
  else m !! KInt (Z.of_nat r).
Proof.
  revert s m. induction result as [| it result IH]; intros s m.
  - simpl. now destruct (decide _).
  - cbn [length seq List.map combine fold_left fst snd]. rewrite IH.
    destruct (decide (S s <= r)%nat) as [Hlt | Hge].
    + rewrite decide_True by lia.
      replace (r - s)%nat with (S (r - S s)) by lia. simpl.
      destruct (result !! (r - S s)%nat); [reflexivity |].
      rewrite lookup_insert_ne; [reflexivity |].
      intros Heq. inversion Heq. lia.
    + destruct (decide (s <= r)%nat) as [Hle | Hnle].
      * assert (r = s) by lia. subst r. rewrite Nat.sub_diag. simpl.
        now rewrite lookup_insert_eq.
      * rewrite lookup_insert_ne; [reflexivity |].
        intros Heq. inversion Heq. lia.
Qed.

Lemma by_position_lookup (result : list item) (r : nat) :
  by_position result !! KInt (Z.of_nat r) = result !! r.
Proof.
  unfold by_position, enumerate. rewrite by_position_from.
  rewrite decide_True by lia. rewrite Nat.sub_0_r, lookup_empty.
  now destruct (result !! r).
Qed.

Lemma score_map_lookup (result : list item) (r : nat) :
  score_map result !! KInt (Z.of_nat r) = correlated result r.
Proof.
  unfold score_map, correlated. destruct (has_ids result).
  - apply by_id_lookup.
  - apply by_position_lookup.
Qed.

Lemma merge_written (result : list item) (r : nat) (p : post) :
  merge (score_map result) (Z.of_nat r) p = update p (written result r).
Proof.
  unfold merge, written. rewrite score_map_lookup.
  now destruct (correlated result r).
Qed.

(** *** The three attempts *)

Section with_client.

Variable complete : Z -> Z -> list request_item -> outcome (option (list item)).

Lemma attempts_all_raise (bn : Z) (msg : list request_item) (tries : list Z) :
  (forall a, In a tries -> exists e, complete bn a msg = Raise e) ->
  attempts complete bn msg tries = None.
Proof.
  induction tries as [| a tries IH]; intros H; [reflexivity |].
  simpl. destruct (H a (or_introl eq_refl)) as [e ->].
  rewrite IH by (intros; apply H; now right).
  now destruct e.
Qed.


(** A reply is kept only if some attempt returned it. *)
Lemma attempts_Some (bn : Z) (msg : list request_item) (tries : list Z)
      (result : list item) :
  attempts complete bn msg tries = Some result ->
  exists a, In a tries /\ complete bn a msg = Return (Some result).
Proof.
  induction tries as [| a tries IH]; intros H; [discriminate |].
  simpl in H. destruct (complete bn a msg) as [e | r] eqn:Ha.
  - destruct IH as [a' [Hin Ha']]; [now destruct e |].
    exists a'. split; [now right | assumption].
  - subst r. exists a. split; [now left | assumption].
Qed.


Lemma score_batch_length (bn : Z) (batch : list post) :
  length (score_batch complete bn batch) = length batch.
Proof.
  unfold score_batch. destruct (attempts _ _ _ _).
  - now rewrite length_map, enumerate_length.
  - now rewrite length_map.
Qed.

Lemma score_batch_lookup (bn : Z) (batch : list post) (r : nat) (p : post) :
  batch !! r = Some p ->
  score_batch complete bn batch !! r =
  Some (match attempts complete bn (_build_user_message batch) (py_range 0 3) with
        | None => update p failed
        | Some result => update p (written result r)
        end).
Proof.
  intros H. unfold score_batch. destruct (attempts _ _ _ _) as [result |].
  - rewrite map_lookup, (enumerate_lookup _ _ _ H). simpl.
    now rewrite merge_written.
  - rewrite map_lookup, H. reflexivity.
Qed.

Lemma range_step_5 (n : nat) :
  range_step (Z.of_nat n) 5 =
  List.map (fun j => 5 * Z.of_nat j) (seq 0 ((n + 4) / 5)%nat).
Proof.
  unfold range_step. do 2 f_equal.
  rewrite <- (Nat2Z.id ((n + 4) / 5)%nat). f_equal.
  rewrite Nat2Z.inj_div, Nat2Z.inj_add. f_equal. lia.
Qed.

Lemma score_opportunities_batched (posts : list post) :
  score_opportunities complete posts =
  Return (batched (fun j b => score_batch complete (Z.of_nat j + 1) b)
                  ((length posts + 4) / 5)%nat posts).
Proof.
  destruct posts as [| p0 posts]; [reflexivity |].
  unfold score_opportunities. f_equal.
  set (l := p0 :: posts).
  etransitivity.
  { apply (fold_left_append
             (fun start => score_batch complete (start / 5 + 1) (slice_batch start 5 l))). }
  rewrite range_step_5, List.map_map. unfold batched. simpl app.
  f_equal. apply List.map_ext. intros j.
  rewrite (Z.mul_comm 5), Z.div_mul by lia.
  unfold slice_batch, batch_of. do 3 f_equal. lia.
Qed.

(** The scored list, position by position. *)
Lemma score_opportunities_lookup (posts : list post) :
  exists scored,
    score_opportunities complete posts = Return scored /\
    length scored = length posts /\
    (forall i p, posts !! i = Some p ->
                 scored !! i = Some (scored_post complete posts i p)).
Proof.
  eexists. split; [apply score_opportunities_batched |].
  destruct (batched_spec (fun j b => score_batch complete (Z.of_nat j + 1) b)
                         ((length posts + 4) / 5)%nat posts) as [Hlen Hget].
  { intros; apply score_batch_length. }
  { pose proof (Nat.div_mod_eq (length posts + 4) 5).
    pose proof (Nat.mod_upper_bound (length posts + 4) 5). lia. }
  split; [exact Hlen |].
  intros i p Hp. rewrite Hget by (eapply lookup_lt_Some; eassumption).
  unfold scored_post, reply_for.
  apply score_batch_lookup. now rewrite batch_of_lookup.
Qed.

End with_client.

Lemma update_has_scoring_fields (p : post) (d : scoring) :
  has_scoring_fields (update p d).
Proof. repeat split; eexists; reflexivity. Qed.

(** *** Answered batches *)

Lemma correlated_In (result : list item) (r : nat) (info : item) :
  correlated result r = Some info -> In info result.
Proof.
  unfold correlated. destruct (has_ids result); intros H.
  - apply last_Some_elem_of, list_elem_of_In in H.
    apply filter_In in H. tauto.
  - apply list_elem_of_In. eapply list_elem_of_lookup_2; eassumption.
Qed.





End scorer_facts.

(** ** The keyword refiner *)

Section refiner_facts.

Import scorer.

Variable lower : string -> string.

Lemma keep_new_sound (original_lower : gset string) (new_keywords : list json_elem)
      (kept : list string) :
  keep_new lower original_lower new_keywords = Return kept ->
  forall k, In k kept -> lower k ∉ original_lower.
Proof.
  revert kept. induction new_keywords as [| x rest IH]; intros kept H k Hk.
  - inversion H; subst. destruct Hk.
  - destruct x as [s |]; [| discriminate].
    simpl in H. destruct (keep_new lower original_lower rest) as [e | kept'];
      [discriminate |].
    cbn in H. inversion H; subst kept; clear H.
    destruct (decide (lower s ∈ original_lower)) as [Hin | Hnot].
    + now apply (IH kept').
    + destruct Hk as [<- | Hk]; [assumption | now apply (IH kept')].
Qed.

Lemma keep_new_strings (original_lower : gset string) (ks : list string) :
  keep_new lower original_lower (List.map JStr ks) =
  Return (List.filter (fun k => bool_decide (lower k ∉ original_lower)) ks).
Proof.
  induction ks as [| k ks IH]; [reflexivity |].
  cbn [List.map keep_new List.filter]. rewrite IH. cbn.
  destruct (decide (lower k ∈ original_lower)) as [Hin | Hnot].
  - rewrite bool_decide_eq_false_2 by tauto. reflexivity.
  - rewrite bool_decide_eq_true_2 by assumption. reflexivity.
Qed.

Lemma lower_original_in_set (original : list string) (o : string) :
  In o original ->
  lower o ∈ (list_to_set (List.map lower original) : gset string).
Proof.
  intros H. apply elem_of_list_to_set, list_elem_of_In, in_map, H.
Qed.

End refiner_facts.

(** C8: no keyword returned by the refiner equals an original keyword up to
    case; a reply made of strings is returned without exactly those entries;
    with original ["GRE prep"] and reply ["GRE PREP", "TOEFL tips"] the
    result is ["TOEFL tips"]; and when the one call to the service raises,
    the result is the empty list. *)
Theorem refined_keywords_exclude_originals :
  (forall lower refine original posts k,
      In k (scorer.generate_refined_keywords lower refine original posts) ->
      forall o, In o original -> ~ same_ignoring_case lower k o) /\
  (forall lower refine original posts ks,
      refine (scorer.refine_request original posts) = Return (List.map scorer.JStr ks) ->
      scorer.generate_refined_keywords lower refine original posts =
      List.filter (fun k => forallb (fun o => negb (lower k =? lower o)%string) original) ks) /\
  (forall posts,
      scorer.generate_refined_keywords
        scorer.ascii_lower
        (fun _ => Return [scorer.JStr "GRE PREP"; scorer.JStr "TOEFL tips"])
        ["GRE prep"] posts = ["TOEFL tips"]) /\
  (forall lower refine original posts e,
      refine (scorer.refine_request original posts) = Raise e ->
      scorer.generate_refined_keywords lower refine original posts = []).
Proof.
  split; [| split; [| split]].
  - intros lower refine original posts k Hk o Ho Hsame.
    unfold scorer.generate_refined_keywords in Hk.
    destruct (refine _) as [e | new_keywords]; [destruct Hk |].
    cbn in Hk.
    destruct (scorer.keep_new lower _ new_keywords) as [e | kept] eqn:Hkept;
      [destruct Hk |].
    apply (keep_new_sound lower _ _ _ Hkept k Hk).
    unfold same_ignoring_case in Hsame. rewrite Hsame.
    now apply lower_original_in_set.
  - intros lower refine original posts ks Hret.
    unfold scorer.generate_refined_keywords. rewrite Hret. cbn.
    rewrite keep_new_strings. cbn.
    apply List.filter_ext. intros k. apply Bool.eq_iff_eq_true.
    rewrite bool_decide_eq_true, forallb_forall.
    rewrite elem_of_list_to_set, list_elem_of_In, in_map_iff. split.
    + intros Hnot o Ho. apply negb_true_iff, String.eqb_neq. intros Heq.
      apply Hnot. exists o. split; [now symmetry | assumption].
    + intros Hall (o & Heq & Ho). specialize (Hall o Ho).
      apply negb_true_iff, String.eqb_neq in Hall. apply Hall. now symmetry.
  - intros posts. vm_compute. reflexivity.
  - intros lower refine original posts e Hraise.
    unfold scorer.generate_refined_keywords. now rewrite Hraise.
Qed.

Lemma refined_keywords_exclude_originals_witness :
  ~ In "gre prep"
       (scorer.generate_refined_keywords
          scorer.ascii_lower
          (fun _ => Return [scorer.JStr "GRE PREP"; scorer.JStr "gre prep"; scorer.JStr "IELTS"])
          ["GRE prep"; "TOEFL"] [gre_post]).
Proof.
  intros Hin.
  apply (proj1 refined_keywords_exclude_originals _ _ _ _ _ Hin "GRE prep").
  - simpl. tauto.
  - reflexivity.
Defined.

(** ** Sorting by descending key *)

Section sorting.

Context {A : Type}.

Lemma insert_desc_perm (x : Z * A) (l : list (Z * A)) :
  Permutation (insert_desc x l) (x :: l).
Proof.
  induction l as [| y r IH]; simpl; [reflexivity |].
  destruct (fst y <=? fst x); [reflexivity |].
  rewrite IH. apply perm_swap.
Qed.

Lemma sort_desc_perm (l : list (Z * A)) : Permutation (sort_desc l) l.
Proof.
  induction l as [| x r IH]; simpl; [reflexivity |].
  rewrite insert_desc_perm. now apply perm_skip.
Qed.

Lemma insert_desc_sorted (x : Z * A) (l : list (Z * A)) :
  StronglySorted (fun a b => fst b <= fst a) l ->
  StronglySorted (fun a b => fst b <= fst a) (insert_desc x l).
Proof.
  induction l as [| y r IH]; intros Hs; simpl.
  - constructor; constructor.
  - inversion Hs as [| ? ? Hr Hy]; subst.
    destruct (Z.leb_spec (fst y) (fst x)) as [Hle | Hgt].
    + constructor; [assumption |].
      constructor; [assumption |].
      eapply List.Forall_impl; [| exact Hy]. simpl. intros; lia.
    + constructor; [now apply IH |].
      rewrite insert_desc_perm. constructor; [lia | assumption].
Qed.

Lemma sort_desc_sorted (l : list (Z * A)) :
  StronglySorted (fun a b => fst b <= fst a) (sort_desc l).
Proof.
  induction l as [| x r IH]; simpl; [constructor |].
  now apply insert_desc_sorted.
Qed.

(** Stability: the elements with a given key keep their order. *)
Lemma insert_desc_stable (k : Z) (x : Z * A) (l : list (Z * A)) :
  List.filter (fun a => fst a =? k) (insert_desc x l) =
  List.filter (fun a => fst a =? k) (x :: l).
Proof.
  induction l as [| y r IH]; [reflexivity |].
  cbn [insert_desc]. destruct (Z.leb_spec (fst y) (fst x)) as [Hle | Hgt];
    [reflexivity |].
  cbn [List.filter] in *. rewrite IH.
  destruct (Z.eqb_spec (fst x) k) as [Hx | Hx]; [| reflexivity].
  destruct (Z.eqb_spec (fst y) k) as [Hy | Hy]; [lia | reflexivity].
Qed.

Lemma sort_desc_stable (k : Z) (l : list (Z * A)) :
  List.filter (fun a => fst a =? k) (sort_desc l) =
  List.filter (fun a => fst a =? k) l.
Proof.
  induction l as [| x r IH]; [reflexivity |].
  cbn [sort_desc]. rewrite insert_desc_stable. cbn [List.filter].
  now rewrite IH.
Qed.

End sorting.

(** ** The sorted list of qualified posts *)

Section sorted_posts.

Lemma keys_of_scored (posts : list post) :
  all_scored posts ->
  mapM agent.intent_score_key posts = Return (List.map score_of posts).
Proof.
  induction 1 as [| p posts [s Hs] _ IH]; [reflexivity |].
  cbn [mapM List.map]. rewrite IH.
  unfold agent.intent_score_key, score_of. rewrite Hs. reflexivity.
Qed.

Lemma combine_keys (posts : list post) :
  combine (List.map score_of posts) posts = List.map decorate posts.
Proof. induction posts as [| p posts IH]; simpl; [| rewrite IH]; reflexivity. Qed.

Lemma undecorate (posts : list post) : List.map snd (List.map decorate posts) = posts.
Proof. rewrite List.map_map. apply List.map_id. Qed.

Lemma decorate_keyed (posts : list post) : Forall keyed (List.map decorate posts).
Proof. induction posts; constructor; [reflexivity | assumption]. Qed.

Lemma keyed_descending (l : list (Z * post)) :
  Forall keyed l ->
  StronglySorted (fun a b => fst b <= fst a) l ->
  descending (List.map snd l).
Proof.
  intros Hk Hs. induction Hs as [| a l Hs IH Ha]; [constructor |].
  inversion Hk as [| ? ? Hka Hkl]; subst.
  constructor; [now apply IH |].
  apply List.Forall_map.
  apply List.Forall_forall. intros b Hb.
  rewrite List.Forall_forall in Ha, Hkl.
  specialize (Ha b Hb). specialize (Hkl b Hb).
  unfold keyed in *. lia.
Qed.

Lemma keyed_with_score (s : Z) (l : list (Z * post)) :
  Forall keyed l ->
  with_score s (List.map snd l) = List.map snd (List.filter (fun a => fst a =? s) l).
Proof.
  induction 1 as [| a l Ha _ IH]; [reflexivity |].
  cbn [List.map with_score List.filter]. unfold with_score in IH.
  rewrite <- Ha. destruct (fst a =? s); cbn [List.map]; now rewrite IH.
Qed.

Lemma sorted_by_intent_score_spec (posts : list post) :
  all_scored posts ->
  exists sorted,
    agent.sorted_by_intent_score posts = Return sorted /\
    Permutation posts sorted /\
    descending sorted /\
    (forall s, with_score s sorted = with_score s posts).
Proof.
  intros Hall. unfold agent.sorted_by_intent_score.
  rewrite (keys_of_scored posts Hall). cbn. rewrite combine_keys.
  eexists. split; [reflexivity |].
  assert (Hk : Forall keyed (sort_desc (List.map decorate posts))).
  { rewrite sort_desc_perm. apply decorate_keyed. }
  split; [| split].
  - rewrite <- (undecorate posts) at 1.
    apply Permutation_map. symmetry. apply sort_desc_perm.
  - apply keyed_descending; [assumption | apply sort_desc_sorted].
  - intros s. rewrite (keyed_with_score s _ Hk), sort_desc_stable.
    rewrite <- (keyed_with_score s _ (decorate_keyed posts)).
    now rewrite undecorate.
Qed.

End sorted_posts.

(** ** The refinement loop *)

Section loop_facts.

Import agent.

Variable lower : string -> string.
Variable w : world.
Variable cfg : config.

Lemma score_opportunities_all_scored complete (posts : list post) :
  exists scored,
    scorer.score_opportunities complete posts = Return scored /\
    length scored = length posts /\
    all_scored scored.
Proof.
  destruct (score_opportunities_lookup complete posts) as (scored & Hrun & Hlen & Hget).
  exists scored. repeat split; try assumption.
  apply Forall_lookup. intros i q Hq.
  destruct (lookup_lt_is_Some_2 posts i) as [p Hp].
  { rewrite <- Hlen. eapply lookup_lt_Some; eassumption. }
  rewrite (Hget i p Hp) in Hq. inversion Hq.
  unfold scored_post. destruct (reply_for _ _ _); eexists; reflexivity.
Qed.

Lemma all_scored_filter (f : post -> bool) (l : list post) :
  all_scored l -> all_scored (List.filter f l).
Proof.
  unfold all_scored. rewrite !List.Forall_forall.
  intros H p Hp. apply filter_In in Hp. apply H. tauto.
Qed.

(** One iteration: what it computes, how it ends, and what it leaves in the
    state.  The verdict is the first of the four conditions that holds. *)
Lemma iteration_body_spec (iteration : Z) (st : state) :
  all_scored (all_qualified st) ->
  exists scored high_scorers st',
    let iteration_posts := scrape w cfg iteration (current_keywords st) in
    let new_posts := new_posts_of (all_seen_urls st) iteration_posts in
    let qualified :=
      (all_qualified st ++
       List.filter (fun p => get (intent_score p) 0 >=? min_intent_score cfg) scored)%list in
    let new_keywords :=
      scorer.generate_refined_keywords lower (refinement_service w iteration)
                                       (keywords cfg) high_scorers in
    let v := termination_check (is_nil new_posts)
                               (Z.of_nat (length qualified) >=? max_results cfg)
                               (negb (iteration <? max_iterations cfg))
                               (is_nil new_keywords) in
    scorer.score_opportunities (scoring_service w iteration) new_posts = Return scored /\
    sorted_by_intent_score qualified = Return high_scorers /\
    iteration_body lower w cfg iteration st = Return (st', breaks v) /\
    trace st' = (trace st ++ events_of iteration (length new_posts) v)%list /\
    all_seen_urls st' = add_urls (all_seen_urls st) new_posts /\
    total_raw st' = total_raw st + Z.of_nat (length iteration_posts) /\
    all_qualified st' = (if is_nil new_posts then all_qualified st else qualified) /\
    current_keywords st' =
      match v with Refined => new_keywords | _ => current_keywords st end /\
    all_scored (all_qualified st').
Proof.
  intros Hinv.
  set (iteration_posts := scrape w cfg iteration (current_keywords st)).
  set (new_posts := new_posts_of (all_seen_urls st) iteration_posts).
  destruct (score_opportunities_all_scored (scoring_service w iteration) new_posts)
    as (scored & Hscored & _ & Hall).
  set (qualified :=
         (all_qualified st ++
          List.filter (fun p => get (intent_score p) 0 >=? min_intent_score cfg) scored)%list).
  assert (Hq : all_scored qualified).
  { apply Forall_app. split; [assumption | now apply all_scored_filter]. }
  destruct (sorted_by_intent_score_spec qualified Hq) as (high_scorers & Hsorted & _).
  exists scored, high_scorers.
  unfold iteration_body. cbn [say all_seen_urls all_qualified total_raw current_keywords trace].
  fold iteration_posts. fold new_posts.
  destruct new_posts as [| p0 rest] eqn:Hnew.
  - eexists. cbn zeta. repeat split; try eassumption; cbn; try reflexivity.
    now rewrite <- app_assoc.
  - rewrite Hscored. cbn [mbind outcome_bind]. fold qualified.
    cbn [is_nil termination_check].
    destruct (Z.of_nat (length qualified) >=? max_results cfg) eqn:Hreach.
    + eexists. cbn zeta. repeat split; try eassumption; cbn; try reflexivity.
      now rewrite <- !app_assoc.
    + destruct (iteration <? max_iterations cfg) eqn:Hlast; cbn [negb].
      * rewrite Hsorted. cbn [mbind outcome_bind].
        destruct (scorer.generate_refined_keywords _ _ _ _) as [| k ks] eqn:Hkw.
        -- eexists. cbn zeta. repeat split; try eassumption; cbn; try reflexivity.
           now rewrite <- !app_assoc.
        -- eexists. cbn zeta. repeat split; try eassumption; cbn; try reflexivity.
           now rewrite <- !app_assoc.
      * eexists. cbn zeta. repeat split; try eassumption; cbn; try reflexivity.
        now rewrite <- !app_assoc.
Qed.

(** *** Reading the trace *)

Lemma iterations_app (a b : list event) :
  iterations (a ++ b) = (iterations a + iterations b)%nat.
Proof. unfold iterations. now rewrite List.filter_app, length_app. Qed.

Lemma scoring_passes_app (a b : list event) :
  scoring_passes (a ++ b) = (scoring_passes a + scoring_passes b)%nat.
Proof. unfold scoring_passes. now rewrite List.filter_app, length_app. Qed.

Lemma stops_app (a b : list event) : stops (a ++ b) = (stops a ++ stops b)%list.
Proof. unfold stops. apply flat_map_app. Qed.

Lemma events_of_iterations (iteration : Z) (n : nat) (v : verdict) :
  iterations (events_of iteration n v) = 1%nat.
Proof. now destruct v. Qed.

Lemma events_of_scoring_passes (iteration : Z) (n : nat) (v : verdict) :
  (scoring_passes (events_of iteration n v) <= 1)%nat.
Proof. destruct v; cbn; lia. Qed.

Lemma events_of_stops (iteration : Z) (n : nat) (v : verdict) :
  stops (events_of iteration n v) = if breaks v then [iteration] else [].
Proof. now destruct v. Qed.

(** *** The loop *)

(** The loop returns for every list of iteration numbers; either it runs
    through the list without [break], or it stops in the body run for the
    element at some position [k], after [k + 1] iterations. *)
Lemma for_loop_spec (numbers : list Z) (st : state) :
  all_scored (all_qualified st) ->
  exists st' tr,
    for_loop lower w cfg numbers st = Return st' /\
    all_scored (all_qualified st') /\
    trace st' = (trace st ++ tr)%list /\
    (scoring_passes tr <= iterations tr)%nat /\
    ((iterations tr = length numbers /\ stops tr = []) \/
     (exists k iteration,
         numbers !! k = Some iteration /\ iterations tr = S k /\
         stops tr = [iteration])).
Proof.
  revert st. induction numbers as [| iteration rest IH]; intros st Hinv.
  - exists (say CompletedAll st), [CompletedAll].
    repeat split; try assumption. cbn. lia. now left.
  - destruct (iteration_body_spec iteration st Hinv)
      as (scored & high_scorers & st1 & _ & _ & Hbody & Htrace & _ & _ & _ & _ & Hinv1).
    cbn zeta in Hbody, Htrace.
    set (v := termination_check _ _ _ _) in Hbody, Htrace.
    set (n := length _) in Htrace.
    cbn [for_loop]. rewrite Hbody. cbn [mbind outcome_bind].
    destruct (breaks v) eqn:Hbreak.
    + exists st1, (events_of iteration n v).
      repeat split; try assumption.
      * rewrite events_of_iterations. apply events_of_scoring_passes.
      * right. exists 0%nat, iteration.
        rewrite events_of_iterations, events_of_stops, Hbreak. now repeat split.
    + destruct (IH st1 Hinv1) as (st' & tr & Hloop & Hinv' & Htr & Hpasses & Hend).
      exists st', (events_of iteration n v ++ tr)%list.
      split; [exact Hloop |]. split; [exact Hinv' |].
      split; [rewrite Htr, Htrace; now rewrite app_assoc |].
      rewrite iterations_app, scoring_passes_app, stops_app,
        events_of_iterations, events_of_stops, Hbreak.
      pose proof (events_of_scoring_passes iteration n v).
      split; [lia |].
      destruct Hend as [[Hall Hnone] | (k & i & Hk & Hiter & Hstop)].
      * left. cbn. split; [lia | assumption].
      * right. exists (S k), i. cbn. repeat split; [assumption | lia | assumption].
Qed.



End loop_facts.



(** ** The ledger of seen URLs *)

Section ledger_facts.

Import agent.

Lemma new_posts_not_seen (seen : gset string) (posts : list post) (p : post) :
  In p (new_posts_of seen posts) -> In p posts /\ url p ∉ seen.
Proof.
  unfold new_posts_of. rewrite filter_In, bool_decide_eq_true. tauto.
Qed.

Lemma add_urls_elem (seen : gset string) (posts : list post) (u : string) :
  u ∈ add_urls seen posts <-> u ∈ seen \/ In u (List.map url posts).
Proof.
  unfold add_urls. revert seen.
  induction posts as [| p posts IH]; intros seen; cbn [fold_left List.map In].
  - tauto.
  - rewrite IH, elem_of_union, elem_of_singleton.
    intuition congruence.
Qed.

(** A URL of the ledger stays in it, and is never admitted again. *)
Lemma seen_url_not_admitted (seen : gset string) (found later : list post) (p : post) :
  url p ∈ seen ->
  ~ In p (new_posts_of (add_urls seen (new_posts_of seen found)) later) /\
  ~ In p (new_posts_of seen found).
Proof.
  intros Hseen. split; intros Hin; apply new_posts_not_seen in Hin as [_ Hnot];
    apply Hnot; [apply add_urls_elem; now left | assumption].
Qed.

Lemma new_posts_of_cons (seen : gset string) (p : post) (rest : list post) :
  new_posts_of seen (p :: rest) =
  if decide (url p ∈ seen) then new_posts_of seen rest
  else p :: new_posts_of seen rest.
Proof.
  unfold new_posts_of. cbn [List.filter].
  destruct (decide (url p ∈ seen)) as [Hin | Hnot].
  - rewrite bool_decide_eq_false_2 by tauto. reflexivity.
  - rewrite bool_decide_eq_true_2 by assumption. reflexivity.
Qed.

Lemma new_posts_of_unrelated (seen : gset string) (u : string) (posts : list post) :
  ~ In u (List.map url posts) ->
  new_posts_of ({[u]} ∪ seen) posts = new_posts_of seen posts.
Proof.
  intros Hnot. unfold new_posts_of. apply filter_ext_in. intros p Hp.
  apply bool_decide_ext.
  assert (url p <> u) by (intros <-; apply Hnot, in_map, Hp).
  rewrite not_elem_of_union, not_elem_of_singleton. tauto.
Qed.

(** Two posts of one batch with the same unseen URL are both admitted. *)
Lemma repeated_url_admitted_twice (seen : gset string) (p q : post) :
  url p = url q -> url p ∉ seen ->
  new_posts_of seen [p; q] = [p; q] /\
  fst (filter_new_in_sequence seen [p; q]) = [p].
Proof.
  intros Heq Hnew. split.
  - rewrite !new_posts_of_cons, <- Heq.
    rewrite !decide_False by assumption. reflexivity.
  - cbn [filter_new_in_sequence]. rewrite <- Heq.
    rewrite decide_False by assumption.
    rewrite decide_True by (apply elem_of_union; left; now apply elem_of_singleton).
    reflexivity.
Qed.

(** On a batch without repeated URLs the code admits what the sequential
    check admits. *)
Lemma new_posts_of_in_sequence (seen : gset string) (posts : list post) :
  NoDup (List.map url posts) ->
  new_posts_of seen posts = fst (filter_new_in_sequence seen posts).
Proof.
  revert seen. induction posts as [| p rest IH]; intros seen Hnodup; [reflexivity |].
  cbn [List.map] in Hnodup. apply NoDup_cons in Hnodup as [Hfresh Hnodup].
  rewrite new_posts_of_cons. cbn [filter_new_in_sequence].
  destruct (decide (url p ∈ seen)); [now apply IH |].
  cbn [fst]. f_equal. rewrite <- IH by assumption.
  symmetry. apply new_posts_of_unrelated.
  intros Hin. apply Hfresh, list_elem_of_In, Hin.
Qed.

End ledger_facts.

(** C1, evaluated on a batch in which both scrapers return the same thread:
    the code filters the whole batch against the ledger before it records
    anything, so both posts are admitted, both are scored and both reach the
    output, while the ledger counts one URL; the check made post by post
    admits the first one only. *)
Theorem same_batch_duplicate_is_admitted :
  url gre_post = url gre_post_from_web /\
  agent.new_posts_of ∅ [gre_post; gre_post_from_web] = [gre_post; gre_post_from_web] /\
  fst (filter_new_in_sequence ∅ [gre_post; gre_post_from_web]) = [gre_post] /\
  exists r,
    agent.main scorer.ascii_lower duplicate_world duplicate_config = Return r /\
    List.map url (agent.r_top r) =
      ["https://reddit.com/r/GRE/comments/abc/need_help/";
       "https://reddit.com/r/GRE/comments/abc/need_help/"] /\
    ~ NoDup (List.map url (agent.r_top r)) /\
    agent.r_total_raw r = 2 /\
    agent.r_after_dedup r = 1%nat.
Proof.
  split; [reflexivity |].
  split; [vm_compute; reflexivity |].
  split; [vm_compute; reflexivity |].
  eexists. split; [vm_compute; reflexivity |].
  cbn [agent.r_top agent.r_total_raw agent.r_after_dedup].
  repeat split.
  intros Hnodup. apply NoDup_cons in Hnodup as [Hnot _].
  apply Hnot. now left.
Qed.

(** ** Strings: strip, split and join *)

Section string_facts.

Lemma str_app_nil_l (b : string) : "" ++ b = b.
Proof. reflexivity. Qed.

Lemma str_app_cons (x : ascii) (a b : string) : String x a ++ b = String x (a ++ b).
Proof. reflexivity. Qed.

Ltac norm_app := rewrite ?str_app_cons, ?str_app_nil_l.
Ltac norm_app_in H := rewrite ?str_app_cons, ?str_app_nil_l in H.

Lemma str_app_assoc (a b c : string) : (a ++ b) ++ c = a ++ (b ++ c).
Proof. induction a as [| x a IH]; norm_app; [| rewrite IH]; reflexivity. Qed.

Lemma str_app_nil_r (a : string) : a ++ "" = a.
Proof. induction a as [| x a IH]; norm_app; [| rewrite IH]; reflexivity. Qed.

Lemma str_length_app (a b : string) :
  String.length (a ++ b) = (String.length a + String.length b)%nat.
Proof. induction a as [| x a IH]; norm_app; simpl; [| rewrite IH]; reflexivity. Qed.

Lemma join_cons (t : string) (l : list string) : join (t :: l) = t ++ join l.
Proof. reflexivity. Qed.

Lemma join_app (l1 l2 : list string) : join (l1 ++ l2)%list = join l1 ++ join l2.
Proof.
  induction l1 as [| t l1 IH]; [reflexivity |].
  cbn [app]. rewrite !join_cons, IH. now rewrite str_app_assoc.
Qed.

Lemma chars_cons (c : ascii) (r : string) :
  chars (String c r) =
  match chars r with
  | t :: ts => if starts_with_continuation r then String c t :: ts
               else String c EmptyString :: t :: ts
  | [] => [String c EmptyString]
  end.
Proof. reflexivity. Qed.

Lemma chars_nonempty (c : ascii) (r : string) : chars (String c r) <> [].
Proof.
  rewrite chars_cons. destruct (chars r); [discriminate |].
  destruct (starts_with_continuation r); discriminate.
Qed.

(** Joining the code points of a string gives the string back. *)
Lemma join_chars (s : string) : join (chars s) = s.
Proof.
  induction s as [| c s IH]; [reflexivity |].
  rewrite chars_cons. destruct (chars s) as [| t ts].
  - cbn in IH. subst s. reflexivity.
  - destruct (starts_with_continuation s).
    + rewrite join_cons in *. norm_app. now rewrite IH.
    + rewrite !join_cons in *. norm_app. now rewrite IH.
Qed.


(** The code points of a string: the first one starts with the first byte
    of the string, the others with a byte that is not a continuation byte,
    and all go on with continuation bytes only. *)
Lemma chars_shape (s : string) :
  match s with
  | EmptyString => chars s = []
  | String c _ =>
      exists t ts, chars s = String c t :: ts /\ all_continuation t = true /\
                   Forall (fun t => is_char true t = true) ts
  end.
Proof.
  induction s as [| c s IH]; [reflexivity |].
  rewrite chars_cons. destruct s as [| c1 s].
  - exists "", []. cbn. repeat constructor.
  - destruct IH as (t1 & ts & -> & Ht1 & Hts). cbn [starts_with_continuation].
    destruct (is_continuation c1) eqn:Hc1.
    + exists (String c1 t1), ts. cbn. rewrite Hc1, Ht1. repeat split. assumption.
    + exists "", (String c1 t1 :: ts). repeat split.
      constructor; [| assumption]. cbn. now rewrite Hc1, Ht1.
Qed.

Lemma is_char_lead (t : string) : is_char true t = true -> is_char false t = true.
Proof. destruct t as [| c r]; [discriminate |]. cbn. now intros [_ ->]%andb_true_iff. Qed.

Lemma chars_ok_chars (s : string) : chars_ok (chars s).
Proof.
  pose proof (chars_shape s) as H. destruct s as [| c s]; [now rewrite H |].
  destruct H as (t & ts & -> & Ht & Hts). split; [exact Ht | exact Hts].
Qed.

Lemma chars_ok_tail (t : string) (ts : list string) : chars_ok (t :: ts) -> chars_ok ts.
Proof.
  intros [_ Hts]. destruct ts as [| t' ts]; [exact I |].
  inversion Hts; subst. split; [now apply is_char_lead | assumption].
Qed.

Lemma chars_ok_firstn (n : nat) (l : list string) : chars_ok l -> chars_ok (firstn n l).
Proof.
  destruct l as [| t ts]; [now destruct n |]. destruct n as [| n]; [easy |].
  intros [Ht Hts]. split; [exact Ht |]. now apply Forall_take.
Qed.

Lemma chars_ok_app_r (l1 l2 : list string) : chars_ok (l1 ++ l2)%list -> chars_ok l2.
Proof.
  induction l1 as [| t l1 IH]; [easy |]. intros H. apply IH. eapply chars_ok_tail, H.
Qed.

Lemma chars_ok_app_l (l1 l2 : list string) : chars_ok (l1 ++ l2)%list -> chars_ok l1.
Proof.
  destruct l1 as [| t l1]; [easy |]. intros [Ht Hts]. split; [exact Ht |].
  now apply Forall_app in Hts as [? _].
Qed.

Lemma chars_char (r : string) :
  all_continuation r = true ->
  forall c s, starts_with_continuation s = false ->
              chars (String c (r ++ s)) = String c r :: chars s.
Proof.
  induction r as [| c1 r IH]; intros Hr c s Hs.
  - norm_app. rewrite chars_cons, Hs. now destruct (chars s).
  - cbn in Hr. apply andb_true_iff in Hr as [Hc1 Hr].
    norm_app. rewrite chars_cons, (IH Hr c1 s Hs). cbn. now rewrite Hc1.
Qed.

(** A list of code points is the list of code points of its join. *)
Lemma chars_join (l : list string) : chars_ok l -> chars (join l) = l.
Proof.
  induction l as [| t ts IH]; intros Hok; [reflexivity |].
  pose proof (chars_ok_tail _ _ Hok) as Hts.
  destruct Hok as [Ht Hlead]. destruct t as [| c r]; [discriminate |].
  cbn in Ht. rewrite join_cons. norm_app.
  rewrite chars_char; [now rewrite IH | assumption |].
  destruct ts as [| t2 ts]; [reflexivity |].
  inversion Hlead as [| ? ? Ht2 _]; subst. destruct t2 as [| c2 r2]; [discriminate |].
  cbn in Ht2 |- *. apply andb_true_iff in Ht2 as [Hc2 _].
  now apply negb_true_iff in Hc2.
Qed.

Lemma chars_str_prefix (n : nat) (s : string) :
  chars (str_prefix n s) = firstn n (chars s).
Proof. apply chars_join, chars_ok_firstn, chars_ok_chars. Qed.

Lemma str_prefix_length (n : nat) (s : string) :
  len (str_prefix n s) = Nat.min n (len s).
Proof. unfold len. now rewrite chars_str_prefix, length_firstn. Qed.

Lemma str_prefix_is_prefix (n : nat) (s : string) :
  exists rest, s = str_prefix n s ++ rest.
Proof.
  exists (join (skipn n (chars s))). unfold str_prefix.
  now rewrite <- join_app, firstn_skipn, join_chars.
Qed.

(** *** strip *)

Lemma lstrip_chars_spec (l : list string) :
  exists w, forallb is_space w = true /\ l = (w ++ lstrip_chars l)%list /\
            (forall c r, lstrip_chars l = c :: r -> is_space c = false).
Proof.
  induction l as [| x l (w & Hw & Hl & Hhead)]; cbn [lstrip_chars].
  - exists []. repeat split. discriminate.
  - destruct (is_space x) eqn:Hx.
    + exists (x :: w). cbn [forallb app]. rewrite Hx, Hw. repeat split; [now f_equal | assumption].
    + exists []. repeat split. intros c r Heq. now inversion Heq; subst.
Qed.

Lemma rstrip_chars_spec (l : list string) :
  exists w, forallb is_space w = true /\ l = (rstrip_chars l ++ w)%list /\
            (forall r c, rstrip_chars l = (r ++ [c])%list -> is_space c = false).
Proof.
  unfold rstrip_chars.
  destruct (lstrip_chars_spec (rev l)) as (w & Hw & Hl & Hhead).
  exists (rev w). repeat split.
  - rewrite forallb_forall in *. intros x Hx. apply Hw. now apply in_rev.
  - rewrite <- rev_app_distr, <- Hl. now rewrite rev_involutive.
  - intros r c Heq. apply (Hhead c (rev r)).
    rewrite <- (rev_involutive (lstrip_chars (rev l))), Heq, rev_app_distr. reflexivity.
Qed.

(** [strip] removes whitespace at both ends and nothing else. *)
Lemma strip_chars_spec (l : list string) :
  exists a b,
    forallb is_space a = true /\ forallb is_space b = true /\
    l = (a ++ rstrip_chars (lstrip_chars l) ++ b)%list /\
    (forall c r, rstrip_chars (lstrip_chars l) = c :: r -> is_space c = false) /\
    (forall r c, rstrip_chars (lstrip_chars l) = (r ++ [c])%list -> is_space c = false).
Proof.
  destruct (lstrip_chars_spec l) as (a & Ha & Hl & Hhead).
  destruct (rstrip_chars_spec (lstrip_chars l)) as (b & Hb & Hr & Hlast).
  exists a, b. repeat split; try assumption.
  - now rewrite <- Hr.
  - intros c r Heq. rewrite Heq in Hr.
    apply (Hhead c (r ++ b)%list). exact Hr.
Qed.

Lemma chars_strip (s : string) : chars (strip s) = rstrip_chars (lstrip_chars (chars s)).
Proof.
  apply chars_join.
  destruct (strip_chars_spec (chars s)) as (a & b & _ & _ & Hs & _).
  pose proof (chars_ok_chars s) as Hok. rewrite Hs in Hok.
  eapply chars_ok_app_l, chars_ok_app_r, Hok.
Qed.

Lemma strip_spec (s : string) :
  exists a b,
    blank a = true /\ blank b = true /\ s = a ++ strip s ++ b /\
    (forall c r, chars (strip s) = c :: r -> is_space c = false) /\
    (forall r c, chars (strip s) = (r ++ [c])%list -> is_space c = false) /\
    len s = (len a + len (strip s) + len b)%nat.
Proof.
  destruct (strip_chars_spec (chars s)) as (a & b & Ha & Hb & Hs & Hhead & Hlast).
  pose proof (chars_ok_chars s) as Hok. rewrite Hs in Hok.
  assert (Hoka : chars_ok a) by (eapply chars_ok_app_l, Hok).
  assert (Hokb : chars_ok b) by (eapply chars_ok_app_r, chars_ok_app_r, Hok).
  exists (join a), (join b). unfold blank, len.
  rewrite !chars_join by assumption. rewrite chars_strip.
  repeat split; try assumption.
  - unfold strip. rewrite <- !join_app, <- Hs. now rewrite join_chars.
  - rewrite Hs at 1. rewrite !length_app. lia.
Qed.

Lemma starts_with_continuation_app (a b : string) :
  a <> EmptyString -> starts_with_continuation (a ++ b) = starts_with_continuation a.
Proof. destruct a; [contradiction | reflexivity]. Qed.

Lemma len_cons (c : ascii) (r : string) :
  len (String c r) = if starts_with_continuation r then len r else S (len r).
Proof.
  unfold len. rewrite chars_cons. pose proof (chars_shape r) as H.
  destruct r as [| c1 r]; [reflexivity |].
  destruct H as (t & ts & -> & _). now destruct (starts_with_continuation _).
Qed.

(** Concatenation does not create code points. *)
Lemma len_app (a b : string) : (len (a ++ b) <= len a + len b)%nat.
Proof.
  induction a as [| c a IH]; norm_app; [lia |].
  rewrite !len_cons. destruct a as [| c1 a].
  - norm_app. cbn [starts_with_continuation]. change (len "") with 0%nat.
    destruct (starts_with_continuation b); lia.
  - rewrite starts_with_continuation_app by discriminate.
    destruct (starts_with_continuation _); lia.
Qed.

(** *** Lines *)

Lemma split_lines_nonempty (s : string) : split_lines s <> [].
Proof.
  induction s as [| c s IH]; simpl; [discriminate |].
  destruct (Ascii.eqb c newline); [discriminate |].
  destruct (split_lines s); discriminate.
Qed.

Lemma join_lines_cons (l l' : string) (rest : list string) :
  join_lines (l :: l' :: rest) = l ++ String newline (join_lines (l' :: rest)).
Proof. reflexivity. Qed.

Lemma join_lines_single (l : string) : join_lines [l] = l.
Proof. reflexivity. Qed.

(** Joining the pieces of a string gives the string back. *)
Lemma join_split_lines (s : string) : join_lines (split_lines s) = s.
Proof.
  induction s as [| c s IH]; [reflexivity |]. cbn [split_lines].
  pose proof (split_lines_nonempty s) as Hne.
  destruct (Ascii.eqb_spec c newline) as [-> | _].
  - destruct (split_lines s) as [| l ls]; [contradiction |].
    rewrite join_lines_cons. norm_app. now rewrite IH.
  - destruct (split_lines s) as [| l ls]; [contradiction |].
    destruct ls as [| l' ls].
    + rewrite join_lines_single in *. now rewrite IH.
    + rewrite join_lines_cons in *. norm_app. now rewrite IH.
Qed.

Lemma split_lines_no_newline (s : string) :
  Forall (fun l => has_newline l = false) (split_lines s).
Proof.
  induction s as [| c s IH]; simpl; [repeat constructor |].
  destruct (Ascii.eqb c newline) eqn:Hc; [constructor; [reflexivity | assumption] |].
  destruct (split_lines s) as [| l ls]; [repeat constructor; simpl; now rewrite Hc |].
  inversion IH; subst. constructor; [simpl; now rewrite Hc | assumption].
Qed.

Lemma split_lines_line (l : string) (rest : string) :
  has_newline l = false ->
  split_lines (l ++ String newline rest) = l :: split_lines rest.
Proof.
  induction l as [| c l IH]; norm_app; cbn [split_lines has_newline]; intros H.
  - now rewrite Ascii.eqb_refl.
  - apply orb_false_iff in H as [Hc Hl]. rewrite Hc, (IH Hl). reflexivity.
Qed.

Lemma split_lines_single (l : string) :
  has_newline l = false -> split_lines l = [l].
Proof.
  induction l as [| c l IH]; cbn [split_lines has_newline]; intros H; [reflexivity |].
  apply orb_false_iff in H as [Hc Hl]. rewrite Hc, (IH Hl). reflexivity.
Qed.

(** Splitting a join of lines without line feeds gives the lines back. *)
Lemma split_join_lines (lines : list string) :
  lines <> [] ->
  Forall (fun l => has_newline l = false) lines ->
  split_lines (join_lines lines) = lines.
Proof.
  induction lines as [| l [| l' rest] IH]; intros Hne Hall; [contradiction | |].
  - inversion Hall; subst. rewrite join_lines_single. now apply split_lines_single.
  - inversion Hall; subst. rewrite join_lines_cons.
    rewrite split_lines_line by assumption.
    rewrite IH; [reflexivity | discriminate | assumption].
Qed.

End string_facts.

(** ** Replies wrapped in markdown fences *)

Section fence_facts.

Lemma not_fence_line_empty : is_fence_line "" = false.
Proof. reflexivity. Qed.

(** X1: a reply that, once stripped, does not start with a fence is handed
    to [json.loads] stripped and otherwise unchanged; a reply that starts
    with a fence loses exactly its fence lines, the other lines are kept in
    order, and no fence line is left. *)
Theorem strip_fences_spec :
  forall text,
    (startswith (strip text) fence = false -> strip_fences text = strip text) /\
    (startswith (strip text) fence = true ->
     let kept := List.filter (fun l => negb (is_fence_line l))
                             (split_lines (strip text)) in
     strip_fences text = join_lines kept /\
     split_lines (strip_fences text) = (if is_nil kept then [""] else kept) /\
     Forall (fun l => is_fence_line l = false) (split_lines (strip_fences text))).
Proof.
  intros text. unfold strip_fences. split; intros Hstart; rewrite Hstart; [reflexivity |].
  cbn zeta. fold is_fence_line.
  change (fun l => negb (startswith (strip l) fence))
    with (fun l => negb (is_fence_line l)).
  set (kept := List.filter _ _).
  assert (Hkept : Forall (fun l => has_newline l = false) kept).
  { apply List.Forall_forall. intros l Hl. apply filter_In in Hl as [Hl _].
    pose proof (split_lines_no_newline (strip text)) as Hall.
    rewrite List.Forall_forall in Hall. now apply Hall. }
  assert (Hclean : Forall (fun l => is_fence_line l = false) kept).
  { apply List.Forall_forall. intros l Hl. apply filter_In in Hl as [_ Hl].
    now apply negb_true_iff in Hl. }
  split; [reflexivity |].
  destruct kept as [| l rest] eqn:Hk.
  - split; [reflexivity | repeat constructor].
  - rewrite split_join_lines by (try discriminate; assumption).
    split; [reflexivity | assumption].
Qed.

Lemma strip_fences_spec_witness :
  split_lines (strip_fences ("```json" ++ String newline ("[1, 2]" ++ String newline "```")))
  = ["[1, 2]"].
Proof.
  destruct (proj2 (strip_fences_spec
                     ("```json" ++ String newline ("[1, 2]" ++ String newline "```")))
                  eq_refl) as (_ & Hlines & _).
  exact Hlines.
Defined.

End fence_facts.

(** ** Outreach drafts *)

Section outreach_facts.

Import outreach.

Lemma classify_outreach_action_values (p : post) :
  classify_outreach_action p = None \/
  classify_outreach_action p = Some "dm" \/
  classify_outreach_action p = Some "comment" \/
  classify_outreach_action p = Some "content_idea".
Proof.
  unfold classify_outreach_action.
  repeat match goal with |- context [if ?b then _ else _] => destruct b end; tauto.
Qed.

(** X2: a post built from a Reddit submission is always placed on reddit; a
    post built by the web scraper is placed on reddit as soon as its URL
    contains "reddit.com", even where the scraper labelled it twitter or
    quora, and otherwise on the platform the scraper labelled it with; the
    platform is always one of reddit, twitter, quora and web. *)
Theorem detect_platform_of_scraped_posts :
  (forall sub, _detect_platform (scrapers._submission_to_dict sub) = "reddit") /\
  (forall item,
      (contains "reddit.com" (scrapers.it_url item) = true ->
       _detect_platform (scrapers.web_post item) = "reddit") /\
      (contains "reddit.com" (scrapers.it_url item) = false ->
       _detect_platform (scrapers.web_post item) = source (scrapers.web_post item))) /\
  (forall p, In (_detect_platform p) ["reddit"; "twitter"; "quora"; "web"]) /\
  (let item := scrapers.mkSearchItem "https://twitter.com/share?url=reddit.com/r/GRE" "" "" in
   source (scrapers.web_post item) = "twitter" /\
   _detect_platform (scrapers.web_post item) = "reddit").
Proof.
  split; [reflexivity |].
  split.
  { intros item. unfold _detect_platform, scrapers.web_post, scrapers._classify_source.
    cbn [source url].
    split; intros Hr; rewrite Hr.
    - now rewrite orb_true_r.
    - destruct (contains "twitter.com" _), (contains "x.com" _), (contains "quora.com" _);
        reflexivity. }
  split.
  { intros p. unfold _detect_platform.
    repeat match goal with |- context [if ?b then _ else _] => destruct b end;
      simpl; tauto. }
  split; reflexivity.
Qed.

Lemma detect_platform_of_scraped_posts_witness :
  _detect_platform toefl_post = "quora".
Proof.
  apply (proj2 (proj1 (proj2 detect_platform_of_scraped_posts)
                      (scrapers.mkSearchItem "https://www.quora.com/How-to-prepare-for-TOEFL"
                                             "How to prepare for TOEFL" "Any tips?"))).
  reflexivity.
Defined.

(** *** The two loops of [draft_outreach] *)

Lemma triage_fold (posts : list post) (ideas : list draft)
      (entries : list (post * string * string)) :
  fold_left triage posts (ideas, entries) =
  ((ideas ++ idea_drafts posts)%list,
   (entries ++ List.map message_entry (List.filter needs_message posts))%list).
Proof.
  revert ideas entries. induction posts as [| p posts IH]; intros ideas entries.
  - unfold idea_drafts. cbn. now rewrite !app_nil_r.
  - cbn [fold_left]. unfold triage at 2.
    unfold idea_drafts, is_content_idea, needs_message, message_entry in *.
    cbn [List.filter].
    destruct (classify_outreach_action p) as [a |] eqn:Ha; cbn [fst snd get].
    + destruct (a =? "content_idea")%string eqn:Hc; cbn [negb fst snd].
      * rewrite IH. cbn [List.map]. now rewrite <- app_assoc.
      * rewrite IH. cbn [List.map]. rewrite Ha. cbn [get]. now rewrite <- app_assoc.
    + apply IH.
Qed.

Lemma fold_left_snoc {A B : Type} (f : A -> B) (l : list A) (init : list B) :
  fold_left (fun acc x => (acc ++ [f x])%list) l init = (init ++ List.map f l)%list.
Proof.
  revert init. induction l as [| x l IH]; intros init; cbn.
  - now rewrite app_nil_r.
  - rewrite IH. now rewrite <- app_assoc.
Qed.

Section with_drafter.

Variable write : nat -> Z -> draft_request -> outcome json.

Lemma draft_each_mapM (entries : list (nat * (post * string * string))) (drafts : list draft) :
  draft_each write entries drafts =
  (ms ← mapM (fun ne : nat * (post * string * string) =>
                written_draft write (fst ne) (snd ne)) entries;
   mret (drafts ++ ms)%list).
Proof.
  revert drafts. induction entries as [| ne entries IH]; intros drafts.
  - cbn. now rewrite app_nil_r.
  - cbn [draft_each]. rewrite mapM_cons.
    destruct (written_draft write (fst ne) (snd ne)) as [e | d]; [reflexivity |].
    cbn [mbind outcome_bind]. rewrite IH.
    destruct (mapM _ entries) as [e | ms]; [reflexivity |].
    cbn. now rewrite <- app_assoc.
Qed.

Lemma draft_outreach_split (posts : list post) :
  draft_outreach write posts =
  (ms ← message_drafts write posts; mret (idea_drafts posts ++ ms)%list).
Proof.
  unfold draft_outreach. rewrite triage_fold. cbn [fst snd app].
  apply draft_each_mapM.
Qed.

Lemma filter_split_length (posts : list post) :
  (length (List.filter is_content_idea posts) + length (List.filter needs_message posts))%nat
  = length (List.filter (fun p => bool_decide (classify_outreach_action p <> None)) posts).
Proof.
  induction posts as [| p posts IH]; [reflexivity |].
  cbn [List.filter]. unfold is_content_idea, needs_message in *.
  destruct (classify_outreach_action p) as [a |].
  - rewrite bool_decide_eq_true_2 by discriminate.
    destruct (a =? "content_idea")%string; cbn [negb length]; lia.
  - rewrite bool_decide_eq_false_2 by tauto. exact IH.
Qed.

Lemma draft_attempts_all_raise (n : nat) (msg : draft_request) (tries : list Z) :
  (forall a, In a tries -> exists e, write n a msg = Raise e) ->
  draft_attempts write n msg tries = VNone.
Proof.
  induction tries as [| a tries IH]; intros H; [reflexivity |].
  cbn. destruct (H a (or_introl eq_refl)) as [e ->].
  apply IH. intros; apply H; now right.
Qed.

Lemma draft_attempts_first_return (n : nat) (msg : draft_request)
      (before after : list Z) (a : Z) (r : json) :
  (forall a', In a' before -> exists e, write n a' msg = Raise e) ->
  write n a msg = Return r ->
  draft_attempts write n msg (before ++ a :: after)%list = r.
Proof.
  induction before as [| b before IH]; intros H Ha; cbn.
  - now rewrite Ha.
  - destruct (H b (or_introl eq_refl)) as [e ->].
    apply IH; [intros; apply H; now right | assumption].
Qed.

Lemma draft_first_return_kept (n : nat) (msg : draft_request) (attempt : Z) (r : json) :
  0 <= attempt < 3 ->
  (forall earlier, 0 <= earlier < attempt -> exists e, write n earlier msg = Raise e) ->
  write n attempt msg = Return r ->
  draft_attempts write n msg (py_range 0 3) = r.
Proof.
  intros Hrange Hearlier Hret.
  change (py_range 0 3) with [0; 1; 2].
  assert (Hcases : attempt = 0 \/ attempt = 1 \/ attempt = 2) by lia.
  destruct Hcases as [-> | [-> | ->]].
  - apply (draft_attempts_first_return n msg [] [1; 2] 0); [intros ? [] | assumption].
  - apply (draft_attempts_first_return n msg [0] [2] 1); [| assumption].
    intros a [<- | []]. apply Hearlier. lia.
  - apply (draft_attempts_first_return n msg [0; 1] [] 2); [| assumption].
    intros a [<- | [<- | []]]; apply Hearlier; lia.
Qed.

(** The draft written for one post, by the reply kept for it. *)
Lemma written_draft_cases (n : nat) (p : post) :
  let parsed := kept_draft_reply write n p in
  written_draft write n (message_entry p) =
  if truthy parsed
  then match parsed with
       | VDict items =>
           Return (message_draft p (default (VStr "") (dict_get items "draft_message"))
                                 (default (VStr "") (dict_get items "reason_for_outreach")))
       | _ => Raise AttributeError
       end
  else Return (message_draft p (VStr "[Draft generation failed]")
                             (VStr "Draft generation failed")).
Proof.
  unfold written_draft, message_entry, kept_draft_reply, reply_get. cbn [fst snd].
  destruct (truthy _) eqn:Ht; [| reflexivity].
  destruct (draft_attempts _ _ _ _); reflexivity.
Qed.

Lemma written_draft_raises (n : nat) (p : post) (e : exn) :
  written_draft write n (message_entry p) = Raise e ->
  e = AttributeError /\
  truthy (kept_draft_reply write n p) = true /\ is_object (kept_draft_reply write n p) = false.
Proof.
  rewrite written_draft_cases. cbn zeta.
  destruct (truthy _); [| discriminate].
  destruct (kept_draft_reply write n p); intros H; inversion H; now repeat split.
Qed.

Lemma written_draft_returns (n : nat) (p : post) (d : draft) :
  written_draft write n (message_entry p) = Return d ->
  exists message reason, d = message_draft p message reason.
Proof.
  rewrite written_draft_cases. cbn zeta.
  destruct (truthy _).
  - destruct (kept_draft_reply write n p); intros H; inversion H. now do 2 eexists.
  - intros H; inversion H. now do 2 eexists.
Qed.

End with_drafter.

Lemma map_snd_combine_seq {A B : Type} (g : A -> B) (l : list A) (start : nat) :
  List.map (fun ne : nat * A => g (snd ne)) (combine (seq start (length l)) l) = List.map g l.
Proof.
  revert start. induction l as [| x l IH]; intros start; [reflexivity |].
  cbn. now rewrite IH.
Qed.

Lemma combine_seq_lookup {A : Type} (l : list A) (start n : nat) (x : A) :
  l !! n = Some x -> combine (seq start (length l)) l !! n = Some ((start + n)%nat, x).
Proof.
  revert start n. induction l as [| y l IH]; intros start n H; [discriminate |].
  destruct n as [| n]; simpl in *.
  - inversion H. now rewrite Nat.add_0_r.
  - rewrite (IH (S start) n H). do 2 f_equal. lia.
Qed.

(** The drafts written by the service, one by one. *)
Lemma message_drafts_return write (posts : list post) (ms : list draft) :
  message_drafts write posts = Return ms ->
  length ms = length (List.filter needs_message posts) /\
  forall n p, List.filter needs_message posts !! n = Some p ->
              exists d, ms !! n = Some d /\
                        written_draft write n (message_entry p) = Return d.
Proof.
  unfold message_drafts. intros H. apply mapM_return in H as [Hlen Hget].
  rewrite length_combine, length_seq, length_map, Nat.min_id in Hlen.
  split; [exact Hlen |]. intros n p Hp.
  apply (Hget n (n, message_entry p)).
  erewrite combine_seq_lookup; [reflexivity |]. now rewrite map_lookup, Hp.
Qed.

Lemma message_drafts_raise write (posts : list post) (e : exn) :
  message_drafts write posts = Raise e ->
  exists n p, List.filter needs_message posts !! n = Some p /\
              written_draft write n (message_entry p) = Raise e.
Proof.
  unfold message_drafts. intros H.
  apply mapM_raise in H as (i & [n entry] & Hi & He). cbn [fst snd] in He.
  destruct (lookup_lt_is_Some_2 (List.map message_entry (List.filter needs_message posts)) i)
    as [entry' Hentry].
  { apply lookup_lt_Some in Hi. rewrite length_combine, length_seq in Hi. lia. }
  rewrite (combine_seq_lookup _ 0 _ _ Hentry) in Hi. cbn in Hi.
  inversion Hi; subst n entry'. clear Hi.
  rewrite map_lookup in Hentry.
  destruct (List.filter needs_message posts !! i) as [p |] eqn:Hp; [| discriminate].
  inversion Hentry; subst entry. now exists i, p.
Qed.

Lemma message_drafts_total write (posts : list post) :
  (forall n p, List.filter needs_message posts !! n = Some p ->
     exists d, written_draft write n (message_entry p) = Return d) ->
  exists ms, message_drafts write posts = Return ms.
Proof.
  intros Hall. destruct (message_drafts write posts) as [e | ms] eqn:Hm; [| now exists ms].
  apply message_drafts_raise in Hm as (n & p & Hp & He).
  destruct (Hall n p Hp) as [d Hd]. congruence.
Qed.

(** X3: when [draft_outreach] returns, it gives exactly one draft for every
    post that the classifier places in a tier and none for the others; the
    content ideas come first and the drafts written by the service after
    them, each group in the order of the posts; the content ideas do not
    depend on the service, carry an empty message and the post's reason
    behind "Content idea: "; every draft has one of the three action types.
    It returns when every reply kept for a post is false as a Boolean or an
    object, and raises [AttributeError] otherwise. *)
Theorem draft_outreach_structure :
  forall write posts,
    draft_outreach write posts =
      (ms ← message_drafts write posts; mret (idea_drafts posts ++ ms)%list) /\
    (forall drafts,
       draft_outreach write posts = Return drafts ->
       length drafts =
         length (List.filter (fun p => bool_decide (classify_outreach_action p <> None)) posts) /\
       List.map d_url drafts =
         (List.map url (List.filter is_content_idea posts) ++
          List.map url (List.filter needs_message posts))%list /\
       Forall (fun d => In (action_type d) ["dm"; "comment"; "content_idea"]) drafts) /\
    Forall (fun d => action_type d = "content_idea" /\ draft_message d = VStr "" /\
                     exists why, reason_for_outreach d = VStr ("Content idea: " ++ why))
           (idea_drafts posts) /\
    ((forall n p, List.filter needs_message posts !! n = Some p ->
        truthy (kept_draft_reply write n p) = true ->
        is_object (kept_draft_reply write n p) = true) ->
     exists drafts, draft_outreach write posts = Return drafts) /\
    (forall e,
       draft_outreach write posts = Raise e ->
       e = AttributeError /\
       exists n p, List.filter needs_message posts !! n = Some p /\
                   truthy (kept_draft_reply write n p) = true /\
                   is_object (kept_draft_reply write n p) = false).
Proof.
  intros write posts.
  pose proof (draft_outreach_split write posts) as Hsplit.
  split; [exact Hsplit |].
  assert (Hideas : Forall (fun d => action_type d = "content_idea" /\ draft_message d = VStr "" /\
                                    exists why, reason_for_outreach d = VStr ("Content idea: " ++ why))
                          (idea_drafts posts)).
  { unfold idea_drafts. apply List.Forall_map, List.Forall_forall.
    intros p _. repeat split. eexists. reflexivity. }
  split; [| split; [exact Hideas |]].
  { intros drafts Hrun. rewrite Hsplit in Hrun.
    destruct (message_drafts write posts) as [e | ms] eqn:Hm; [discriminate |].
    inversion Hrun; subst drafts. clear Hrun.
    destruct (message_drafts_return write posts ms Hm) as [Hlen Hget].
    assert (Hms : forall n d, ms !! n = Some d ->
              exists p message reason,
                List.filter needs_message posts !! n = Some p /\
                d = message_draft p message reason).
    { intros n d Hd.
      destruct (lookup_lt_is_Some_2 (List.filter needs_message posts) n) as [p Hp].
      { rewrite <- Hlen. eapply lookup_lt_Some; eassumption. }
      destruct (Hget n p Hp) as (d' & Hd' & Hw). rewrite Hd in Hd'. inversion Hd'; subst d'.
      destruct (written_draft_returns write n p d Hw) as (message & reason & ->).
      now exists p, message, reason. }
    split; [| split].
    - rewrite length_app, Hlen. unfold idea_drafts. rewrite length_map.
      apply filter_split_length.
    - rewrite List.map_app. f_equal.
      + unfold idea_drafts. now rewrite List.map_map.
      + apply list_eq. intros n. rewrite !map_lookup.
        destruct (ms !! n) as [d |] eqn:Hd.
        * destruct (Hms n d Hd) as (p & message & reason & Hp & ->). now rewrite Hp.
        * apply lookup_ge_None in Hd. rewrite Hlen in Hd.
          apply lookup_ge_None in Hd. now rewrite Hd.
    - apply Forall_app. split.
      + eapply List.Forall_impl; [| exact Hideas]. intros d (-> & _). simpl. tauto.
      + apply Forall_lookup. intros n d Hd.
        destruct (Hms n d Hd) as (p & message & reason & Hp & ->).
        apply list_elem_of_lookup_2, list_elem_of_In, filter_In in Hp as [_ Hp].
        unfold needs_message in Hp. cbn [message_draft action_type].
        destruct (classify_outreach_action_values p) as [Hc | [Hc | [Hc | Hc]]];
          rewrite Hc in *; [discriminate | simpl; tauto ..]. }
  split.
  - intros Hobj. rewrite Hsplit.
    destruct (message_drafts_total write posts) as [ms ->]; [| now eexists].
    intros n p Hp. rewrite written_draft_cases. cbn zeta.
    specialize (Hobj n p Hp).
    destruct (truthy _); [| now eexists].
    destruct (kept_draft_reply write n p); try (specialize (Hobj eq_refl); discriminate).
    now eexists.
  - intros e Hrun. rewrite Hsplit in Hrun.
    destruct (message_drafts write posts) as [e' | ms] eqn:Hm; [| discriminate].
    inversion Hrun; subst e'.
    apply message_drafts_raise in Hm as (n & p & Hp & He).
    apply written_draft_raises in He as (-> & Ht & Ho).
    split; [reflexivity |]. now exists n, p.
Qed.

Lemma draft_outreach_structure_witness :
  exists drafts,
    draft_outreach drafter_down [dm_post; content_post] = Return drafts /\
    List.map d_url drafts = [url content_post; url dm_post].
Proof.
  destruct (proj1 (proj2 (proj2 (proj2 (draft_outreach_structure
                                          drafter_down [dm_post; content_post])))))
    as [drafts Hrun].
  - intros n p _ Ht. vm_compute in Ht. discriminate Ht.
  - exists drafts. split; [exact Hrun |].
    exact (proj1 (proj2 (proj1 (proj2 (draft_outreach_structure
                                         drafter_down [dm_post; content_post]))
                               drafts Hrun))).
Defined.

(** X4: the reply kept for a post that needs a message is [None] when the
    three attempts raise, and otherwise the value of the first attempt that
    returns.  When it is true as a Boolean and not an object (a non-empty
    list or string, a number other than zero, [true]), [draft_outreach]
    raises [AttributeError] and returns no draft at all.  When
    [draft_outreach] returns, the post at position [n] among those that
    need a message has its draft after the content ideas, with its url,
    title, score and tier; a reply that is false as a Boolean ([None], an
    empty object, list or string, zero, [false]) gives "[Draft generation
    failed]" and "Draft generation failed"; a non-empty object gives the
    values it holds under the two keys, whatever their type, an absent key
    giving the empty string. *)
Theorem message_draft_of_reply :
  forall write posts n p,
    List.filter needs_message posts !! n = Some p ->
    let msg := draft_user_msg p (get (classify_outreach_action p) "") (_detect_platform p) in
    let parsed := kept_draft_reply write n p in
    ((forall attempt, In attempt [0; 1; 2] -> exists e, write n attempt msg = Raise e) ->
     parsed = VNone) /\
    (forall attempt v,
        0 <= attempt < 3 ->
        (forall earlier, 0 <= earlier < attempt -> exists e, write n earlier msg = Raise e) ->
        write n attempt msg = Return v ->
        parsed = v) /\
    (truthy parsed = true -> is_object parsed = false ->
     draft_outreach write posts = Raise AttributeError) /\
    (forall drafts,
        draft_outreach write posts = Return drafts ->
        exists d,
          drafts !! (length (idea_drafts posts) + n)%nat = Some d /\
          d_url d = url p /\ post_title d = title p /\
          d_intent_score d = get (intent_score p) 0 /\
          Some (action_type d) = classify_outreach_action p /\
          (truthy parsed = false ->
           draft_message d = VStr "[Draft generation failed]" /\
           reason_for_outreach d = VStr "Draft generation failed") /\
          (forall items,
              parsed = VDict items -> truthy parsed = true ->
              draft_message d = default (VStr "") (dict_get items "draft_message") /\
              reason_for_outreach d = default (VStr "") (dict_get items "reason_for_outreach"))).
Proof.
  intros write posts n p Hp msg parsed.
  assert (Hparsed : parsed = kept_draft_reply write n p) by reflexivity.
  clearbody parsed.
  split.
  { intros Hfail. rewrite Hparsed. unfold kept_draft_reply. fold msg.
    change (py_range 0 3) with [0; 1; 2].
    apply (draft_attempts_all_raise write n msg _ Hfail). }
  split.
  { intros attempt v Hrange Hearlier Hret. rewrite Hparsed. unfold kept_draft_reply. fold msg.
    apply (draft_first_return_kept write n msg attempt v Hrange Hearlier Hret). }
  pose proof (written_draft_cases write n p) as Hcases. cbn zeta in Hcases.
  rewrite <- Hparsed in Hcases.
  split.
  { intros Ht Ho.
    assert (Hw : written_draft write n (message_entry p) = Raise AttributeError).
    { rewrite Hcases, Ht. now destruct parsed. }
    rewrite draft_outreach_split.
    destruct (message_drafts write posts) as [e | ms] eqn:Hm.
    - apply message_drafts_raise in Hm as (n' & p' & _ & He).
      apply written_draft_raises in He as (-> & _). reflexivity.
    - destruct (message_drafts_return write posts ms Hm) as [_ Hget].
      destruct (Hget n p Hp) as (d & _ & Hd). congruence. }
  intros drafts Hrun. rewrite draft_outreach_split in Hrun.
  destruct (message_drafts write posts) as [e | ms] eqn:Hm; [discriminate |].
  inversion Hrun; subst drafts. clear Hrun.
  destruct (message_drafts_return write posts ms Hm) as [_ Hget].
  destruct (Hget n p Hp) as (d & Hd & Hw).
  exists d. split.
  { rewrite lookup_app_r by lia.
    now replace (length (idea_drafts posts) + n - length (idea_drafts posts))%nat with n by lia. }
  rewrite Hcases in Hw.
  assert (Haction : Some (get (classify_outreach_action p) "") = classify_outreach_action p).
  { apply list_elem_of_lookup_2, list_elem_of_In, filter_In in Hp as [_ Hp].
    unfold needs_message in Hp. now destruct (classify_outreach_action p). }
  destruct (truthy parsed) eqn:Ht.
  - destruct parsed as [| | | | | | items]; try discriminate Hw.
    inversion Hw; subst d.
    cbn [message_draft d_url post_title d_intent_score action_type draft_message
         reason_for_outreach].
    split; [reflexivity |]. split; [reflexivity |]. split; [reflexivity |].
    split; [exact Haction |]. split; [intros Hf; discriminate Hf |].
    intros items' Heq _. inversion Heq; subst items'. split; reflexivity.
  - inversion Hw; subst d.
    cbn [message_draft d_url post_title d_intent_score action_type draft_message
         reason_for_outreach].
    split; [reflexivity |]. split; [reflexivity |]. split; [reflexivity |].
    split; [exact Haction |]. split; [intros _; split; reflexivity |].
    intros items' _ Hf. discriminate Hf.
Qed.

Lemma message_draft_of_reply_witness :
  exists d,
    draft_outreach drafter_down [dm_post] = Return [d] /\
    draft_message d = VStr "[Draft generation failed]" /\
    reason_for_outreach d = VStr "Draft generation failed".
Proof.
  destruct (message_draft_of_reply drafter_down [dm_post] 0 dm_post eq_refl)
    as (_ & _ & _ & Hd).
  destruct (Hd [message_draft dm_post (VStr "[Draft generation failed]")
                              (VStr "Draft generation failed")] eq_refl)
    as (d & Hget & _ & _ & _ & _ & Hfail & _).
  exists d. inversion Hget; subst d. split; [reflexivity |].
  apply Hfail. reflexivity.
Defined.

Lemma filter_none {A : Type} (f : A -> bool) (l : list A) :
  (forall x, In x l -> f x = false) -> List.filter f l = [].
Proof.
  induction l as [| x l IH]; intros H; [reflexivity |].
  cbn. rewrite (H x (or_introl eq_refl)). apply IH. intros; apply H; now right.
Qed.

Lemma low_score_not_classified (p : post) :
  get (intent_score p) 0 < 60 -> classify_outreach_action p = None.
Proof.
  intros Hlow. unfold classify_outreach_action, DM_MIN_SCORE, COMMENT_MIN_SCORE,
    CONTENT_NOTE_MIN_SCORE.
  destruct (Z.geb_spec (get (intent_score p) 0) 80); [lia |].
  destruct (Z.geb_spec (get (intent_score p) 0) 70); [lia |].
  destruct (Z.geb_spec (get (intent_score p) 0) 60); [lia |].
  reflexivity.
Qed.

Lemma no_draft_below_60 write (posts : list post) :
  Forall (fun p => get (intent_score p) 0 < 60) posts ->
  draft_outreach write posts = Return [].
Proof.
  intros Hlow. rewrite draft_outreach_split.
  assert (Hi : List.filter is_content_idea posts = []).
  { apply filter_none. intros p Hp. rewrite List.Forall_forall in Hlow.
    unfold is_content_idea. now rewrite (low_score_not_classified p (Hlow p Hp)). }
  assert (Hm : List.filter needs_message posts = []).
  { apply filter_none. intros p Hp. rewrite List.Forall_forall in Hlow.
    unfold needs_message. now rewrite (low_score_not_classified p (Hlow p Hp)). }
  unfold idea_drafts, message_drafts. now rewrite Hi, Hm.
Qed.

(** X5: a post without [intent_score] or without [recommended_action] is
    placed in no tier; posts scoring below 60 give no draft at all; so when
    the scoring service is down, the scored posts give no draft. *)
Theorem no_draft_without_score :
  (forall p, intent_score p = None -> classify_outreach_action p = None) /\
  (forall p, recommended_action p = None -> classify_outreach_action p = None) /\
  (forall write posts,
      Forall (fun p => get (intent_score p) 0 < 60) posts ->
      draft_outreach write posts = Return []) /\
  (forall complete write posts,
      (forall bn attempt msg, exists e, complete bn attempt msg = Raise e) ->
      exists scored,
        scorer.score_opportunities complete posts = Return scored /\
        draft_outreach write scored = Return []).
Proof.
  split.
  { intros p Hs. apply low_score_not_classified. rewrite Hs. simpl. lia. }
  split.
  { intros p Ha. unfold classify_outreach_action. rewrite Ha. cbn [get].
    now rewrite !andb_false_r. }
  split; [exact no_draft_below_60 |].
  intros complete write posts Hdown.
  destruct (score_opportunities_lookup complete posts) as (scored & Hrun & Hlen & Hget).
  exists scored. split; [exact Hrun |].
  apply no_draft_below_60, Forall_lookup. intros i q Hq.
  destruct (lookup_lt_is_Some_2 posts i) as [p Hp].
  { rewrite <- Hlen. eapply lookup_lt_Some; eassumption. }
  rewrite (Hget i p Hp) in Hq. inversion Hq.
  unfold scored_post, reply_for.
  rewrite (attempts_all_raise complete _ _ _ (fun a _ => Hdown _ a _)).
  simpl. lia.
Qed.

Lemma no_draft_without_score_witness :
  exists scored,
    scorer.score_opportunities service_down [gre_post; toefl_post] = Return scored /\
    draft_outreach drafter_down scored = Return [].
Proof.
  apply (proj2 (proj2 (proj2 no_draft_without_score))).
  intros bn attempt msg. exists OtherException. reflexivity.
Defined.

End outreach_facts.

(** ** More on the intent scorer *)

Section scorer_more.

Import scorer.

Lemma build_user_message_lookup (batch : list post) (i : nat) (p : post) :
  batch !! i = Some p ->
  _build_user_message batch !! i =
  Some {| rq_id := Z.of_nat i; rq_source := source p; rq_title := title p;
          rq_snippet := str_prefix 300 (snippet p) |}.
Proof.
  intros H. unfold _build_user_message.
  now rewrite map_lookup, (enumerate_lookup _ _ _ H).
Qed.

Lemma batch_of_length_le {A : Type} (l : list A) (j : nat) : (length (batch_of l j) <= 5)%nat.
Proof. unfold batch_of. rewrite length_firstn. lia. Qed.

(** X6: the request sent for a batch has one entry per post, in order,
    numbered from 0; an entry carries the source and title of its post and
    the first 300 characters (code points) of its snippet; in the requests
    that [score_opportunities] sends, the numbers stay below 5. *)
Theorem build_user_message_bounds :
  forall batch,
    length (_build_user_message batch) = length batch /\
    (forall i p, batch !! i = Some p ->
       exists rq, _build_user_message batch !! i = Some rq /\
                  rq_id rq = Z.of_nat i /\
                  rq_source rq = source p /\ rq_title rq = title p /\
                  chars (rq_snippet rq) = firstn 300 (chars (snippet p)) /\
                  (len (rq_snippet rq) <= 300)%nat /\
                  exists rest, snippet p = rq_snippet rq ++ rest) /\
    (forall posts j rq,
       batch = batch_of posts j -> In rq (_build_user_message batch) ->
       0 <= rq_id rq < 5).
Proof.
  intros batch.
  assert (Hlen : length (_build_user_message batch) = length batch).
  { unfold _build_user_message. now rewrite length_map, enumerate_length. }
  split; [exact Hlen |]. split.
  - intros i p Hp. eexists. split; [apply build_user_message_lookup, Hp |].
    cbn [rq_id rq_source rq_title rq_snippet].
    split; [reflexivity |]. split; [reflexivity |]. split; [reflexivity |]. split; [| split].
    + apply chars_str_prefix.
    + rewrite str_prefix_length. lia.
    + apply str_prefix_is_prefix.
  - intros posts j rq -> Hin.
    apply list_elem_of_In, list_elem_of_lookup in Hin as [i Hi].
    assert (Hlt : (i < length (batch_of posts j))%nat).
    { rewrite <- Hlen. eapply lookup_lt_Some; eassumption. }
    destruct (lookup_lt_is_Some_2 _ _ Hlt) as [p Hp].
    rewrite (build_user_message_lookup _ _ _ Hp) in Hi. inversion Hi. cbn.
    pose proof (batch_of_length_le posts j). lia.
Qed.

Lemma build_user_message_bounds_witness :
  exists rq,
    _build_user_message [gre_post; toefl_post] !! 1%nat = Some rq /\
    rq_id rq = 1 /\ (len (rq_snippet rq) <= 300)%nat.
Proof.
  destruct (proj1 (proj2 (build_user_message_bounds [gre_post; toefl_post]))
                  1%nat toefl_post eq_refl)
    as (rq & Hrq & Hid & _ & _ & _ & Hlen & _).
  exists rq. repeat split; assumption.
Defined.

(** X7: the loop over [range(0, len(posts), 5)] cuts the posts into
    consecutive batches that together are the input; there are
    ceil(len / 5) of them, none is empty, none has more than 5 posts, and
    they are numbered 1, 2, 3, ... *)
Theorem batches_partition_posts :
  forall posts : list post,
    let starts := range_step (Z.of_nat (length posts)) 5 in
    concat (List.map (fun start => slice_batch start 5 posts) starts) = posts /\
    length starts = ((length posts + 4) / 5)%nat /\
    Forall (fun start => (1 <= length (slice_batch start 5 posts) <= 5)%nat) starts /\
    List.map (fun start => start / 5 + 1) starts = List.map Z.of_nat (seq 1 (length starts)).
Proof.
  intros posts starts. subst starts. rewrite range_step_5.
  set (k := ((length posts + 4) / 5)%nat).
  assert (Hk : (length posts <= 5 * k)%nat).
  { subst k. pose proof (Nat.div_mod_eq (length posts + 4) 5).
    pose proof (Nat.mod_upper_bound (length posts + 4) 5). lia. }
  assert (Hk' : (5 * k < length posts + 5)%nat).
  { subst k. pose proof (Nat.div_mod_eq (length posts + 4) 5). lia. }
  assert (Hslice : forall j, slice_batch (5 * Z.of_nat j) 5 posts = batch_of posts j).
  { intros j. unfold slice_batch, batch_of. do 2 f_equal. lia. }
  split; [| split; [| split]].
  - rewrite List.map_map.
    erewrite List.map_ext by (intros j; apply Hslice).
    destruct (batched_spec (fun (_ : nat) (b : list post) => b) k posts
                           (fun _ _ => eq_refl) Hk) as [Hlen Hget].
    apply list_eq. intros i. fold (batched (fun (_ : nat) (b : list post) => b) k posts).
    destruct (Nat.lt_ge_cases i (length posts)) as [Hlt | Hge].
    + rewrite (Hget i Hlt). apply batch_of_lookup.
    + rewrite (proj2 (lookup_ge_None _ _)) by lia.
      symmetry. now apply lookup_ge_None.
  - now rewrite length_map, length_seq.
  - apply List.Forall_map, List.Forall_forall. intros j Hj.
    apply in_seq in Hj. rewrite Hslice. unfold batch_of.
    rewrite length_firstn, length_skipn. lia.
  - rewrite length_map, length_seq, List.map_map.
    rewrite <- seq_shift, List.map_map. apply List.map_ext. intros j.
    rewrite (Z.mul_comm 5), Z.div_mul by lia. lia.
Qed.









End scorer_more.

(** ** More on the keyword refiner *)

Section refiner_more.

Import scorer.

Lemma keep_new_other (lower : string -> string) (original_lower : gset string)
      (ks : list json_elem) :
  In JOther ks -> exists e, keep_new lower original_lower ks = Raise e.
Proof.
  induction ks as [| k ks IH]; intros Hin; [destruct Hin |].
  destruct k as [s |].
  - destruct Hin as [Heq | Hin]; [discriminate |].
    destruct (IH Hin) as [e He]. exists e. cbn. now rewrite He.
  - exists AttributeError. reflexivity.
Qed.

(** X11: one element of the reply that is not a string discards the whole
    reply: the refiner returns the empty list, also when the other elements
    are new keywords. *)
Theorem refiner_discards_mixed_reply :
  forall lower refine original posts ks,
    refine (refine_request original posts) = Return ks ->
    In JOther ks ->
    generate_refined_keywords lower refine original posts = [].
Proof.
  intros lower refine original posts ks Hret Hin.
  unfold generate_refined_keywords. rewrite Hret. cbn.
  destruct (keep_new_other lower (list_to_set (List.map lower original)) ks Hin) as [e ->].
  reflexivity.
Qed.

Lemma refiner_discards_mixed_reply_witness :
  generate_refined_keywords ascii_lower
    (fun _ => Return [JStr "TOEFL tips"; JOther; JStr "IELTS"])
    ["GRE prep"] [gre_post] = [].
Proof.
  apply (refiner_discards_mixed_reply ascii_lower _ _ _
           [JStr "TOEFL tips"; JOther; JStr "IELTS"] eq_refl).
  simpl. tauto.
Defined.

(** X12: the request to the refiner carries the original keywords unchanged
    and a summary of the first ten posts it is given and of no other: at
    most ten summaries, in the order of the posts, each with the first 100
    characters (code points) of the title, and with topic "" and score 0
    for a post that has none. *)
Theorem refine_request_bounds :
  forall original posts,
    let req := refine_request original posts in
    rm_original_keywords req = original /\
    length (rm_high_scoring_posts req) = Nat.min 10 (length posts) /\
    refine_request original (firstn 10 posts) = req /\
    Forall (fun sm => (len (sm_title sm) <= 100)%nat) (rm_high_scoring_posts req) /\
    List.map (fun sm => chars (sm_title sm)) (rm_high_scoring_posts req) =
      List.map (fun p => firstn 100 (chars (title p))) (firstn 10 posts) /\
    List.map sm_score (rm_high_scoring_posts req) = List.map score_of (firstn 10 posts) /\
    (forall i p, (i < 10)%nat -> posts !! i = Some p -> unscored p ->
       exists sm, rm_high_scoring_posts req !! i = Some sm /\
                  sm_topic sm = "" /\ sm_score sm = 0).
Proof.
  intros original posts req. subst req. unfold refine_request.
  cbn [rm_original_keywords rm_high_scoring_posts].
  split; [reflexivity |]. split; [now rewrite length_map, length_firstn |].
  split; [now rewrite firstn_firstn |].
  split.
  { apply List.Forall_map, List.Forall_forall. intros p _. cbn [sm_title].
    rewrite str_prefix_length. lia. }
  split.
  { rewrite List.map_map. apply List.map_ext. intros p. cbn [sm_title].
    apply chars_str_prefix. }
  split; [now rewrite List.map_map |].
  intros i p Hi Hp (Ht & Hs & _). eexists. split.
  - rewrite map_lookup, lookup_take_lt, Hp by assumption. reflexivity.
  - cbn. now rewrite Ht, Hs.
Qed.

Lemma refine_request_bounds_witness :
  exists sm,
    rm_high_scoring_posts (refine_request ["GRE prep"] [gre_post; toefl_post]) !! 1%nat
      = Some sm /\ sm_topic sm = "" /\ sm_score sm = 0.
Proof.
  apply (proj2 (proj2 (proj2 (proj2 (proj2 (proj2
           (refine_request_bounds ["GRE prep"] [gre_post; toefl_post])))))) 1%nat toefl_post).
  - lia.
  - reflexivity.
  - repeat split.
Defined.

End refiner_more.

(** ** The scrapers *)

Section scraper_facts.

Import scrapers.

Lemma collect_consistent (Q : post -> Prop) (acc : collected) (p : post) :
  consistent Q acc -> Q p -> consistent Q (collect acc p).
Proof.
  intros (Hnodup & Hseen & Hall) Hp. unfold collect.
  destruct (decide (url p ∈ fst acc)) as [Hin | Hnew];
    [exact (conj Hnodup (conj Hseen Hall)) |].
  unfold consistent. cbn [fst snd]. rewrite List.map_app. cbn [List.map].
  split; [| split].
  - apply NoDup_app. split; [assumption |]. split; [| apply NoDup_singleton].
    intros u Hu Hu'. apply list_elem_of_In in Hu'. destruct Hu' as [<- | []].
    apply Hnew, Hseen, list_elem_of_In, Hu.
  - intros u. rewrite in_app_iff, elem_of_union, elem_of_singleton, Hseen.
    cbn. intuition congruence.
  - apply Forall_app. split; [assumption | now constructor].
Qed.

Lemma collect_grows (acc : collected) (p : post) (u : string) :
  u ∈ fst acc -> u ∈ fst (collect acc p).
Proof.
  intros Hu. unfold collect. destruct (decide _); [assumption |].
  cbn. apply elem_of_union. now right.
Qed.

Lemma collect_records (acc : collected) (p : post) : url p ∈ fst (collect acc p).
Proof.
  unfold collect. destruct (decide _); [assumption |].
  cbn. apply elem_of_union. left. now apply elem_of_singleton.
Qed.

(** Folding a step that keeps the state consistent, only adds URLs, and
    records what it is given. *)
Lemma fold_consistent {X : Type} (Q : post -> Prop) (step : collected -> X -> collected)
      (l : list X) (acc : collected) :
  (forall acc x, In x l -> consistent Q acc -> consistent Q (step acc x)) ->
  consistent Q acc -> consistent Q (fold_left step l acc).
Proof.
  revert acc. induction l as [| x l IH]; intros acc Hstep Hacc; [assumption |].
  cbn. apply IH.
  - intros acc' y Hy. apply Hstep. now right.
  - apply Hstep; [now left | assumption].
Qed.

Lemma fold_grows {X : Type} (step : collected -> X -> collected)
      (l : list X) (acc : collected) (u : string) :
  (forall acc x, u ∈ fst acc -> u ∈ fst (step acc x)) ->
  u ∈ fst acc -> u ∈ fst (fold_left step l acc).
Proof.
  intros Hstep. revert acc. induction l as [| x l IH]; intros acc Hacc; [assumption |].
  cbn. apply IH, Hstep, Hacc.
Qed.

Lemma fold_records {X : Type} (step : collected -> X -> collected)
      (l : list X) (acc : collected) (u : string) (x : X) :
  (forall acc y, u ∈ fst acc -> u ∈ fst (step acc y)) ->
  (forall acc, u ∈ fst (step acc x)) ->
  In x l -> u ∈ fst (fold_left step l acc).
Proof.
  intros Hgrow Hrec. revert acc. induction l as [| y l IH]; intros acc Hin; [destruct Hin |].
  cbn. destruct Hin as [-> | Hin].
  - apply fold_grows; [assumption | apply Hrec].
  - now apply IH.
Qed.

Lemma in_combine_seq {A : Type} (l : list A) (k : nat) (x : A) :
  l !! k = Some x -> In (k, x) (combine (seq 0 (length l)) l).
Proof.
  intros H. apply list_elem_of_In. eapply list_elem_of_lookup_2.
  now apply (combine_seq_lookup l 0 k x).
Qed.

Lemma empty_consistent (Q : post -> Prop) : consistent Q (∅, []).
Proof.
  repeat split; cbn; try constructor.
  - intros Hu. now apply not_elem_of_empty in Hu.
  - intros [].
Qed.

(** *** The web scraper *)

Section with_ddgs.

Variable ddgs : nat -> nat -> Z -> string -> outcome (list hit).
Variable keywords : list string.

Lemma scrape_query_consistent (k t : nat) (kw query_template : string) (acc : collected) :
  keywords !! k = Some kw -> queries_per_keyword !! t = Some query_template ->
  consistent (found_by ddgs keywords) acc -> consistent (found_by ddgs keywords) (scrape_query ddgs k kw acc (t, query_template)).
Proof.
  intros Hk Ht Hacc. unfold scrape_query. cbn [fst snd].
  apply fold_consistent; [| assumption].
  intros acc' item Hitem Hacc'. apply collect_consistent; [assumption |].
  exists k, t, item. split; [| reflexivity].
  unfold search_results. now rewrite Hk, Ht.
Qed.

Lemma scrape_query_grows (k : nat) (kw : string) (acc : collected) (tq : nat * string)
      (u : string) :
  u ∈ fst acc -> u ∈ fst (scrape_query ddgs k kw acc tq).
Proof.
  intros Hu. unfold scrape_query. apply fold_grows; [| assumption].
  intros; now apply collect_grows.
Qed.

Lemma scrape_query_records (k t : nat) (kw query_template : string) (acc : collected)
      (item : search_item) :
  In item (_search (ddgs k t) (format query_template kw)) ->
  it_url item ∈ fst (scrape_query ddgs k kw acc (t, query_template)).
Proof.
  intros Hin. unfold scrape_query. cbn [fst snd].
  apply (fold_records _ _ _ _ item); [| | assumption].
  - intros; now apply collect_grows.
  - intros acc'. apply (collect_records acc' (web_post item)).
Qed.

Lemma scrape_keyword_consistent (k : nat) (kw : string) (acc : collected) :
  keywords !! k = Some kw ->
  consistent (found_by ddgs keywords) acc -> consistent (found_by ddgs keywords) (scrape_keyword ddgs acc (k, kw)).
Proof.
  intros Hk Hacc. unfold scrape_keyword. cbn [fst snd].
  apply fold_consistent; [| assumption].
  intros acc' [t tpl] Hin Hacc'.
  apply list_elem_of_In, list_elem_of_lookup in Hin as [i Hi].
  assert (Ht : queries_per_keyword !! t = Some tpl).
  { destruct (queries_per_keyword !! i) as [x |] eqn:Hx.
    - rewrite (combine_seq_lookup _ 0 i x Hx) in Hi. inversion Hi; subst. exact Hx.
    - apply lookup_ge_None in Hx. apply lookup_lt_Some in Hi.
      rewrite length_combine, length_seq in Hi. lia. }
  now apply scrape_query_consistent.
Qed.

Lemma scrape_keyword_grows (acc : collected) (kk : nat * string) (u : string) :
  u ∈ fst acc -> u ∈ fst (scrape_keyword ddgs acc kk).
Proof.
  intros Hu. unfold scrape_keyword. apply fold_grows; [| assumption].
  intros; now apply scrape_query_grows.
Qed.

Lemma scrape_keyword_records (k t : nat) (kw query_template : string) (acc : collected)
      (item : search_item) :
  queries_per_keyword !! t = Some query_template ->
  In item (_search (ddgs k t) (format query_template kw)) ->
  it_url item ∈ fst (scrape_keyword ddgs acc (k, kw)).
Proof.
  intros Ht Hin. unfold scrape_keyword. cbn [fst snd].
  apply (fold_records _ _ _ _ (t, query_template)).
  - intros; now apply scrape_query_grows.
  - intros acc'. now apply scrape_query_records.
  - now apply in_combine_seq.
Qed.

Lemma scrape_web_state :
  let final := fold_left (scrape_keyword ddgs)
                         (combine (seq 0 (length keywords)) keywords) (∅, []) in
  consistent (found_by ddgs keywords) final /\
  forall k t item, In item (search_results ddgs keywords k t) -> it_url item ∈ fst final.
Proof.
  cbn zeta. split.
  - apply fold_consistent; [| apply empty_consistent].
    intros acc [k kw] Hin Hacc.
    apply list_elem_of_In, list_elem_of_lookup in Hin as [i Hi].
    assert (Hk : keywords !! k = Some kw).
    { destruct (keywords !! i) as [x |] eqn:Hx.
      - rewrite (combine_seq_lookup _ 0 i x Hx) in Hi. inversion Hi; subst. exact Hx.
      - apply lookup_ge_None in Hx. apply lookup_lt_Some in Hi.
        rewrite length_combine, length_seq in Hi. lia. }
    now apply scrape_keyword_consistent.
  - intros k t item Hin. unfold search_results in Hin.
    destruct (keywords !! k) as [kw |] eqn:Hk; [| destruct Hin].
    destruct (queries_per_keyword !! t) as [tpl |] eqn:Ht; [| destruct Hin].
    apply (fold_records _ _ _ _ (k, kw)).
    + intros; now apply scrape_keyword_grows.
    + intros acc. now apply (scrape_keyword_records k t kw tpl).
    + now apply in_combine_seq.
Qed.

End with_ddgs.

Lemma search_first_return (text : Z -> string -> outcome (list hit)) (query : string)
      (attempt : Z) (hits : list hit) :
  0 <= attempt < 2 ->
  (forall earlier, 0 <= earlier < attempt -> exists e, text earlier query = Raise e) ->
  text attempt query = Return hits ->
  _search text query =
  List.map (fun r => {| it_url := h_href r; it_title := h_title r;
                        it_snippet := get (h_body r) "" |}) hits.
Proof.
  intros Hrange Hearlier Hret. unfold _search. change (py_range 0 2) with [0; 1].
  assert (Hcases : attempt = 0 \/ attempt = 1) by lia.
  destruct Hcases as [-> | ->]; cbn.
  - now rewrite Hret.
  - destruct (Hearlier 0 ltac:(lia)) as [e ->]. now rewrite Hret.
Qed.

(** X13: the list returned by [scrape_web] has no two posts with the same
    URL; each of its posts is built from a result of one of the searches, is
    unscored and carries the source that [_classify_source] gives its URL;
    the URL of every result of the first attempt (of two) that returns, for
    any keyword and any of the three templates, is in the list; and when
    every search raises, the list is empty. *)
Theorem scrape_web_results :
  forall ddgs keywords,
    NoDup (List.map url (scrape_web ddgs keywords)) /\
    Forall (fun p => found_by ddgs keywords p /\ unscored p /\
                     source p = _classify_source (url p))
           (scrape_web ddgs keywords) /\
    (forall k kw t query_template attempt hits h,
        keywords !! k = Some kw -> queries_per_keyword !! t = Some query_template ->
        0 <= attempt < 2 ->
        (forall earlier, 0 <= earlier < attempt ->
           exists e, ddgs k t earlier (kw ++ query_template) = Raise e) ->
        ddgs k t attempt (kw ++ query_template) = Return hits ->
        In h hits ->
        In (h_href h) (List.map url (scrape_web ddgs keywords))) /\
    ((forall k t attempt query, exists e, ddgs k t attempt query = Raise e) ->
     scrape_web ddgs keywords = []).
Proof.
  intros ddgs keywords.
  destruct (scrape_web_state ddgs keywords) as ((Hnodup & Hseen & Hall) & Hrec).
  fold (scrape_web ddgs keywords) in Hnodup, Hseen, Hall.
  split; [exact Hnodup |]. split.
  { eapply List.Forall_impl; [| exact Hall]. intros p Hp. split; [exact Hp |].
    destruct Hp as (k & t & item & _ & ->). split; [repeat split | reflexivity]. }
  split.
  { intros k kw t tpl attempt hits h Hk Ht Hrange Hearlier Hret Hh.
    apply Hseen.
    apply (Hrec k t {| it_url := h_href h; it_title := h_title h;
                       it_snippet := get (h_body h) "" |}).
    unfold search_results. rewrite Hk, Ht. unfold format.
    rewrite (search_first_return _ _ attempt hits Hrange Hearlier Hret).
    now apply (in_map (fun r => {| it_url := h_href r; it_title := h_title r;
                                   it_snippet := get (h_body r) "" |})). }
  intros Hdown.
  destruct (scrape_web ddgs keywords) as [| p rest] eqn:Hweb; [reflexivity |].
  exfalso. inversion Hall as [| ? ? (k & t & item & Hin & _) _]; subst.
  unfold search_results in Hin.
  destruct (keywords !! k) as [kw |]; [| destruct Hin].
  destruct (queries_per_keyword !! t) as [tpl |]; [| destruct Hin].
  unfold _search in Hin. change (py_range 0 2) with [0; 1] in Hin. cbn in Hin.
  destruct (Hdown k t 0 (format tpl kw)) as [e He]. rewrite He in Hin.
  destruct (Hdown k t 1 (format tpl kw)) as [e' He']. rewrite He' in Hin.
  destruct Hin.
Qed.

Lemma scrape_web_results_witness :
  In "https://x.com/u/1" (List.map url (scrape_web sample_ddgs ["GRE prep"; "TOEFL"])).
Proof.
  apply (proj1 (proj2 (proj2 (scrape_web_results sample_ddgs ["GRE prep"; "TOEFL"])))
               1%nat "TOEFL" 2%nat " forum OR discussion" 1
               [mkHit "https://www.quora.com/q1" "Q1" (Some "body");
                mkHit "https://x.com/u/1" "T1" None]
               (mkHit "https://x.com/u/1" "T1" None)); try reflexivity.
  - lia.
  - intros earlier Hearlier. assert (earlier = 0) as -> by lia.
    exists OtherException. reflexivity.
  - simpl. tauto.
Defined.

(** *** The Reddit scraper *)

Lemma fold_left_mapped {X Y : Type} (step : collected -> Y -> collected) (g : X -> Y)
      (l : list X) (acc : collected) :
  fold_left (fun acc x => step acc (g x)) l acc = fold_left step (List.map g l) acc.
Proof.
  revert acc. induction l as [| x l IH]; intros acc; [reflexivity |]. cbn. apply IH.
Qed.

Lemma collect_listing_consistent (Q : post -> Prop) (acc : collected) (l : listing) :
  (forall sub, In (sub, true) l -> Q (_submission_to_dict sub)) ->
  consistent Q acc -> consistent Q (collect_listing acc l).
Proof.
  intros HQ Hacc. unfold collect_listing. apply fold_consistent; [| assumption].
  intros acc' [sub recent] Hin Hacc'. cbn [fst snd].
  destruct recent; [| assumption].
  apply collect_consistent; [assumption | now apply HQ].
Qed.

Lemma collect_listing_grows (acc : collected) (l : listing) (u : string) :
  u ∈ fst acc -> u ∈ fst (collect_listing acc l).
Proof.
  intros Hu. unfold collect_listing. apply fold_grows; [| assumption].
  intros acc' [sub recent] Hin. cbn [fst snd]. destruct recent; [| assumption].
  now apply collect_grows.
Qed.

Lemma collect_listing_records (acc : collected) (l : listing) (sub : submission) :
  In (sub, true) l -> url (_submission_to_dict sub) ∈ fst (collect_listing acc l).
Proof.
  intros Hin. unfold collect_listing.
  apply (fold_records _ _ _ _ (sub, true)); [| | assumption].
  - intros acc' [sub' recent] Hu. cbn [fst snd]. destruct recent; [| assumption].
    now apply collect_grows.
  - intros acc'. cbn [fst snd]. apply collect_records.
Qed.

Section with_reddit.

Variable environ : gmap string string.
Variable reddit_subreddit : nat -> string -> outcome subreddit.
Variables keywords subreddits : list string.

Lemma scrape_subreddit_listings (acc : collected) (n : nat) (name : string) (sr : subreddit) :
  reddit_subreddit n name = Return sr ->
  scrape_subreddit reddit_subreddit keywords acc (n, name) =
  fold_left collect_listing (listings_of keywords sr) acc.
Proof.
  intros Hsr. unfold scrape_subreddit, listings_of. cbn [fst snd]. rewrite Hsr.
  rewrite fold_left_app. cbn [fold_left].
  now rewrite (fold_left_mapped collect_listing
                 (fun kk : nat * string => sr_search sr (fst kk) (snd kk))).
Qed.

Lemma scrape_subreddit_consistent (acc : collected) (n : nat) (name : string) :
  subreddits !! n = Some name ->
  consistent (found_on reddit_subreddit keywords subreddits) acc -> consistent (found_on reddit_subreddit keywords subreddits) (scrape_subreddit reddit_subreddit keywords acc (n, name)).
Proof.
  intros Hn Hacc.
  destruct (reddit_subreddit n name) as [e | sr] eqn:Hsr.
  - unfold scrape_subreddit. cbn [fst snd]. now rewrite Hsr.
  - rewrite (scrape_subreddit_listings acc n name sr Hsr).
    apply fold_consistent; [| assumption].
    intros acc' l Hl Hacc'. apply collect_listing_consistent; [| assumption].
    intros sub Hsub. exists n, name, sr, l, sub. now repeat split.
Qed.

Lemma scrape_subreddit_grows (acc : collected) (ns : nat * string) (u : string) :
  u ∈ fst acc -> u ∈ fst (scrape_subreddit reddit_subreddit keywords acc ns).
Proof.
  intros Hu. destruct ns as [n name].
  destruct (reddit_subreddit n name) as [e | sr] eqn:Hsr.
  - unfold scrape_subreddit. cbn [fst snd]. now rewrite Hsr.
  - rewrite (scrape_subreddit_listings acc n name sr Hsr).
    apply fold_grows; [| assumption]. intros; now apply collect_listing_grows.
Qed.

Lemma scrape_subreddit_records (acc : collected) (n : nat) (name : string) (sr : subreddit)
      (l : listing) (sub : submission) :
  reddit_subreddit n name = Return sr ->
  In l (listings_of keywords sr) -> In (sub, true) l ->
  url (_submission_to_dict sub) ∈ fst (scrape_subreddit reddit_subreddit keywords acc (n, name)).
Proof.
  intros Hsr Hl Hsub. rewrite (scrape_subreddit_listings acc n name sr Hsr).
  apply (fold_records _ _ _ _ l); [| | assumption].
  - intros; now apply collect_listing_grows.
  - intros acc'. now apply collect_listing_records.
Qed.

Lemma scrape_reddit_state :
  let final := fold_left (scrape_subreddit reddit_subreddit keywords)
                         (combine (seq 0 (length subreddits)) subreddits) (∅, []) in
  consistent (found_on reddit_subreddit keywords subreddits) final /\
  forall n name sr l sub,
    subreddits !! n = Some name -> reddit_subreddit n name = Return sr ->
    In l (listings_of keywords sr) -> In (sub, true) l ->
    url (_submission_to_dict sub) ∈ fst final.
Proof.
  cbn zeta. split.
  - apply fold_consistent; [| apply empty_consistent].
    intros acc [n name] Hin Hacc.
    apply list_elem_of_In, list_elem_of_lookup in Hin as [i Hi].
    assert (Hn : subreddits !! n = Some name).
    { destruct (subreddits !! i) as [x |] eqn:Hx.
      - rewrite (combine_seq_lookup _ 0 i x Hx) in Hi. inversion Hi; subst. exact Hx.
      - apply lookup_ge_None in Hx. apply lookup_lt_Some in Hi.
        rewrite length_combine, length_seq in Hi. lia. }
    now apply scrape_subreddit_consistent.
  - intros n name sr l sub Hn Hsr Hl Hsub.
    apply (fold_records _ _ _ _ (n, name)).
    + intros; now apply scrape_subreddit_grows.
    + intros acc. now apply (scrape_subreddit_records acc n name sr l sub).
    + now apply in_combine_seq.
Qed.

End with_reddit.

Lemma credentials_incomplete (environ : gmap string string) (k : string) :
  In k required ->
  environ !! k = None \/ environ !! k = Some "" \/
  (exists v, environ !! k = Some v /\ startswith v "your_" = true) ->
  _has_reddit_credentials environ = false.
Proof.
  intros Hk Hbad. unfold _has_reddit_credentials.
  apply not_true_iff_false. intros Hall.
  rewrite forallb_forall in Hall. specialize (Hall k Hk).
  destruct Hbad as [Hnone | [Hempty | (v & Hv & Hyour)]].
  - now rewrite Hnone in Hall.
  - now rewrite Hempty in Hall.
  - rewrite Hv, Hyour in Hall. cbn in Hall. now rewrite andb_false_r in Hall.
Qed.

(** X14: when one of the four Reddit variables is missing, empty or still
    starts with "your_", [scrape_reddit] returns the empty list whatever
    Reddit would answer.  Otherwise its list has no two posts with the same
    URL; each post is built from a submission within the last days that was
    read from a search, hot or new listing of a subreddit that could be
    opened, has source reddit and is unscored; the URL of every such
    submission is in the list, so a subreddit that cannot be opened or a
    listing that breaks off does not lose what the others give. *)
Theorem scrape_reddit_results :
  forall environ reddit_subreddit keywords subreddits,
    (forall k, In k required ->
       environ !! k = None \/ environ !! k = Some "" \/
       (exists v, environ !! k = Some v /\ startswith v "your_" = true) ->
       scrape_reddit environ reddit_subreddit keywords subreddits = []) /\
    NoDup (List.map url (scrape_reddit environ reddit_subreddit keywords subreddits)) /\
    Forall (fun p => found_on reddit_subreddit keywords subreddits p /\
                     source p = "reddit" /\ unscored p)
           (scrape_reddit environ reddit_subreddit keywords subreddits) /\
    (_has_reddit_credentials environ = true ->
     forall n name sr l sub,
       subreddits !! n = Some name -> reddit_subreddit n name = Return sr ->
       In l (listings_of keywords sr) -> In (sub, true) l ->
       In (url (_submission_to_dict sub))
          (List.map url (scrape_reddit environ reddit_subreddit keywords subreddits))).
Proof.
  intros environ reddit_subreddit keywords subreddits.
  destruct (scrape_reddit_state reddit_subreddit keywords subreddits)
    as ((Hnodup & Hseen & Hall) & Hrec).
  split.
  { intros k Hk Hbad. unfold scrape_reddit.
    now rewrite (credentials_incomplete environ k Hk Hbad). }
  unfold scrape_reddit.
  destruct (_has_reddit_credentials environ); cbn [negb].
  - split; [exact Hnodup |]. split.
    + eapply List.Forall_impl; [| exact Hall]. intros p Hp. split; [exact Hp |].
      destruct Hp as (n & name & sr & l & sub & _ & _ & _ & _ & ->).
      split; [reflexivity | repeat split].
    + intros _ n name sr l sub Hn Hsr Hl Hsub. apply Hseen. eapply Hrec; eassumption.
  - split; [constructor |]. split; [constructor | discriminate].
Qed.

Lemma scrape_reddit_results_witness :
  scrape_reddit sample_environ (fun _ _ => Return sample_subreddit) ["GRE prep"] ["GRE"] = [].
Proof.
  apply (proj1 (scrape_reddit_results sample_environ (fun _ _ => Return sample_subreddit)
                                      ["GRE prep"] ["GRE"]) "REDDIT_PASSWORD").
  - simpl. tauto.
  - right. right. exists "your_password". split; reflexivity.
Defined.

End scraper_facts.

(** ** More on the refinement loop *)

Section loop_more.

Import agent.

Variable lower : string -> string.
Variable w : world.
Variable cfg : config.

(** A property of the state that every iteration keeps is kept by the
    loop. *)
Lemma for_loop_invariant (I : state -> Prop) (numbers : list Z) (st st' : state) :
  (forall st, I st -> I (say CompletedAll st)) ->
  (forall iteration st st1 stop,
      In iteration numbers -> all_scored (all_qualified st) -> I st ->
      iteration_body lower w cfg iteration st = Return (st1, stop) -> I st1) ->
  all_scored (all_qualified st) -> I st ->
  for_loop lower w cfg numbers st = Return st' -> I st'.
Proof.
  intros Hsay. revert st.
  induction numbers as [| iteration rest IH]; intros st Hbody Hinv HI Hloop.
  - inversion Hloop. now apply Hsay.
  - destruct (iteration_body_spec lower w cfg iteration st Hinv)
      as (scored & high & st1 & _ & _ & Hrun & _ & _ & _ & _ & _ & Hinv1).
    cbn zeta in Hrun.
    assert (HI1 : I st1) by exact (Hbody iteration st st1 _ (or_introl eq_refl) Hinv HI Hrun).
    cbn [for_loop] in Hloop. rewrite Hrun in Hloop. cbn [mbind outcome_bind] in Hloop.
    destruct (breaks _).
    + now inversion Hloop; subst.
    + apply (IH st1); try assumption.
      intros i s s1 b Hi. apply Hbody. now right.
Qed.

Lemma score_opportunities_urls complete (posts : list post) :
  exists scored,
    scorer.score_opportunities complete posts = Return scored /\
    length scored = length posts /\
    List.map url scored = List.map url posts /\
    Forall has_scoring_fields scored.
Proof.
  destruct (score_opportunities_lookup complete posts) as (scored & Hrun & Hlen & Hget).
  assert (Hupd : forall i p, posts !! i = Some p ->
                             exists d, scored !! i = Some (update p d)).
  { intros i p Hp. rewrite (Hget i p Hp). unfold scored_post.
    destruct (reply_for _ _ _); eexists; reflexivity. }
  exists scored. repeat split; try assumption.
  - apply list_eq. intros i. rewrite !map_lookup.
    destruct (posts !! i) as [p |] eqn:Hp.
    + destruct (Hupd i p Hp) as [d ->]. reflexivity.
    + apply lookup_ge_None in Hp. rewrite <- Hlen in Hp.
      apply lookup_ge_None in Hp. now rewrite Hp.
  - apply Forall_lookup. intros i q Hq.
    destruct (lookup_lt_is_Some_2 posts i) as [p Hp].
    { rewrite <- Hlen. eapply lookup_lt_Some; eassumption. }
    destruct (Hupd i p Hp) as [d Hd]. rewrite Hd in Hq. inversion Hq.
    apply update_has_scoring_fields.
Qed.

Lemma size_add_urls (seen : gset string) (posts : list post) :
  (size (add_urls seen posts) <= size seen + length posts)%nat.
Proof.
  unfold add_urls. revert seen. induction posts as [| p posts IH]; intros seen; cbn; [lia |].
  specialize (IH ({[url p]} ∪ seen)).
  assert (size ({[url p]} ∪ seen) <= S (size seen))%nat.
  { rewrite size_union_alt, size_singleton.
    assert (size (seen ∖ {[url p]}) <= size seen)%nat.
    { apply subseteq_size. intros x Hx. apply elem_of_difference in Hx. tauto. }
    lia. }
  lia.
Qed.

Lemma filter_length_le {A : Type} (f : A -> bool) (l : list A) :
  (length (List.filter f l) <= length l)%nat.
Proof. induction l as [| x l IH]; cbn; [lia |]. destruct (f x); cbn; lia. Qed.

Lemma iteration_keeps_sound (iteration : Z) (st st1 : state) (stop : bool) :
  all_scored (all_qualified st) -> sound_state cfg st ->
  iteration_body lower w cfg iteration st = Return (st1, stop) ->
  sound_state cfg st1.
Proof.
  intros Hinv (Hq & Hsize & Hlen) Hrun.
  destruct (iteration_body_spec lower w cfg iteration st Hinv)
    as (scored & high & st2 & Hscored & _ & Hrun' & _ & Hseen & Htotal & Hqual & _).
  cbn zeta in *. rewrite Hrun in Hrun'. inversion Hrun' as [[Hst Hstop]]. subst st2.
  clear Hrun' Hstop.
  set (iteration_posts := scrape w cfg iteration (current_keywords st)) in *.
  set (new_posts := new_posts_of (all_seen_urls st) iteration_posts) in *.
  destruct (score_opportunities_urls (scoring_service w iteration) new_posts)
    as (scored' & Hscored' & Hslen & Hurls & Hfields).
  rewrite Hscored in Hscored'. inversion Hscored'; subst scored'. clear Hscored'.
  assert (Hnew : (length new_posts <= length iteration_posts)%nat)
    by apply filter_length_le.
  assert (Hold : Forall (fun p => has_scoring_fields p /\ min_intent_score cfg <= score_of p /\
                                  url p ∈ all_seen_urls st1) (all_qualified st)).
  { eapply List.Forall_impl; [| exact Hq]. intros p (Hf & Hm & Hu).
    split; [assumption |]. split; [assumption |].
    rewrite Hseen. apply add_urls_elem. now left. }
  unfold sound_state. rewrite Hqual, Htotal.
  split; [| split].
  - destruct (is_nil new_posts); [assumption |].
    apply Forall_app. split; [assumption |].
    apply List.Forall_forall. intros p Hp. apply filter_In in Hp as [Hp Hmin].
    split; [| split].
    + rewrite List.Forall_forall in Hfields. now apply Hfields.
    + unfold score_of. apply Z.geb_le in Hmin. lia.
    + rewrite Hseen. apply add_urls_elem. right. rewrite <- Hurls. now apply in_map.
  - rewrite Hseen. pose proof (size_add_urls (all_seen_urls st) new_posts). lia.
  - destruct (is_nil new_posts); [lia |].
    rewrite length_app.
    pose proof (filter_length_le
                  (fun p => get (intent_score p) 0 >=? min_intent_score cfg) scored).
    lia.
Qed.

Lemma initial_sound : sound_state cfg (initial cfg).
Proof.
  unfold sound_state, initial. cbn. split; [constructor |].
  rewrite size_empty. lia.
Qed.

Lemma refinement_loop_sound :
  exists st,
    refinement_loop lower w cfg = Return st /\
    all_scored (all_qualified st) /\ sound_state cfg st.
Proof.
  destruct (for_loop_spec lower w cfg (py_range 1 (max_iterations cfg + 1)) (initial cfg))
    as (st & tr & Hloop & Hinv & _); [constructor |].
  exists st. split; [exact Hloop |]. split; [exact Hinv |].
  apply (for_loop_invariant (sound_state cfg) (py_range 1 (max_iterations cfg + 1))
                            (initial cfg) st).
  - intros st0 H. exact H.
  - intros iteration st0 st1 stop _. apply iteration_keeps_sound.
  - constructor.
  - apply initial_sound.
  - exact Hloop.
Qed.

Lemma slice_to_subset {A : Type} (n : Z) (l : list A) (x : A) :
  In x (slice_to n l) -> In x l.
Proof.
  assert (Hfirst : forall k, In x (firstn k l) -> In x l).
  { intros k H. rewrite <- (firstn_skipn k l). apply in_or_app. now left. }
  unfold slice_to. destruct (0 <=? n); apply Hfirst.
Qed.


End loop_more.


(** ** The trace of a run *)

Section trace_facts.

Import agent.

Variable lower : string -> string.
Variable w : world.
Variable cfg : config.






End trace_facts.


Lemma py_range_cons (lo hi : Z) : lo < hi -> py_range lo hi = lo :: py_range (lo + 1) hi.
Proof.
  intros Hlt. unfold py_range.
  replace (Z.to_nat (hi - lo)) with (S (Z.to_nat (hi - (lo + 1)))) by lia.
  cbn [seq List.map]. f_equal; [lia |].
  rewrite <- seq_shift, List.map_map. apply List.map_ext. intros k. lia.
Qed.

Lemma py_range_empty (lo hi : Z) : hi <= lo -> py_range lo hi = [].
Proof.
  intros Hle. unfold py_range. now replace (Z.to_nat (hi - lo)) with 0%nat by lia.
Qed.

Lemma scrape_silent (w : agent.world) (cfg : agent.config) (iteration : Z)
      (current : list string) :
  (In "reddit" (agent.sources cfg) ->
   silent (agent.scrape_reddit w iteration current (agent.subreddits cfg))) ->
  (In "web" (agent.sources cfg) -> silent (agent.scrape_web w iteration current)) ->
  agent.scrape w cfg iteration current = [].
Proof.
  intros Hr Hw. unfold agent.scrape, agent.extend_with.
  assert (H1 : (if bool_decide ("reddit" ∈ agent.sources cfg)
                then try_except
                       (found ← agent.scrape_reddit w iteration current (agent.subreddits cfg);
                        mret ([] ++ found)%list) (fun _ => [])
                else []) = []).
  { destruct (bool_decide_reflect ("reddit" ∈ agent.sources cfg)) as [Hin | _];
      [| reflexivity].
    apply list_elem_of_In in Hin. destruct (Hr Hin) as [-> | [e ->]]; reflexivity. }
  rewrite H1.
  destruct (bool_decide_reflect ("web" ∈ agent.sources cfg)) as [Hin | _]; [| reflexivity].
  apply list_elem_of_In in Hin. destruct (Hw Hin) as [-> | [e ->]]; reflexivity.
Qed.

(** X18: when the first iteration yields no post at all, because no source
    is enabled or because every enabled scraper returns nothing or raises,
    the run stops there without scoring anything and returns an empty
    output with both counters at 0. *)
Theorem empty_first_iteration_ends_the_run :
  forall lower w cfg,
    1 <= agent.max_iterations cfg ->
    (In "reddit" (agent.sources cfg) ->
     silent (agent.scrape_reddit w 1 (agent.keywords cfg) (agent.subreddits cfg))) ->
    (In "web" (agent.sources cfg) ->
     silent (agent.scrape_web w 1 (agent.keywords cfg))) ->
    agent.main lower w cfg =
    Return {| agent.r_all_qualified := [];
              agent.r_top := [];
              agent.r_total_raw := 0;
              agent.r_after_dedup := 0;
              agent.r_trace := [agent.SearchIteration 1; agent.NoNewPosts 1] |}.
Proof.
  intros lower w cfg Hmax Hr Hw.
  pose proof (scrape_silent w cfg 1 (agent.keywords cfg) Hr Hw) as Hscrape.
  unfold agent.main, agent.refinement_loop.
  rewrite py_range_cons by lia. cbn [agent.for_loop].
  unfold agent.iteration_body.
  cbn [agent.say agent.initial agent.current_keywords agent.all_seen_urls
       agent.total_raw agent.all_qualified agent.trace].
  rewrite Hscrape. cbn.
  unfold agent.sort_and_trim. cbn. unfold slice_to.
  rewrite size_empty.
  destruct (0 <=? agent.max_results cfg); now rewrite firstn_nil.
Qed.

Lemma empty_first_iteration_ends_the_run_witness :
  agent.main scorer.ascii_lower empty_world quiet_config =
  Return {| agent.r_all_qualified := [];
            agent.r_top := [];
            agent.r_total_raw := 0;
            agent.r_after_dedup := 0;
            agent.r_trace := [agent.SearchIteration 1; agent.NoNewPosts 1] |}.
Proof.
  apply empty_first_iteration_ends_the_run.
  - cbn. lia.
  - intros _. right. exists OtherException. reflexivity.
  - intros _. left. reflexivity.
Defined.

(** X19: with a bound of 0 or less on the iterations nothing is scraped,
    scored or refined; the run returns an empty output. *)
Theorem no_iteration_allowed :
  forall lower w cfg,
    agent.max_iterations cfg <= 0 ->
    agent.main lower w cfg =
    Return {| agent.r_all_qualified := [];
              agent.r_top := [];
              agent.r_total_raw := 0;
              agent.r_after_dedup := 0;
              agent.r_trace := [agent.CompletedAll] |}.
Proof.
  intros lower w cfg Hmax. unfold agent.main, agent.refinement_loop.
  rewrite py_range_empty by lia. cbn.
  unfold agent.sort_and_trim. cbn. unfold slice_to.
  rewrite size_empty.
  destruct (0 <=? agent.max_results cfg); now rewrite firstn_nil.
Qed.

Lemma no_iteration_allowed_witness :
  agent.main scorer.ascii_lower quiet_world
             (agent.mkConfig ["GRE prep"] ["GRE"] ["reddit"; "web"] 60 5 (Some 0) "gpt-4o-mini") =
  Return {| agent.r_all_qualified := [];
            agent.r_top := [];
            agent.r_total_raw := 0;
            agent.r_after_dedup := 0;
            agent.r_trace := [agent.CompletedAll] |}.
Proof.
  apply no_iteration_allowed. cbn. lia.
Defined.

Lemma scrape_forgiving (w : agent.world) (cfg : agent.config) (iteration : Z)
      (current : list string) :
  agent.scrape (forgiving w) cfg iteration current = agent.scrape w cfg iteration current.
Proof.
  unfold agent.scrape, agent.extend_with, forgiving.
  cbn [agent.scrape_reddit agent.scrape_web].
  destruct (bool_decide ("reddit" ∈ agent.sources cfg)),
           (bool_decide ("web" ∈ agent.sources cfg));
    repeat match goal with
           | |- context [agent.scrape_reddit w ?a ?b ?c] =>
               destruct (agent.scrape_reddit w a b c)
           | |- context [agent.scrape_web w ?a ?b] =>
               destruct (agent.scrape_web w a b)
           end; cbn; rewrite ?app_nil_r; reflexivity.
Qed.

Lemma for_loop_forgiving (lower : string -> string) (w : agent.world) (cfg : agent.config)
      (numbers : list Z) (st : agent.state) :
  agent.for_loop lower (forgiving w) cfg numbers st = agent.for_loop lower w cfg numbers st.
Proof.
  revert st. induction numbers as [| iteration rest IH]; intros st; [reflexivity |].
  cbn [agent.for_loop].
  assert (Hbody : agent.iteration_body lower (forgiving w) cfg iteration st =
                  agent.iteration_body lower w cfg iteration st).
  { unfold agent.iteration_body. rewrite scrape_forgiving. reflexivity. }
  rewrite Hbody.
  destruct (agent.iteration_body lower w cfg iteration st) as [e | [st1 stop]];
    [reflexivity |].
  cbn [mbind outcome_bind]. destruct stop; [reflexivity | apply IH].
Qed.

(** X20: a scraper that raises has the effect of a scraper that returns the
    empty list: the whole run, with its output, counters and trace, is the
    same in both worlds. *)
Theorem failing_scraper_is_empty_scraper :
  forall lower w cfg,
    agent.main lower (forgiving w) cfg = agent.main lower w cfg.
Proof.
  intros lower w cfg. unfold agent.main, agent.refinement_loop.
  now rewrite for_loop_forgiving.
Qed.



(** ** Runs without repeated URLs *)

Section unique_urls.

Import agent.

Variable lower : string -> string.
Variable w : world.
Variable cfg : config.

Hypothesis batches_unique :
  forall iteration current, NoDup (List.map url (scrape w cfg iteration current)).




End unique_urls.




(** ** The exported rows *)

(** X23: in the row that [save_csv] writes for a post, the title_snippet
    column neither begins nor ends with a whitespace character (of Unicode,
    as [str.strip] has it) and has at most the number of characters of the
    title plus 101; the URL and source are those of the post; a post that
    was never scored is exported with score 0 and empty labels. *)
Theorem save_csv_row_columns :
  forall p,
    let row := agent.save_csv_row p in
    (forall c r, chars (agent.c_title_snippet row) = c :: r -> is_space c = false) /\
    (forall r c, chars (agent.c_title_snippet row) = (r ++ [c])%list -> is_space c = false) /\
    (len (agent.c_title_snippet row) <= len (title p) + 101)%nat /\
    agent.c_url row = url p /\ agent.c_source_platform row = source p /\
    (unscored p ->
     agent.c_intent_score row = 0 /\ agent.c_topic_label row = "" /\
     agent.c_recommended_action row = "" /\ agent.c_suggested_response row = "" /\
     agent.c_why_this_matters row = "").
Proof.
  intros p row. subst row. unfold agent.save_csv_row.
  cbn [agent.c_title_snippet agent.c_url agent.c_source_platform agent.c_intent_score
       agent.c_topic_label agent.c_recommended_action agent.c_suggested_response
       agent.c_why_this_matters].
  set (s := title p ++ " " ++ str_prefix 100 (snippet p)).
  destruct (strip_spec s) as (a & b & _ & _ & _ & Hhead & Hlast & Hlen).
  split; [exact Hhead |]. split; [exact Hlast |]. split.
  - assert (Hs : (len s <= len (title p) + 101)%nat).
    { subst s. pose proof (len_app (title p) (" " ++ str_prefix 100 (snippet p))).
      pose proof (len_app " " (str_prefix 100 (snippet p))).
      pose proof (str_prefix_length 100 (snippet p)).
      change (len " ") with 1%nat in *. lia. }
    lia.
  - split; [reflexivity |]. split; [reflexivity |].
    intros (-> & -> & -> & -> & ->). repeat split.
Qed.

Lemma save_csv_row_columns_witness :
  agent.c_intent_score (agent.save_csv_row gre_post) = 0.
Proof.
  apply (proj2 (proj2 (proj2 (proj2 (proj2 (save_csv_row_columns gre_post)))))).
  repeat split.
Defined.


(** ** The scorer on replies of any shape *)

Section dyn_scorer_facts.

Import dyn.

Lemma mapM_map {A B C : Type} (f : B -> outcome C) (g : A -> B) (l : list A) :
  mapM f (List.map g l) = mapM (fun x => f (g x)) l.
Proof.
  induction l as [| x l IH]; [reflexivity |].
  cbn [List.map]. rewrite !mapM_cons, IH. reflexivity.
Qed.

Lemma mapM_ext {A B : Type} (f g : A -> outcome B) (l : list A) :
  (forall x, f x = g x) -> mapM f l = mapM g l.
Proof.
  intros H. induction l as [| x l IH]; [reflexivity |].
  now rewrite !mapM_cons, H, IH.
Qed.

Lemma mapM_returns {A B : Type} (f : A -> outcome B) (l : list A) :
  (forall i x, l !! i = Some x -> exists y, f x = Return y) ->
  exists ys, mapM f l = Return ys.
Proof.
  intros Hall. destruct (mapM f l) as [e | ys] eqn:Hm; [| now exists ys].
  apply mapM_raise in Hm as (i & x & Hx & He).
  destruct (Hall i x Hx) as [y Hy]. congruence.
Qed.

Lemma last_filter_map {A B : Type} (f : B -> bool) (g : A -> B) (l : list A) :
  last (List.filter f (List.map g l)) = g <$> last (List.filter (fun x => f (g x)) l).
Proof.
  induction l as [| x l IH]; [reflexivity |].
  cbn [List.map List.filter]. destruct (f (g x)); [| exact IH].
  rewrite !last_cons, IH.
  destruct (last (List.filter (fun x => f (g x)) l)); reflexivity.
Qed.

(** *** The dict built from the reply *)

Lemma all_have_id_false (elements : list json) :
  all_have_id elements = Return false -> forallb has_id elements = false.
Proof.
  induction elements as [| item elements IH]; [discriminate |].
  cbn [all_have_id forallb]. intros H.
  destruct item as [| | | | s | l | items]; try discriminate H; cbn [py_in mbind outcome_bind] in H.
  - reflexivity.
  - reflexivity.
  - cbn [has_id]. destruct (dict_get items "id"); [| reflexivity].
    cbn. now apply IH.
Qed.

Lemma subscript_of_object (item k : json) :
  subscript_as_key item "id" = Return k ->
  has_id item = true /\ is_object item = true /\ id_of item = k.
Proof.
  destruct item as [| | | | | | items]; try discriminate. cbn.
  destruct (dict_get items "id") as [k' |]; [| discriminate].
  destruct k'; intros H; inversion H; now repeat split.
Qed.

Lemma entries_of_objects (elements : list json) (entries : list (json * json)) :
  mapM (fun item => k ← subscript_as_key item "id"; mret (k, item)) elements = Return entries ->
  entries = List.map (fun item => (id_of item, item)) elements /\
  forallb has_id elements = true /\ forallb is_object elements = true.
Proof.
  revert entries. induction elements as [| item elements IH]; intros entries H.
  - inversion H. now repeat split.
  - rewrite mapM_cons in H.
    destruct (subscript_as_key item "id") as [e | k] eqn:Hk; [discriminate |].
    cbn [mbind outcome_bind mret outcome_ret] in H.
    destruct (mapM _ elements) as [e | rest] eqn:Hrest; [discriminate |].
    inversion H; subst entries.
    destruct (IH rest eq_refl) as (-> & Hids & Hobj).
    apply subscript_of_object in Hk as (Hid & Ho & <-).
    cbn [List.map forallb]. rewrite Hid, Ho, Hids, Hobj. now repeat split.
Qed.

(** When the dict can be built, a lookup gives the correlated element, or
    the empty dict; with ids, every element is an object. *)
Lemma build_score_map_return (v : json) (m : score_map) :
  build_score_map v = Return m ->
  exists elements,
    iterate v = Return elements /\
    (forall r, score_map_get m (Z.of_nat r) =
               default (VDict []) (correlated_element elements r)) /\
    (forallb has_id elements = true -> forallb is_object elements = true).
Proof.
  unfold build_score_map. intros H.
  destruct (iterate v) as [e | elements] eqn:Hv; [discriminate |].
  cbn [mbind outcome_bind] in H.
  destruct (all_have_id elements) as [e | [|]] eqn:Hids; [discriminate | |].
  - cbn [mbind outcome_bind] in H.
    destruct (mapM _ elements) as [e | entries] eqn:Hentries; [discriminate |].
    inversion H; subst m. clear H.
    apply entries_of_objects in Hentries as (-> & Hall & Hobj).
    exists elements. split; [reflexivity |]. split; [| now intros _].
    intros r. unfold correlated_element. rewrite Hall. cbn [score_map_get].
    rewrite (last_filter_map (fun e : json * json => key_is (Z.of_nat r) (fst e))
                             (fun item => (id_of item, item))).
    cbn [fst]. now destruct (last _).
  - inversion H; subst m. clear H.
    apply all_have_id_false in Hids.
    exists elements. split; [reflexivity |]. split; [| congruence].
    intros r. unfold correlated_element. rewrite Hids. cbn [score_map_get].
    rewrite (proj2 (Z.leb_le 0 (Z.of_nat r))) by lia. now rewrite Nat2Z.id.
Qed.

Lemma all_have_id_objects (elements : list json) :
  forallb is_object elements = true ->
  all_have_id elements = Return (forallb has_id elements).
Proof.
  induction elements as [| item elements IH]; [reflexivity |].
  cbn [forallb all_have_id]. intros [Ho Hrest]%andb_true_iff.
  destruct item as [| | | | | | items]; try discriminate Ho.
  cbn [py_in has_id mbind outcome_bind].
  destruct (dict_get items "id"); [now apply IH | reflexivity].
Qed.

Lemma usable_item_object (item : json) : usable_item item = true -> is_object item = true.
Proof. now destruct item. Qed.

(** The dict can be built from a list of objects with hashable ids. *)
Lemma build_score_map_usable (elements : list json) :
  forallb usable_item elements = true ->
  exists m, build_score_map (VList elements) = Return m.
Proof.
  intros Husable.
  assert (Hobj : forallb is_object elements = true).
  { apply forallb_forall. intros item Hitem.
    apply usable_item_object. now apply (proj1 (forallb_forall _ _) Husable). }
  unfold build_score_map. cbn [iterate mbind outcome_bind].
  rewrite (all_have_id_objects elements Hobj).
  destruct (forallb has_id elements) eqn:Hids; [| now eexists].
  destruct (mapM_returns (fun item => k ← subscript_as_key item "id"; mret (k, item)) elements)
    as [entries ->]; [| now eexists].
  intros i item Hitem.
  apply list_elem_of_lookup_2, list_elem_of_In in Hitem.
  pose proof (proj1 (forallb_forall _ _) Husable item Hitem) as Hu.
  pose proof (proj1 (forallb_forall _ _) Hids item Hitem) as Hid.
  destruct item as [| | | | | | items]; try discriminate Hu.
  cbn in Hu, Hid |- *. destruct (dict_get items "id") as [k |]; [| discriminate Hid].
  destruct k; try discriminate Hu; now eexists.
Qed.

Lemma correlated_element_In (elements : list json) (r : nat) (info : json) :
  correlated_element elements r = Some info -> In info elements.
Proof.
  unfold correlated_element. destruct (forallb has_id elements); intros H.
  - apply last_Some_elem_of, list_elem_of_In in H.
    apply filter_In in H. tauto.
  - apply list_elem_of_In. eapply list_elem_of_lookup_2; eassumption.
Qed.

Lemma merge_cases (m : score_map) (i : Z) (p : post) :
  merge m i p =
  match score_map_get m i with
  | VDict items => Return (update p (scores_of items))
  | _ => Raise AttributeError
  end.
Proof. unfold merge. now destruct (score_map_get m i). Qed.

(** *** The three attempts *)

Section with_client.

Variable complete : Z -> Z -> list scorer.request_item -> outcome json.


Lemma dyn_attempts_first_return (bn : Z) (msg : list scorer.request_item)
      (before after : list Z) (a : Z) (v : json) :
  (forall a', In a' before -> exists e, complete bn a' msg = Raise e) ->
  complete bn a msg = Return v ->
  attempts complete bn msg (before ++ a :: after)%list = v.
Proof.
  induction before as [| b before IH]; intros H Ha; simpl.
  - now rewrite Ha.
  - destruct (H b (or_introl eq_refl)) as [e ->].
    rewrite IH by (try assumption; intros; apply H; now right).
    now destruct e.
Qed.

(** What the three attempts keep: nothing when all raise, and otherwise the
    value of the first attempt that returns. *)
Lemma dyn_attempts_cases (bn : Z) (msg : list scorer.request_item) :
  ((forall a, In a [0; 1; 2] -> exists e, complete bn a msg = Raise e) /\
   attempts complete bn msg (py_range 0 3) = VNone) \/
  (exists a v,
      0 <= a < 3 /\
      (forall earlier, 0 <= earlier < a -> exists e, complete bn earlier msg = Raise e) /\
      complete bn a msg = Return v /\
      attempts complete bn msg (py_range 0 3) = v).
Proof.
  change (py_range 0 3) with [0; 1; 2]. cbn [attempts].
  destruct (complete bn 0 msg) as [e0 | v0] eqn:H0.
  - destruct (complete bn 1 msg) as [e1 | v1] eqn:H1.
    + destruct (complete bn 2 msg) as [e2 | v2] eqn:H2.
      * left. split; [| now destruct e0, e1, e2].
        intros a [<- | [<- | [<- | []]]]; eexists; eassumption.
      * right. exists 2, v2. split; [lia |]. split; [| split; [assumption | now destruct e0, e1]].
        intros earlier Hearlier.
        assert (earlier = 0 \/ earlier = 1) as [-> | ->] by lia; eexists; eassumption.
    + right. exists 1, v1. split; [lia |]. split; [| split; [assumption | now destruct e0]].
      intros earlier Hearlier. assert (earlier = 0) as -> by lia. eexists; eassumption.
  - right. exists 0, v0. split; [lia |]. split; [| now split].
    intros earlier Hearlier. lia.
Qed.

Lemma dyn_first_return_kept (bn : Z) (msg : list scorer.request_item) (attempt : Z) (v : json) :
  0 <= attempt < 3 ->
  (forall earlier, 0 <= earlier < attempt -> exists e, complete bn earlier msg = Raise e) ->
  complete bn attempt msg = Return v ->
  attempts complete bn msg (py_range 0 3) = v.
Proof.
  intros Hrange Hearlier Hret. change (py_range 0 3) with [0; 1; 2].
  assert (Hcases : attempt = 0 \/ attempt = 1 \/ attempt = 2) by lia.
  destruct Hcases as [-> | [-> | ->]].
  - apply (dyn_attempts_first_return bn msg [] [1; 2] 0); [intros ? [] | assumption].
  - apply (dyn_attempts_first_return bn msg [0] [2] 1); [| assumption].
    intros a [<- | []]. apply Hearlier. lia.
  - apply (dyn_attempts_first_return bn msg [0; 1] [] 2); [| assumption].
    intros a [<- | [<- | []]]; apply Hearlier; lia.
Qed.

(** *** One batch *)

Lemma score_batch_eq (bn : Z) (batch : list post) :
  score_batch complete bn batch =
  let v := attempts complete bn (scorer._build_user_message batch) (py_range 0 3) in
  if is_none v then Return (List.map (fun p => update p failed) batch)
  else (m ← build_score_map v;
        mapM (fun ip : Z * post => merge m (fst ip) (snd ip)) (enumerate batch)).
Proof. unfold score_batch. cbn zeta. now destruct (attempts _ _ _ _). Qed.

(** A batch that is scored: every post is written with the failure dict or
    with the values of its correlated element, which is an object. *)
Lemma score_batch_return (bn : Z) (batch : list post) (l : list jpost) :
  score_batch complete bn batch = Return l ->
  let v := attempts complete bn (scorer._build_user_message batch) (py_range 0 3) in
  length l = length batch /\
  forall r p, batch !! r = Some p ->
    l !! r = Some (update p (written_scores v r)) /\
    (is_none v = false ->
     forall info, correlated_element (elements_of v) r = Some info -> is_object info = true).
Proof.
  rewrite score_batch_eq. cbn zeta.
  set (v := attempts complete bn _ _). unfold written_scores.
  destruct (is_none v) eqn:Hnone.
  - intros H. inversion H; subst l. split; [now rewrite length_map |].
    intros r p Hp. split; [now rewrite map_lookup, Hp | discriminate].
  - intros H. destruct (build_score_map v) as [e | m] eqn:Hm; [discriminate |].
    cbn [mbind outcome_bind] in H.
    apply build_score_map_return in Hm as (elements & Hv & Hget & _).
    apply mapM_return in H as [Hlen Hl]. rewrite enumerate_length in Hlen.
    split; [exact Hlen |]. intros r p Hp.
    destruct (Hl r (Z.of_nat r, p) (enumerate_lookup _ _ _ Hp)) as (q & Hq & Hmerge).
    cbn [fst snd] in Hmerge. rewrite merge_cases, Hget in Hmerge.
    unfold elements_of. rewrite Hv.
    destruct (correlated_element elements r) as [info |]; cbn [default] in Hmerge.
    + destruct info; try discriminate Hmerge. inversion Hmerge; subst q.
      split; [exact Hq |]. intros _ info Hinfo. now inversion Hinfo.
    + inversion Hmerge; subst q. split; [exact Hq |]. intros _ info Hinfo. discriminate.
Qed.

(** A batch whose kept reply is [None] or a list of objects with hashable
    ids is scored. *)
Lemma score_batch_usable (bn : Z) (batch : list post) :
  usable (attempts complete bn (scorer._build_user_message batch) (py_range 0 3)) = true ->
  exists l, score_batch complete bn batch = Return l.
Proof.
  rewrite score_batch_eq. cbn zeta.
  destruct (attempts complete bn _ _) as [| | | | | elements |]; try discriminate.
  - now eexists.
  - cbn [usable is_none]. intros Husable.
    destruct (build_score_map_usable elements Husable) as [m Hm]. rewrite Hm.
    cbn [mbind outcome_bind].
    apply build_score_map_return in Hm as (elements' & Hv & Hget & _).
    inversion Hv; subst elements'.
    apply mapM_returns. intros i [z p] Hip. cbn [fst snd].
    assert (Hz : z = Z.of_nat i).
    { destruct (lookup_lt_is_Some_2 batch i) as [p' Hp'].
      { rewrite <- enumerate_length. eapply lookup_lt_Some; eassumption. }
      rewrite (enumerate_lookup _ _ _ Hp') in Hip. now inversion Hip. }
    subst z. rewrite merge_cases, Hget.
    destruct (correlated_element elements i) as [info |] eqn:Hinfo; [| now eexists].
    apply correlated_element_In in Hinfo.
    pose proof (proj1 (forallb_forall _ _) Husable info Hinfo) as Hu.
    destruct info; try discriminate Hu. now eexists.
Qed.

(** *** The loop over the batches *)

Lemma score_batches_mapM (posts : list post) (starts : list Z) (scored : list jpost) :
  score_batches complete posts starts scored =
  (ls ← mapM (fun start => score_batch complete (start / 5 + 1)
                                       (scorer.slice_batch start 5 posts)) starts;
   mret (scored ++ concat ls)%list).
Proof.
  revert scored. induction starts as [| start starts IH]; intros scored.
  - cbn. now rewrite app_nil_r.
  - cbn [score_batches]. rewrite mapM_cons.
    destruct (score_batch complete _ _) as [e | new]; [reflexivity |].
    cbn [mbind outcome_bind]. rewrite IH.
    destruct (mapM _ starts) as [e | ls]; [reflexivity |].
    cbn. now rewrite <- app_assoc.
Qed.

(** [score_opportunities] scores the batches of five one after the other
    and returns what they give, put together. *)
Lemma score_opportunities_batches (posts : list post) :
  score_opportunities complete posts =
  (ls ← mapM (fun j => score_batch complete (Z.of_nat j + 1) (batch_of posts j))
             (seq 0 ((length posts + 4) / 5)%nat);
   mret (concat ls)).
Proof.
  destruct posts as [| p0 posts]; [reflexivity |].
  unfold score_opportunities. set (l := p0 :: posts).
  rewrite score_batches_mapM, range_step_5, mapM_map. cbn [app].
  erewrite mapM_ext; [reflexivity |].
  intros j. cbn beta. rewrite (Z.mul_comm 5), Z.div_mul by lia.
  unfold scorer.slice_batch, batch_of. do 3 f_equal. lia.
Qed.

Lemma batch_value_length (j : nat) (b : list post) :
  length (batch_value complete j b) = length b.
Proof.
  unfold batch_value. destruct (score_batch complete _ b) as [e | l] eqn:Hl.
  - now rewrite length_map.
  - now apply score_batch_return in Hl as [Hlen _].
Qed.

Lemma batch_count (posts : list post) :
  (length posts <= 5 * ((length posts + 4) / 5))%nat.
Proof.
  pose proof (Nat.div_mod_eq (length posts + 4) 5).
  pose proof (Nat.mod_upper_bound (length posts + 4) 5). lia.
Qed.

Lemma batch_number_lt (posts : list post) (i : nat) :
  (i < length posts -> i / 5 < (length posts + 4) / 5)%nat.
Proof.
  intros Hi. apply Nat.Div0.div_lt_upper_bound.
  pose proof (batch_count posts). lia.
Qed.

(** The scored list, position by position, when [score_opportunities]
    returns. *)
Lemma dyn_score_opportunities_lookup (posts : list post) (scored : list jpost) :
  score_opportunities complete posts = Return scored ->
  length scored = length posts /\
  forall i p, posts !! i = Some p ->
    let v := kept_reply complete posts (i / 5) in
    scored !! i = Some (update p (written_scores v (i mod 5))) /\
    (is_none v = false ->
     forall info, correlated_element (elements_of v) (i mod 5) = Some info ->
                  is_object info = true).
Proof.
  rewrite score_opportunities_batches. set (k := ((length posts + 4) / 5)%nat).
  intros H. destruct (mapM _ (seq 0 k)) as [e | ls] eqn:Hls; [discriminate |].
  inversion H; subst scored. clear H.
  apply mapM_return in Hls as [Hlen Hget]. rewrite length_seq in Hlen.
  assert (Hconcat : concat ls = batched (batch_value complete) k posts).
  { unfold batched. f_equal. apply list_eq. intros j. rewrite map_lookup.
    destruct (Nat.lt_ge_cases j k) as [Hlt | Hge].
    - rewrite lookup_seq_lt by assumption. cbn [fmap option_fmap option_map].
      destruct (Hget j (0 + j)%nat) as (l & -> & Hl); [now apply lookup_seq_lt |].
      cbn [Nat.add] in Hl |- *. unfold batch_value. now rewrite Hl.
    - rewrite (proj2 (lookup_ge_None ls j)) by lia.
      now rewrite (proj2 (lookup_ge_None (seq 0 k) j)) by (rewrite length_seq; lia). }
  rewrite Hconcat.
  destruct (batched_spec (batch_value complete) k posts batch_value_length (batch_count posts))
    as [Hlength Hlookup].
  split; [exact Hlength |].
  intros i p Hp. cbn zeta.
  assert (Hi : (i < length posts)%nat) by (eapply lookup_lt_Some; eassumption).
  rewrite (Hlookup i Hi).
  destruct (Hget (i / 5)%nat (0 + i / 5)%nat) as (l & _ & Hl).
  { apply lookup_seq_lt. now apply batch_number_lt. }
  cbn [Nat.add] in Hl. unfold batch_value. rewrite Hl.
  apply (score_batch_return _ _ _ Hl). now rewrite batch_of_lookup.
Qed.

(** [score_opportunities] returns when every kept reply is [None] or a list
    of objects with hashable ids. *)
Lemma dyn_score_opportunities_total (posts : list post) :
  (forall j, (j < (length posts + 4) / 5)%nat -> usable (kept_reply complete posts j) = true) ->
  exists scored, score_opportunities complete posts = Return scored.
Proof.
  intros Husable. rewrite score_opportunities_batches.
  destruct (mapM_returns (fun j => score_batch complete (Z.of_nat j + 1) (batch_of posts j))
                         (seq 0 ((length posts + 4) / 5)%nat)) as [ls ->]; [| now eexists].
  intros i j Hj. apply lookup_seq in Hj as [-> Hlt].
  apply score_batch_usable. now apply Husable.
Qed.


Lemma update_carries_scores p d : carries_scores (update p d).
Proof. unfold carries_scores. cbn. repeat split; eexists; reflexivity. Qed.

(** Every post of the list returned has been through [post.update]. *)
Lemma scored_carries_scores (posts : list post) (scored : list jpost) :
  score_opportunities complete posts = Return scored -> Forall carries_scores scored.
Proof.
  intros Hrun.
  destruct (dyn_score_opportunities_lookup posts scored Hrun) as [Hlen Hget].
  apply Forall_lookup. intros i q Hq.
  destruct (lookup_lt_is_Some_2 posts i) as [p Hp].
  { rewrite <- Hlen. eapply lookup_lt_Some; eassumption. }
  destruct (Hget i p Hp) as [Hq' _]. cbn zeta in Hq'.
  rewrite Hq in Hq'. apply (inj Some) in Hq'. subst q. apply update_carries_scores.
Qed.

End with_client.







End dyn_scorer_facts.

(** C9, as the code has it.  Before scoring: the posts handed to
    [score_opportunities] in a run whose scrapers are [scrape_reddit] and
    [scrape_web] carry none of the five scoring keys.  After scoring: the
    [intent_score] of a post is 0 when the three attempts made for its batch
    raised, when the reply kept for its batch is [None], when no element of
    the reply is correlated with the post, or when the correlated object
    has no [intent_score]; otherwise it is the value that the correlated
    object of the reply kept for its batch holds under [intent_score],
    unchanged.  So it is an integer between 0 and 100 whenever every
    [intent_score] in the replies of the service is. *)
Theorem intent_score_comes_from_service :
  (forall w cfg iteration st,
      scrapers_as_modelled w -> Forall unscored (posts_to_score w cfg iteration st)) /\
  (forall complete posts scored,
      dyn.score_opportunities complete posts = Return scored ->
      forall i p, posts !! i = Some p ->
        let batch_num := Z.of_nat (i / 5) + 1 in
        let user_msg := scorer._build_user_message (batch_of posts (i / 5)) in
        exists q,
          scored !! i = Some q /\
          (((forall attempt, In attempt [0; 1; 2] ->
               exists e, complete batch_num attempt user_msg = Raise e) /\
            dyn.j_intent_score q = Some (VInt 0)) \/
           (exists attempt v,
               0 <= attempt < 3 /\
               (forall earlier, 0 <= earlier < attempt ->
                  exists e, complete batch_num earlier user_msg = Raise e) /\
               complete batch_num attempt user_msg = Return v /\
               if is_none v then dyn.j_intent_score q = Some (VInt 0)
               else match correlated_element (elements_of v) (i mod 5) with
                    | Some info =>
                        exists items,
                          info = VDict items /\
                          dyn.j_intent_score q =
                            Some (default (VInt 0) (dict_get items "intent_score"))
                    | None => dyn.j_intent_score q = Some (VInt 0)
                    end))) /\
  (forall complete posts scored,
      dyn.score_opportunities complete posts = Return scored ->
      (forall batch_num attempt user_msg v items s,
          complete batch_num attempt user_msg = Return v ->
          In (VDict items) (elements_of v) ->
          dict_get items "intent_score" = Some s ->
          exists z, s = VInt z /\ 0 <= z <= 100) ->
      Forall (fun q => exists z, dyn.j_intent_score q = Some (VInt z) /\ 0 <= z <= 100) scored).
Proof.
  assert (Horigin : forall complete posts scored,
      dyn.score_opportunities complete posts = Return scored ->
      forall i p, posts !! i = Some p ->
        let batch_num := Z.of_nat (i / 5) + 1 in
        let user_msg := scorer._build_user_message (batch_of posts (i / 5)) in
        exists q,
          scored !! i = Some q /\
          (((forall attempt, In attempt [0; 1; 2] ->
               exists e, complete batch_num attempt user_msg = Raise e) /\
            dyn.j_intent_score q = Some (VInt 0)) \/
           (exists attempt v,
               0 <= attempt < 3 /\
               (forall earlier, 0 <= earlier < attempt ->
                  exists e, complete batch_num earlier user_msg = Raise e) /\
               complete batch_num attempt user_msg = Return v /\
               if is_none v then dyn.j_intent_score q = Some (VInt 0)
               else match correlated_element (elements_of v) (i mod 5) with
                    | Some info =>
                        exists items,
                          info = VDict items /\
                          dyn.j_intent_score q =
                            Some (default (VInt 0) (dict_get items "intent_score"))
                    | None => dyn.j_intent_score q = Some (VInt 0)
                    end))).
  { intros complete posts scored Hrun i p Hp batch_num user_msg.
    destruct (dyn_score_opportunities_lookup complete posts scored Hrun) as [_ Hget].
    destruct (Hget i p Hp) as [Hq Hobj]. cbn zeta in Hq, Hobj.
    unfold kept_reply in Hq, Hobj. fold batch_num user_msg in Hq, Hobj.
    eexists. split; [exact Hq |]. cbn [dyn.update dyn.j_intent_score].
    destruct (dyn_attempts_cases complete batch_num user_msg)
      as [[Hfail Hkept] | (attempt & v & Hrange & Hearlier & Hret & Hkept)];
      rewrite Hkept in *.
    - left. split; [exact Hfail | reflexivity].
    - right. exists attempt, v. repeat split; try assumption; try lia.
      unfold written_scores. destruct (is_none v) eqn:Hnone; [reflexivity |].
      destruct (correlated_element (elements_of v) (i mod 5)) as [info |] eqn:Hinfo;
        [| reflexivity].
      specialize (Hobj eq_refl info eq_refl).
      destruct info; try discriminate Hobj. eexists. split; reflexivity. }
  split; [| split; [exact Horigin |]].
  - intros w cfg iteration st [Hreddit Hweb].
    assert (Hextend : forall l o,
               Forall unscored l ->
               (forall found, o = Return found -> Forall unscored found) ->
               Forall unscored (agent.extend_with l o)).
    { intros l [e | found] Hl Ho; cbn; [exact Hl |].
      apply Forall_app. split; [exact Hl | now apply Ho]. }
    assert (Hraw : Forall unscored (dyn.scrape w cfg iteration (dyn.current_keywords st))).
    { unfold dyn.scrape.
      assert (H1 : Forall unscored
                (if bool_decide ("reddit" ∈ agent.sources cfg)
                 then agent.extend_with [] (dyn.scrape_reddit w iteration (dyn.current_keywords st)
                                                              (agent.subreddits cfg))
                 else [])).
      { destruct (bool_decide _); [| constructor].
        apply Hextend; [constructor |]. intros found Hfound.
        destruct (Hreddit _ _ _ _ Hfound) as (environ & reddit & ->).
        unfold scrapers.scrape_reddit. destruct (negb _); [constructor |].
        destruct (scrape_reddit_state reddit (dyn.current_keywords st) (agent.subreddits cfg))
          as [(_ & _ & Hall) _].
        eapply List.Forall_impl; [| exact Hall].
        intros p (? & ? & ? & ? & sub & _ & _ & _ & _ & ->). repeat split. }
      destruct (bool_decide ("web" ∈ agent.sources cfg)); [| exact H1].
      apply Hextend; [exact H1 |]. intros found Hfound.
      destruct (Hweb _ _ _ Hfound) as (ddgs & ->).
      destruct (scrape_web_state ddgs (dyn.current_keywords st)) as [(_ & _ & Hall) _].
      eapply List.Forall_impl; [| exact Hall].
      intros p (? & ? & item & _ & ->). repeat split. }
    unfold posts_to_score, agent.new_posts_of.
    rewrite List.Forall_forall in *. intros p Hp. apply filter_In in Hp as [Hp _].
    now apply Hraw.
  - intros complete posts scored Hrun Hbound.
    destruct (dyn_score_opportunities_lookup complete posts scored Hrun) as [Hlen _].
    apply Forall_lookup. intros i q Hq.
    destruct (lookup_lt_is_Some_2 posts i) as [p Hp].
    { rewrite <- Hlen. eapply lookup_lt_Some; eassumption. }
    destruct (Horigin complete posts scored Hrun i p Hp) as (q' & Hq' & Hcases).
    rewrite Hq in Hq'. inversion Hq'; subst q'. cbn zeta in Hcases.
    destruct Hcases as [[_ ->] | (attempt & v & _ & _ & Hret & Hv)]; [exists 0; split; [reflexivity | lia] |].
    destruct (is_none v); [rewrite Hv; exists 0; split; [reflexivity | lia] |].
    destruct (correlated_element (elements_of v) (i mod 5)) as [info |] eqn:Hinfo;
      [| rewrite Hv; exists 0; split; [reflexivity | lia]].
    destruct Hv as (items & -> & ->).
    apply correlated_element_In in Hinfo.
    destruct (dict_get items "intent_score") as [s |] eqn:Hs;
      [| exists 0; split; [reflexivity | lia]].
    destruct (Hbound _ _ _ v items s Hret Hinfo Hs) as (z & -> & Hz).
    exists z. split; [reflexivity | exact Hz].
Qed.

Lemma intent_score_comes_from_service_witness :
  (exists p, In p (posts_to_score scraping_world web_config 1 (dyn.initial web_config)) /\
             unscored p) /\
  exists scored,
    dyn.score_opportunities (service_answering (VInt 85)) [gre_post; toefl_post]
      = Return scored /\
    Forall (fun q => exists z, dyn.j_intent_score q = Some (VInt z) /\ 0 <= z <= 100) scored.
Proof.
  split.
  - assert (Hall : Forall unscored
                     (posts_to_score scraping_world web_config 1 (dyn.initial web_config))).
    { apply (proj1 intent_score_comes_from_service). split.
      - intros iteration keywords subreddits found Hfound. inversion Hfound. now do 2 eexists.
      - intros iteration keywords found Hfound. inversion Hfound. now eexists. }
    destruct (posts_to_score scraping_world web_config 1 (dyn.initial web_config))
      as [| p rest] eqn:Hposts; [vm_compute in Hposts; discriminate Hposts |].
    exists p. split; [now left | now inversion Hall].
  - assert (Hrun : exists scored,
               dyn.score_opportunities (service_answering (VInt 85)) [gre_post; toefl_post]
               = Return scored) by (eexists; vm_compute; reflexivity).
    destruct Hrun as [scored Hrun]. exists scored. split; [exact Hrun |].
    apply (proj2 (proj2 intent_score_comes_from_service) _ _ _ Hrun).
    intros batch_num attempt user_msg v items s Hret Hin Hs.
    unfold service_answering in Hret. destruct (attempt =? 0); [discriminate Hret |].
    inversion Hret; subst v. cbn [elements_of iterate] in Hin.
    apply in_map_iff in Hin as (rq & Hrq & _). inversion Hrq; subst items.
    cbn in Hs. inversion Hs. exists 85. split; [reflexivity | lia].
Defined.

(** C9 fails as stated: the score of the service is written unchanged. *)
Lemma intent_score_can_leave_range :
  ~ (forall complete posts scored q,
        dyn.score_opportunities complete posts = Return scored -> In q scored ->
        exists z, dyn.j_intent_score q = Some (VInt z) /\ 0 <= z <= 100).
Proof.
  intros Hclaim.
  destruct (Hclaim (service_answering (VInt 150)) [gre_post]
                   [dyn.update gre_post (scores_of [("id", VInt 0); ("topic_label", VStr "GRE");
                                                     ("intent_score", VInt 150);
                                                     ("recommended_action", VStr "DM");
                                                     ("suggested_response", VStr "Happy to help");
                                                     ("why_this_matters", VStr "Asks for help")])]
                   _ eq_refl (or_introl eq_refl))
    as (z & Hz & Hrange).
  cbn in Hz. inversion Hz. subst z. lia.
Qed.

(** ** The loop on replies of any shape *)

Section dyn_loop_facts.

Import dyn.

(** *** The threshold test *)

Lemma qualified_filter (min_score : Z) (scored l : list jpost) :
  qualified min_score scored = Return l -> l = List.filter (passes min_score) scored.
Proof.
  revert l. induction scored as [| p scored IH]; intros l H.
  - now inversion H.
  - cbn [qualified] in H. cbn [List.filter]. unfold passes at 1.
    destruct (ge_int (get (j_intent_score p) (VInt 0)) min_score) as [e | b];
      [discriminate |].
    cbn [mbind outcome_bind] in H.
    destruct (qualified min_score scored) as [e | kept]; [discriminate |].
    inversion H. rewrite (IH kept eq_refl). reflexivity.
Qed.

Lemma passes_reaches (min_score : Z) (p : jpost) :
  is_Some (j_intent_score p) -> passes min_score p = true -> reaches min_score p.
Proof.
  intros [v Hv]. unfold passes, reaches, ge_int. rewrite Hv. cbn [get].
  destruct (as_number v) as [f |] eqn:Hf; [| discriminate].
  intros H. exists v, f. repeat split; assumption.
Qed.

(** The posts kept by the test, when they come from a scoring pass. *)
Lemma qualified_reaches (min_score : Z) (scored l : list jpost) :
  Forall carries_scores scored ->
  qualified min_score scored = Return l -> Forall (reaches min_score) l.
Proof.
  intros Hall H. rewrite (qualified_filter _ _ _ H). apply List.Forall_forall.
  intros p Hp. apply filter_In in Hp as [Hin Hp].
  rewrite List.Forall_forall in Hall. destruct (Hall p Hin) as (_ & Hscore & _).
  now apply passes_reaches.
Qed.

(** The test raises on the first score that is not a number, and only
    then. *)
Lemma qualified_total (min_score : Z) (scored : list jpost) :
  Forall numeric scored -> exists l, qualified min_score scored = Return l.
Proof.
  induction 1 as [| p scored (v & Hv & f & Hf) _ [kept IH]]; [now eexists |].
  cbn [qualified]. unfold ge_int. rewrite Hv. cbn [get]. rewrite Hf, IH. now eexists.
Qed.

Lemma qualified_raise (min_score : Z) (scored : list jpost) (e : exn) :
  qualified min_score scored = Raise e ->
  e = TypeError /\
  exists p, In p scored /\ as_number (get (j_intent_score p) (VInt 0)) = None.
Proof.
  induction scored as [| p scored IH]; [discriminate |].
  cbn [qualified]. unfold ge_int.
  destruct (as_number (get (j_intent_score p) (VInt 0))) as [f |] eqn:Hf.
  - cbn [mbind outcome_bind].
    destruct (qualified min_score scored) as [e' | kept]; [| discriminate].
    intros H. inversion H; subst e'.
    destruct (IH eq_refl) as (He & q & Hq & Hnone).
    split; [exact He |]. exists q. split; [now right | exact Hnone].
  - intros H. inversion H. split; [reflexivity |]. exists p. split; [now left | exact Hf].
Qed.

(** *** The sort *)

Lemma insert_by_key_perm {A : Type} (x : pyfloat * A) (l : list (pyfloat * A)) :
  Permutation (insert_by_key x l) (x :: l).
Proof.
  induction l as [| y l IH]; [reflexivity |].
  cbn [insert_by_key]. destruct (float_le (fst y) (fst x)); [reflexivity |].
  rewrite IH. apply perm_swap.
Qed.

Lemma sort_by_key_perm {A : Type} (l : list (pyfloat * A)) : Permutation (sort_by_key l) l.
Proof.
  induction l as [| x l IH]; [reflexivity |].
  cbn [sort_by_key]. rewrite insert_by_key_perm. now constructor.
Qed.

Lemma map_snd_combine {A B : Type} (l1 : list A) (l2 : list B) :
  length l1 = length l2 -> List.map snd (combine l1 l2) = l2.
Proof.
  revert l2. induction l1 as [| x l1 IH]; intros [| y l2] H; try discriminate; [reflexivity |].
  cbn. f_equal. apply IH. now inversion H.
Qed.

(** Posts that passed the threshold test can be sorted: their keys are
    numbers other than NaN. *)
Lemma sorted_by_intent_score_total (min_score : Z) (posts : list jpost) :
  Forall (reaches min_score) posts ->
  exists sorted, sorted_by_intent_score posts = Return sorted /\ Permutation sorted posts.
Proof.
  intros Hall. unfold sorted_by_intent_score.
  destruct (mapM_returns sort_key posts) as [keys Hkeys].
  { intros i p Hp. rewrite List.Forall_forall in Hall.
    destruct (Hall p) as (v & f & Hv & Hf & Hge).
    { apply list_elem_of_In. eapply list_elem_of_lookup_2; eassumption. }
    unfold sort_key. rewrite Hv, Hf. destruct f; try discriminate Hge; now eexists. }
  rewrite Hkeys. eexists. split; [reflexivity |].
  apply mapM_return in Hkeys as [Hlen _].
  rewrite (Permutation_map snd (sort_by_key_perm (combine keys posts))).
  now rewrite map_snd_combine.
Qed.

(** *** Well-formed replies *)

Lemma well_formed_usable (v : json) : well_formed v = true -> usable v = true.
Proof. unfold well_formed. now intros [? _]%andb_true_iff. Qed.

(** After a scoring pass on well-formed replies every score is a number. *)
Lemma well_formed_scores complete (posts : list post) (scored : list jpost) :
  (forall batch_num attempt user_msg v,
      complete batch_num attempt user_msg = Return v -> well_formed v = true) ->
  score_opportunities complete posts = Return scored ->
  Forall numeric scored.
Proof.
  intros Hwf Hrun.
  destruct (dyn_score_opportunities_lookup complete posts scored Hrun) as [Hlen Hget].
  apply Forall_lookup. intros i q Hq.
  destruct (lookup_lt_is_Some_2 posts i) as [p Hp].
  { rewrite <- Hlen. eapply lookup_lt_Some; eassumption. }
  destruct (Hget i p Hp) as [Hq' _]. cbn zeta in Hq'.
  rewrite Hq in Hq'. apply (inj Some) in Hq'. subst q.
  unfold numeric. cbn [update j_intent_score]. eexists. split; [reflexivity |].
  unfold written_scores, kept_reply.
  destruct (dyn_attempts_cases complete (Z.of_nat (i / 5) + 1)
                               (scorer._build_user_message (batch_of posts (i / 5))))
    as [[_ ->] | (attempt & v & _ & _ & Hret & ->)]; [now eexists |].
  destruct (is_none v); [now eexists |].
  destruct (correlated_element (elements_of v) (i mod 5)) as [info |] eqn:Hinfo;
    [| now eexists].
  destruct info as [| | | | | | items]; try now eexists.
  apply correlated_element_In in Hinfo.
  specialize (Hwf _ _ _ _ Hret). unfold well_formed in Hwf.
  apply andb_true_iff in Hwf as [_ Hnum].
  pose proof (proj1 (forallb_forall _ _) Hnum _ Hinfo) as Hitem. cbn in Hitem |- *.
  destruct (dict_get items "intent_score") as [s |]; [| now eexists].
  cbn. destruct (as_number s); [now eexists | discriminate Hitem].
Qed.

Lemma well_formed_scored complete (posts : list post) :
  (forall batch_num attempt user_msg v,
      complete batch_num attempt user_msg = Return v -> well_formed v = true) ->
  exists scored, score_opportunities complete posts = Return scored.
Proof.
  intros Hwf. apply dyn_score_opportunities_total.
  intros j _. unfold kept_reply.
  destruct (dyn_attempts_cases complete (Z.of_nat j + 1)
                               (scorer._build_user_message (batch_of posts j)))
    as [[_ ->] | (attempt & v & _ & _ & Hret & ->)]; [reflexivity |].
  eapply well_formed_usable, Hwf, Hret.
Qed.

(** *** One iteration *)

Variable lower : string -> string.
Variable w : world.
Variable cfg : agent.config.

(** An iteration either is left by an exception of the scoring pass or of
    the threshold test, after "Scoring" was printed and before any of the
    conditions that follow it is looked at, or it ends with the first of
    the four conditions that holds. *)
Lemma dyn_iteration_body_spec (iteration : Z) (st : state) :
  Forall (reaches (agent.min_intent_score cfg)) (all_qualified st) ->
  let new_posts := posts_to_score w cfg iteration st in
  (exists e,
      new_posts <> [] /\
      (score_opportunities (scoring_service w iteration) new_posts = Raise e \/
       exists scored,
         score_opportunities (scoring_service w iteration) new_posts = Return scored /\
         qualified (agent.min_intent_score cfg) scored = Raise e) /\
      iteration_body lower w cfg iteration st =
        ([agent.SearchIteration iteration; agent.Scoring iteration (length new_posts)],
         Raise e)) \/
  (exists scored new_qualified high_scorers st',
      let qualified_all := (all_qualified st ++ new_qualified)%list in
      let new_keywords :=
        generate_refined_keywords lower (refinement_service w iteration)
                                  (agent.keywords cfg) high_scorers in
      let v := termination_check (is_nil new_posts)
                                 (Z.of_nat (length qualified_all) >=? agent.max_results cfg)
                                 (negb (iteration <? max_iterations cfg))
                                 (is_nil new_keywords) in
      score_opportunities (scoring_service w iteration) new_posts = Return scored /\
      qualified (agent.min_intent_score cfg) scored = Return new_qualified /\
      sorted_by_intent_score qualified_all = Return high_scorers /\
      iteration_body lower w cfg iteration st =
        (events_of iteration (length new_posts) v, Return (st', breaks v)) /\
      all_seen_urls st' = agent.add_urls (all_seen_urls st) new_posts /\
      total_raw st' =
        total_raw st + Z.of_nat (length (scrape w cfg iteration (current_keywords st))) /\
      all_qualified st' = (if is_nil new_posts then all_qualified st else qualified_all) /\
      current_keywords st' =
        match v with Refined => new_keywords | _ => current_keywords st end /\
      Forall (reaches (agent.min_intent_score cfg)) (all_qualified st')).
Proof.
  intros Hinv. unfold posts_to_score. cbn zeta.
  set (iteration_posts := scrape w cfg iteration (current_keywords st)).
  set (new_posts := agent.new_posts_of (all_seen_urls st) iteration_posts).
  unfold iteration_body. cbn [all_seen_urls all_qualified total_raw current_keywords].
  fold iteration_posts. fold new_posts.
  destruct new_posts as [| p0 rest] eqn:Hnew.
  - right.
    destruct (sorted_by_intent_score_total (agent.min_intent_score cfg)
                                           (all_qualified st ++ [])%list) as (high & Hhigh & _).
    { now rewrite app_nil_r. }
    exists [], [], high. eexists. cbn zeta.
    repeat split; try eassumption; reflexivity.
  - destruct (score_opportunities (scoring_service w iteration) (p0 :: rest))
      as [e | scored] eqn:Hscored.
    { left. exists e. split; [discriminate |]. split; [now left | reflexivity]. }
    destruct (qualified (agent.min_intent_score cfg) scored) as [e | new_qualified] eqn:Hq.
    { left. exists e. split; [discriminate |]. split; [right; now exists scored | reflexivity]. }
    right.
    assert (Hall : Forall (reaches (agent.min_intent_score cfg))
                          (all_qualified st ++ new_qualified)%list).
    { apply Forall_app. split; [exact Hinv |].
      eapply qualified_reaches; [| eassumption].
      eapply scored_carries_scores; eassumption. }
    destruct (sorted_by_intent_score_total _ _ Hall) as (high & Hhigh & _).
    exists scored, new_qualified, high. cbn zeta. cbn [is_nil termination_check].
    destruct (Z.of_nat (length (all_qualified st ++ new_qualified)) >=? agent.max_results cfg)
      eqn:Hreach.
    + eexists. repeat split; try eassumption; reflexivity.
    + destruct (iteration <? max_iterations cfg) eqn:Hlast; cbn [negb].
      * rewrite Hhigh.
        destruct (generate_refined_keywords _ _ _ _) as [| k ks] eqn:Hkw.
        -- eexists. repeat split; try eassumption; reflexivity.
        -- eexists. repeat split; try eassumption; reflexivity.
      * eexists. repeat split; try eassumption; reflexivity.
Qed.

(** On well-formed replies no exception leaves an iteration. *)
Lemma well_formed_iteration (iteration : Z) (st : state) :
  well_formed_replies w ->
  Forall (reaches (agent.min_intent_score cfg)) (all_qualified st) ->
  forall e, snd (iteration_body lower w cfg iteration st) <> Raise e.
Proof.
  intros Hwf Hinv e.
  destruct (dyn_iteration_body_spec iteration st Hinv)
    as [(e' & _ & Hcause & _) | (scored & newq & high & st' & _ & _ & _ & -> & _)];
    [| discriminate].
  exfalso. destruct Hcause as [Hraise | (scored & Hscored & Hraise)].
  - destruct (well_formed_scored (scoring_service w iteration)
                                 (posts_to_score w cfg iteration st) (Hwf iteration))
      as [scored Hscored].
    congruence.
  - pose proof (well_formed_scores _ _ _ (Hwf iteration) Hscored) as Hnum.
    destruct (qualified_total (agent.min_intent_score cfg) scored Hnum) as [l Hl].
    congruence.
Qed.

(** *** The loop *)

(** The loop over a list of iteration numbers.  Either it runs through the
    list without [break], or it stops in the body run for the element at
    some position [k], after [k + 1] iterations: by [break], with the
    number of the iteration announced, or by an exception, with no [break]
    announced. *)
Lemma dyn_for_loop_spec (numbers : list Z) (st : state) :
  Forall (reaches (agent.min_intent_score cfg)) (all_qualified st) ->
  let tr := fst (for_loop lower w cfg numbers st) in
  let result := snd (for_loop lower w cfg numbers st) in
  (scoring_passes tr <= iterations tr)%nat /\
  (forall st', result = Return st' ->
     Forall (reaches (agent.min_intent_score cfg)) (all_qualified st') /\
     ((iterations tr = length numbers /\ stops tr = []) \/
      (exists k iteration,
          numbers !! k = Some iteration /\ iterations tr = S k /\
          stops tr = [iteration]))) /\
  (forall e, result = Raise e ->
     stops tr = [] /\ exists k, (k < length numbers)%nat /\ iterations tr = S k) /\
  (well_formed_replies w -> exists st', result = Return st').
Proof.
  revert st. induction numbers as [| iteration rest IH]; intros st Hinv; cbn zeta.
  - cbn. split; [lia |]. split; [| split; [discriminate | now eexists]].
    intros st' H. inversion H; subst st'. split; [exact Hinv | now left].
  - pose proof (well_formed_iteration iteration st) as Hnoraise.
    cbn [for_loop].
    destruct (dyn_iteration_body_spec iteration st Hinv)
      as [(e & _ & _ & Hbody)
         | (scored & newq & high & st1 & _ & _ & _ & Hbody & _ & _ & _ & _ & Hinv1)].
    + rewrite Hbody in *. cbn [fst snd].
      split; [cbn; lia |]. split; [discriminate |]. split.
      * intros e' _. split; [reflexivity |]. exists 0%nat. cbn. split; [lia | reflexivity].
      * intros Hwf. exfalso. apply (Hnoraise Hwf Hinv e). reflexivity.
    + cbn zeta in Hbody. set (v := termination_check _ _ _ _) in Hbody.
      set (n := length _) in Hbody. rewrite Hbody. clear Hnoraise.
      pose proof (events_of_iterations iteration n v) as Hit.
      pose proof (events_of_scoring_passes iteration n v) as Hsp.
      pose proof (events_of_stops iteration n v) as Hst.
      destruct (breaks v) eqn:Hbreak.
      * cbn [fst snd]. split; [lia |]. split; [| split; [discriminate | now eexists]].
        intros st' H. inversion H; subst st'. split; [exact Hinv1 |].
        right. exists 0%nat, iteration. now repeat split.
      * destruct (IH st1 Hinv1) as (Hpasses & Hret & Hraise & Hwf). cbn zeta in *.
        cbn [fst snd].
        rewrite iterations_app, scoring_passes_app, stops_app, Hit, Hst.
        split; [lia |]. split; [| split; [| exact Hwf]].
        -- intros st' H. destruct (Hret st' H) as [Hinv' Hend].
           split; [exact Hinv' |].
           destruct Hend as [[Hall Hnone] | (k & i & Hk & Hiter & Hstop)].
           ++ left. cbn. split; [lia | assumption].
           ++ right. exists (S k), i. cbn. repeat split; [assumption | lia | assumption].
        -- intros e H. destruct (Hraise e H) as (Hnone & k & Hk & Hiter).
           split; [exact Hnone |]. exists (S k). cbn. split; lia.
Qed.

End dyn_loop_facts.




(** X15: SORT & TRIM raises nothing: [main] ends with an exception only
    when the loop does, and it does not when every parsed reply of the
    scoring service is [None] or a list of objects with hashable ids and
    numeric scores.  When [main] reaches the end of SORT & TRIM, the score
    of every post of [all_qualified] and of [top] is a number that reaches
    [min_intent_score], [all_qualified] holds the posts accumulated by the
    loop, and [top] is part of [all_qualified]. *)
Theorem output_meets_threshold :
  forall lower w cfg,
    let result := snd (dyn.main lower w cfg) in
    (forall r,
        result = Return r ->
        Forall (reaches (agent.min_intent_score cfg)) (dyn.r_all_qualified r) /\
        Forall (reaches (agent.min_intent_score cfg)) (dyn.r_top r) /\
        (forall p, In p (dyn.r_top r) -> In p (dyn.r_all_qualified r)) /\
        exists st, snd (dyn.refinement_loop lower w cfg) = Return st /\
                   Permutation (dyn.r_all_qualified r) (dyn.all_qualified st)) /\
    (forall e, result = Raise e -> snd (dyn.refinement_loop lower w cfg) = Raise e) /\
    (well_formed_replies w -> exists r, result = Return r).
Proof.
  intros lower w cfg. cbn zeta.
  destruct (dyn_for_loop_spec lower w cfg (py_range 1 (dyn.max_iterations cfg + 1))
                              (dyn.initial cfg))
    as (_ & Hret & _ & Hwf); [constructor |].
  cbn zeta in *. fold (dyn.refinement_loop lower w cfg) in *.
  unfold dyn.main. cbn [snd].
  destruct (snd (dyn.refinement_loop lower w cfg)) as [e | st] eqn:Hloop.
  - cbn [mbind outcome_bind].
    split; [discriminate |]. split; [intros e' H; now inversion H |].
    intros Hgood. destruct (Hwf Hgood) as [st Hst]. discriminate Hst.
  - destruct (Hret st eq_refl) as [Hinv _].
    destruct (sorted_by_intent_score_total _ _ Hinv) as (sorted & Hsorted & Hperm).
    cbn [mbind outcome_bind]. unfold dyn.sort_and_trim. rewrite Hsorted.
    cbn [mbind outcome_bind mret outcome_ret].
    assert (Hall : Forall (reaches (agent.min_intent_score cfg)) sorted).
    { rewrite List.Forall_forall in *. intros p Hp. apply Hinv.
      eapply Permutation_in; eassumption. }
    split; [| split; [discriminate | now eexists]].
    intros r Hr. inversion Hr; subst r. cbn [dyn.r_all_qualified dyn.r_top].
    split; [exact Hall |].
    assert (Hsub : forall p, In p (slice_to (agent.max_results cfg) sorted) -> In p sorted).
    { intros p. apply slice_to_subset. }
    split; [| split; [exact Hsub | now exists st]].
    rewrite List.Forall_forall in *. intros p Hp. apply Hall, Hsub, Hp.
Qed.

Lemma output_meets_threshold_witness :
  exists r,
    snd (dyn.main scorer.ascii_lower (world_answering (VInt 90)) quiet_config) = Return r /\
    Forall (reaches 60) (dyn.r_top r).
Proof.
  pose proof (output_meets_threshold scorer.ascii_lower (world_answering (VInt 90))
                                     quiet_config) as H.
  cbn zeta in H. destruct H as (Hret & _ & Hwf).
  destruct Hwf as [r Hr].
  - intros iteration batch_num attempt user_msg v. cbn. unfold service_answering.
    destruct (attempt =? 0); [discriminate |].
    intros Hv. inversion Hv. unfold well_formed. cbn [usable elements_of iterate].
    apply andb_true_iff. split; apply forallb_forall; intros item Hitem;
      apply in_map_iff in Hitem as (rq & <- & _); reflexivity.
  - exists r. split; [exact Hr |]. exact (proj1 (proj2 (Hret r Hr))).
Defined.

(** ** Replies of the annotated types

    On replies that have the shape and the types that [_parse_response] is
    annotated with and that the prompt asks for, the scorer and the loop on
    JSON replies do what [scorer] and [agent] do: the statements about these
    are statements about [dyn] on such replies. *)

Section typed_replies.

Lemma Qeq_bool_inject (a b : Z) : Qeq_bool (inject_Z a) (inject_Z b) = (a =? b).
Proof. unfold Qeq_bool, inject_Z. cbn. now rewrite !Z.mul_1_r. Qed.

Lemma Qle_bool_inject (a b : Z) : Qle_bool (inject_Z a) (inject_Z b) = (a <=? b).
Proof. unfold Qle_bool, inject_Z. cbn. now rewrite !Z.mul_1_r. Qed.

Lemma has_id_json_of_item (it : scorer.item) :
  has_id (json_of_item it) = match scorer.i_id it with Some _ => true | None => false end.
Proof. destruct it as [[k |] [t |] [s |] [a |] [r |] [y |]]; reflexivity. Qed.

Lemma id_of_json_of_item (it : scorer.item) :
  id_of (json_of_item it) =
  match scorer.i_id it with Some k => json_of_key k | None => VNone end.
Proof. destruct it as [[k |] [t |] [s |] [a |] [r |] [y |]]; reflexivity. Qed.

Lemma key_is_json_of_item (r : nat) (it : scorer.item) :
  dyn.key_is (Z.of_nat r) (id_of (json_of_item it)) =
  bool_decide (scorer.i_id it = Some (scorer.KInt (Z.of_nat r))).
Proof.
  rewrite id_of_json_of_item. destruct (scorer.i_id it) as [[z | s] |]; cbn.
  - unfold dyn.key_is. cbn. rewrite Qeq_bool_inject.
    destruct (Z.eqb_spec z (Z.of_nat r)) as [-> | Hne].
    + now rewrite bool_decide_eq_true_2.
    + rewrite bool_decide_eq_false_2; [reflexivity | congruence].
  - now rewrite bool_decide_eq_false_2.
  - now rewrite bool_decide_eq_false_2.
Qed.

Lemma filter_ext_all {A : Type} (f g : A -> bool) (l : list A) :
  (forall x, f x = g x) -> List.filter f l = List.filter g l.
Proof. intros H. apply List.filter_ext. exact H. Qed.

Lemma forallb_mapped {A B : Type} (f : B -> bool) (g : A -> B) (h : A -> bool) (l : list A) :
  (forall x, f (g x) = h x) -> forallb f (List.map g l) = forallb h l.
Proof.
  intros H. induction l as [| x l IH]; [reflexivity |].
  cbn. now rewrite H, IH.
Qed.

(** *** The scorer *)

Lemma correlated_json (result : list scorer.item) (r : nat) :
  correlated_element (List.map json_of_item result) r = json_of_item <$> correlated result r.
Proof.
  unfold correlated_element, correlated, scorer.has_ids.
  rewrite (forallb_mapped has_id json_of_item _ result has_id_json_of_item).
  destruct (forallb _ result).
  - rewrite (last_filter_map (fun it => dyn.key_is (Z.of_nat r) (id_of it)) json_of_item).
    now rewrite (filter_ext_all _ _ result (key_is_json_of_item r)).
  - apply map_lookup.
Qed.

Lemma scores_of_json_of_item (it : scorer.item) (items : list (string * json)) :
  json_of_item it = VDict items -> scores_of items = json_of_scoring (scoring_of it).
Proof.
  intros H. inversion H; subst items.
  destruct it as [[k |] [t |] [s |] [a |] [r |] [y |]]; reflexivity.
Qed.

Lemma written_json (r : option (list scorer.item)) (k : nat) :
  written_scores (json_of_reply r) k =
  json_of_scoring (match r with
                   | None => scorer.failed
                   | Some result => written result k
                   end).
Proof.
  destruct r as [result |]; [| reflexivity].
  unfold written_scores, written. cbn [json_of_reply is_none elements_of iterate].
  rewrite correlated_json.
  destruct (correlated result k) as [info |]; [| reflexivity].
  cbn [fmap option_fmap option_map]. unfold json_of_item at 1.
  now apply scores_of_json_of_item.
Qed.

Lemma attempts_json complete (bn : Z) (msg : list scorer.request_item) (tries : list Z) :
  dyn.attempts (as_json complete) bn msg tries =
  json_of_reply (scorer.attempts complete bn msg tries).
Proof.
  induction tries as [| a tries IH]; [reflexivity |].
  cbn [dyn.attempts scorer.attempts]. unfold as_json at 1.
  destruct (complete bn a msg) as [e | r]; cbn [mbind outcome_bind mret outcome_ret].
  - rewrite IH. now destruct e.
  - reflexivity.
Qed.

Lemma usable_json (r : option (list scorer.item)) : usable (json_of_reply r) = true.
Proof.
  destruct r as [result |]; [| reflexivity]. cbn.
  apply forallb_forall. intros item Hitem. apply in_map_iff in Hitem as (it & <- & _).
  destruct it as [[[z | s] |] [t |] [sc |] [a |] [r |] [y |]]; reflexivity.
Qed.

Lemma to_jpost_update (p : post) (d : scoring) :
  to_jpost (update p d) = dyn.update p (json_of_scoring d).
Proof. reflexivity. Qed.

(** On replies of the annotated types the scorer on JSON replies returns
    what the typed scorer returns. *)
Lemma typed_scorer_in_dyn complete (posts scored : list post) :
  scorer.score_opportunities complete posts = Return scored ->
  dyn.score_opportunities (as_json complete) posts = Return (List.map to_jpost scored).
Proof.
  intros Hrun.
  destruct (score_opportunities_lookup complete posts) as (scored' & Hrun' & Hlen & Hget).
  rewrite Hrun in Hrun'. inversion Hrun'; subst scored'. clear Hrun'.
  destruct (dyn_score_opportunities_total (as_json complete) posts) as [jscored Hj].
  { intros j _. unfold kept_reply. rewrite attempts_json. apply usable_json. }
  rewrite Hj. f_equal.
  destruct (dyn_score_opportunities_lookup (as_json complete) posts jscored Hj)
    as [Hjlen Hjget].
  apply list_eq. intros i. rewrite map_lookup.
  destruct (posts !! i) as [p |] eqn:Hp.
  - destruct (Hjget i p Hp) as [-> _]. rewrite (Hget i p Hp). cbn [fmap option_fmap option_map].
    f_equal. unfold scored_post, kept_reply, reply_for.
    rewrite attempts_json, written_json.
    destruct (scorer.attempts complete _ _ _); apply eq_sym, to_jpost_update.
  - apply lookup_ge_None in Hp.
    rewrite (proj2 (lookup_ge_None jscored i)) by lia.
    now rewrite (proj2 (lookup_ge_None scored i)) by lia.
Qed.

(** *** The threshold test and the sort *)

Lemma qualified_typed (min_score : Z) (scored : list post) :
  dyn.qualified min_score (List.map to_jpost scored) =
  Return (List.map to_jpost
                   (List.filter (fun p => get (intent_score p) 0 >=? min_score) scored)).
Proof.
  induction scored as [| p scored IH]; [reflexivity |].
  cbn [List.map dyn.qualified List.filter]. rewrite IH.
  unfold ge_int. cbn [to_jpost dyn.j_intent_score].
  destruct (intent_score p) as [s |];
    cbn [fmap option_fmap option_map get as_number float_ge mbind outcome_bind mret outcome_ret];
    rewrite Qle_bool_inject, Z.geb_leb; now destruct (min_score <=? _).
Qed.

Lemma insert_by_key_typed (x : Z * post) (l : list (Z * post)) :
  dyn.insert_by_key (Finite (inject_Z (fst x)), to_jpost (snd x))
                    (List.map (fun a => (Finite (inject_Z (fst a)), to_jpost (snd a))) l) =
  List.map (fun a => (Finite (inject_Z (fst a)), to_jpost (snd a))) (insert_desc x l).
Proof.
  induction l as [| y l IH]; [reflexivity |].
  cbn [List.map dyn.insert_by_key insert_desc fst float_le].
  rewrite Qle_bool_inject. destruct (fst y <=? fst x); [reflexivity |].
  cbn [List.map]. now rewrite IH.
Qed.

Lemma sort_by_key_typed (l : list (Z * post)) :
  dyn.sort_by_key (List.map (fun a => (Finite (inject_Z (fst a)), to_jpost (snd a))) l) =
  List.map (fun a => (Finite (inject_Z (fst a)), to_jpost (snd a))) (sort_desc l).
Proof.
  induction l as [| x l IH]; [reflexivity |].
  cbn [List.map dyn.sort_by_key sort_desc]. rewrite IH. apply insert_by_key_typed.
Qed.

Lemma sorted_typed (posts sorted : list post) :
  all_scored posts ->
  agent.sorted_by_intent_score posts = Return sorted ->
  dyn.sorted_by_intent_score (List.map to_jpost posts) = Return (List.map to_jpost sorted).
Proof.
  intros Hall. unfold agent.sorted_by_intent_score, dyn.sorted_by_intent_score.
  rewrite (keys_of_scored posts Hall). cbn [mbind outcome_bind mret outcome_ret].
  rewrite combine_keys. intros H. inversion H; subst sorted. clear H.
  rewrite mapM_map.
  rewrite (mapM_total _ (fun p => Finite (inject_Z (score_of p))) posts).
  2: { intros p Hp. unfold all_scored in Hall. rewrite List.Forall_forall in Hall.
       destruct (Hall p Hp) as [s Hs]. unfold dyn.sort_key, score_of.
       cbn [to_jpost dyn.j_intent_score]. rewrite Hs. reflexivity. }
  cbn [mbind outcome_bind]. f_equal.
  assert (Hdec : combine (List.map (fun p => Finite (inject_Z (score_of p))) posts)
                         (List.map to_jpost posts) =
                 List.map (fun a : Z * post => (Finite (inject_Z (fst a)), to_jpost (snd a)))
                          (List.map decorate posts)).
  { clear Hall. induction posts as [| p posts IH]; [reflexivity |].
    cbn [List.map combine]. now rewrite IH. }
  rewrite Hdec, sort_by_key_typed, !List.map_map. reflexivity.
Qed.

Lemma refine_request_typed (original : list string) (posts : list post) :
  typed_refine_msg (dyn.refine_request original (List.map to_jpost posts)) =
  scorer.refine_request original posts.
Proof.
  unfold typed_refine_msg, dyn.refine_request, scorer.refine_request.
  cbn [dyn.rm_original_keywords dyn.rm_high_scoring_posts]. f_equal.
  rewrite firstn_map, !List.map_map. apply List.map_ext. intros p.
  cbn [to_jpost dyn.j_title dyn.j_topic_label dyn.j_intent_score dyn.sm_title dyn.sm_topic
       dyn.sm_score].
  now destruct (topic_label p), (intent_score p).
Qed.

(** *** The loop *)

Section with_world.

Variable lower : string -> string.
Variable w : agent.world.
Variable cfg : agent.config.

Lemma scrape_typed (iteration : Z) (current : list string) :
  dyn.scrape (as_dyn_world w) cfg iteration current = agent.scrape w cfg iteration current.
Proof. reflexivity. Qed.

Lemma generate_refined_keywords_typed (iteration : Z) (posts : list post) :
  dyn.generate_refined_keywords lower (dyn.refinement_service (as_dyn_world w) iteration)
                                (agent.keywords cfg) (List.map to_jpost posts) =
  scorer.generate_refined_keywords lower (agent.refinement_service w iteration)
                                   (agent.keywords cfg) posts.
Proof.
  unfold dyn.generate_refined_keywords, scorer.generate_refined_keywords.
  cbn [as_dyn_world dyn.refinement_service]. now rewrite refine_request_typed.
Qed.

Lemma reaches_typed (posts : list post) :
  Forall (fun p => is_Some (intent_score p) /\ agent.min_intent_score cfg <= score_of p)
         posts ->
  Forall (reaches (agent.min_intent_score cfg)) (List.map to_jpost posts).
Proof.
  intros H. apply List.Forall_map. eapply List.Forall_impl; [| exact H].
  intros p [[s Hs] Hp]. unfold score_of in Hp. rewrite Hs in Hp. cbn [get] in Hp.
  exists (VInt s), (Finite (inject_Z s)). cbn [to_jpost dyn.j_intent_score].
  rewrite Hs. repeat split.
  cbn [float_ge]. rewrite Qle_bool_inject. now apply Z.leb_le.
Qed.

(** One iteration of the typed loop is one iteration of the loop on JSON
    replies, with the same prints and calls. *)
Lemma typed_iteration_in_dyn (iteration : Z) (st st1 : agent.state) (stop : bool) :
  sound_state cfg st ->
  agent.iteration_body lower w cfg iteration st = Return (st1, stop) ->
  exists log,
    agent.trace st1 = (agent.trace st ++ log)%list /\
    dyn.iteration_body lower (as_dyn_world w) cfg iteration (as_dyn_state st) =
      (log, Return (as_dyn_state st1, stop)).
Proof.
  intros Hsound Hbody.
  assert (Hscored : all_scored (agent.all_qualified st)).
  { destruct Hsound as [Hall _]. eapply List.Forall_impl; [| exact Hall].
    intros p [(_ & Hs & _) _]. exact Hs. }
  assert (Hreach : Forall (reaches (agent.min_intent_score cfg))
                          (dyn.all_qualified (as_dyn_state st))).
  { cbn [as_dyn_state dyn.all_qualified]. apply reaches_typed.
    destruct Hsound as [Hall _]. eapply List.Forall_impl; [| exact Hall].
    intros p ((_ & Hs & _) & Hmin & _). now split. }
  destruct (iteration_body_spec lower w cfg iteration st Hscored)
    as (scored & high & st' & Hs & Hhigh & Hbody' & Htrace & Hseen & Htotal & Hq & Hkw & _).
  cbn zeta in *. rewrite Hbody in Hbody'. inversion Hbody'; subst st' stop. clear Hbody'.
  eexists. split; [exact Htrace |].
  destruct (dyn_iteration_body_spec lower (as_dyn_world w) cfg iteration (as_dyn_state st) Hreach)
    as [(e & _ & Hcause & _)
       | (jscored & jnew & jhigh & jst & Hjs & Hjq & Hjhigh & Hjbody & Hjseen & Hjtotal
          & Hjall & Hjkw & _)].
  - exfalso. unfold posts_to_score in Hcause. rewrite scrape_typed in Hcause.
    cbn [as_dyn_state dyn.all_seen_urls dyn.current_keywords as_dyn_world
         dyn.scoring_service] in Hcause.
    rewrite (typed_scorer_in_dyn _ _ _ Hs) in Hcause.
    destruct Hcause as [Hraise | (jscored & Hjs & Hraise)]; [discriminate Hraise |].
    inversion Hjs; subst jscored. rewrite qualified_typed in Hraise. discriminate Hraise.
  - cbn zeta in *. unfold posts_to_score in *. rewrite scrape_typed in *.
    cbn [as_dyn_state dyn.all_seen_urls dyn.current_keywords dyn.all_qualified dyn.total_raw
         as_dyn_world dyn.scoring_service] in *.
    rewrite (typed_scorer_in_dyn _ _ _ Hs) in Hjs. inversion Hjs; subst jscored. clear Hjs.
    rewrite qualified_typed in Hjq. inversion Hjq; subst jnew. clear Hjq.
    rewrite <- List.map_app in *.
    assert (Hall : all_scored (agent.all_qualified st ++
                     List.filter (fun p => get (intent_score p) 0 >=? agent.min_intent_score cfg)
                                 scored)%list).
    { apply Forall_app. split; [exact Hscored |]. apply all_scored_filter.
      destruct (score_opportunities_all_scored
                  (agent.scoring_service w iteration)
                  (agent.new_posts_of (agent.all_seen_urls st)
                                      (agent.scrape w cfg iteration (agent.current_keywords st))))
        as (scored' & Hs' & _ & Hall').
      rewrite Hs in Hs'. now inversion Hs'; subst. }
    rewrite (sorted_typed _ _ Hall Hhigh) in Hjhigh. inversion Hjhigh; subst jhigh. clear Hjhigh.
    change (dyn.refinement_service
              {| dyn.scrape_reddit := agent.scrape_reddit w;
                 dyn.scrape_web := agent.scrape_web w;
                 dyn.scoring_service :=
                   fun iteration => as_json (agent.scoring_service w iteration);
                 dyn.refinement_service :=
                   fun iteration msg => agent.refinement_service w iteration (typed_refine_msg msg)
              |}) with (dyn.refinement_service (as_dyn_world w)) in *.
    rewrite generate_refined_keywords_typed in *.
    rewrite length_map in *.
    change (dyn.max_iterations cfg) with (agent.max_iterations cfg) in *.
    rewrite Hjbody. f_equal. f_equal. f_equal.
    destruct jst as [jseen jall jtotal jkw]. unfold as_dyn_state.
    cbn [dyn.all_seen_urls dyn.all_qualified dyn.total_raw dyn.current_keywords] in *.
    subst jseen jtotal jall jkw. rewrite Hseen, Htotal, Hq, Hkw.
    f_equal. now destruct (is_nil _).
Qed.

Lemma typed_loop_in_dyn (numbers : list Z) (st st' : agent.state) :
  sound_state cfg st ->
  agent.for_loop lower w cfg numbers st = Return st' ->
  exists log,
    agent.trace st' = (agent.trace st ++ log)%list /\
    dyn.for_loop lower (as_dyn_world w) cfg numbers (as_dyn_state st) =
      (log, Return (as_dyn_state st')).
Proof.
  revert st. induction numbers as [| iteration rest IH]; intros st Hsound Hloop.
  - inversion Hloop; subst st'. exists [agent.CompletedAll]. split; reflexivity.
  - cbn [agent.for_loop] in Hloop.
    destruct (agent.iteration_body lower w cfg iteration st) as [e | [st1 stop]] eqn:Hbody;
      [discriminate |].
    cbn [mbind outcome_bind] in Hloop.
    assert (Hscored : all_scored (agent.all_qualified st)).
    { destruct Hsound as [Hall _]. eapply List.Forall_impl; [| exact Hall].
      intros p [(_ & Hs & _) _]. exact Hs. }
    pose proof (iteration_keeps_sound lower w cfg iteration st st1 stop Hscored Hsound Hbody)
      as Hsound1.
    destruct (typed_iteration_in_dyn iteration st st1 stop Hsound Hbody) as (log & Hlog & Hdyn).
    cbn [dyn.for_loop]. rewrite Hdyn. destruct stop.
    + inversion Hloop; subst st'. now exists log.
    + destruct (IH st1 Hsound1 Hloop) as (log' & Hlog' & Hdyn').
      exists (log ++ log')%list. rewrite Hdyn'. cbn [fst snd].
      split; [| reflexivity]. now rewrite Hlog', Hlog, app_assoc.
Qed.

Lemma slice_to_map {A B : Type} (f : A -> B) (n : Z) (l : list A) :
  slice_to n (List.map f l) = List.map f (slice_to n l).
Proof. unfold slice_to. rewrite length_map. destruct (0 <=? n); apply firstn_map. Qed.

(** A run of [main] on replies of the annotated types is a run of [main] on
    JSON replies: the same prints and calls, the same counters, and the same
    posts in [all_qualified] and in the output. *)
Lemma typed_main_in_dyn (r : agent.run) :
  agent.main lower w cfg = Return r ->
  dyn.main lower (as_dyn_world w) cfg = (agent.r_trace r, Return (as_dyn_run r)).
Proof.
  unfold agent.main. intros Hmain.
  destruct (agent.refinement_loop lower w cfg) as [e | st] eqn:Hloop; [discriminate |].
  cbn [mbind outcome_bind] in Hmain.
  destruct (refinement_loop_sound lower w cfg) as (st' & Hloop' & Hscored & _).
  rewrite Hloop in Hloop'. inversion Hloop'; subst st'. clear Hloop'.
  unfold agent.sort_and_trim in Hmain.
  destruct (agent.sorted_by_intent_score (agent.all_qualified st)) as [e | sorted] eqn:Hsorted;
    [discriminate |].
  inversion Hmain; subst r. clear Hmain.
  destruct (typed_loop_in_dyn _ _ _ (initial_sound cfg) Hloop) as (log & Hlog & Hdyn).
  unfold dyn.main, dyn.refinement_loop.
  change (dyn.max_iterations cfg) with (agent.max_iterations cfg).
  change (dyn.initial cfg) with (as_dyn_state (agent.initial cfg)).
  rewrite Hdyn. cbn [fst snd mbind outcome_bind agent.r_trace].
  cbn in Hlog. rewrite Hlog. f_equal.
  unfold dyn.sort_and_trim. cbn [as_dyn_state dyn.all_qualified dyn.total_raw dyn.all_seen_urls].
  rewrite (sorted_typed _ _ Hscored Hsorted). cbn [mbind outcome_bind mret outcome_ret].
  unfold as_dyn_run. cbn [agent.r_all_qualified agent.r_top agent.r_total_raw agent.r_after_dedup].
  now rewrite slice_to_map.
Qed.

End with_world.

End typed_replies.
